(** * Neon Racer: the authoritative race server, embedded and verified

    The server keeps a table [rooms] of race rooms.  Socket listeners
    ([join-room], [set-race-distance], [start-race], [toggle-pause],
    [player-update], [restart-game], [collision], [disconnect]) mutate one
    room each, and a 30 Hz interval callback advances every room and
    broadcasts a [game-state] snapshot.

    Conventions of the embedding:
    - timestamps ([Date.now()]) are integers, [Z]; a field that holds
      [null] or a number is an [option], and [null] used in arithmetic
      is 0, as in JavaScript;
    - the other numbers (speeds, widths, coordinates, distances) are exact
      rationals, [Q]; IEEE rounding, NaN and infinities are outside the
      model;
    - a JavaScript object used as a dictionary and walked with [for..in]
      ([rooms], [room.players]) is an association list in the order of
      enumeration: array indices first, ascending, then the other keys
      in insertion order.  Room codes are chosen by the clients, so the
      [rooms] table is built with [Obj.add], which places an array index
      where JavaScript enumerates it; the keys of [room.players] are
      socket ids, which socket.io generates (20 characters, never an
      array index), so a new player goes last;
    - [rooms] is a plain object: a code that names a property of
      [Object.prototype] reads as truthy although no room is stored
      under it;
    - event payloads are well formed (the room code and the name are
      strings);
    - the per-connection attributes [socket.roomCode], [socket.userName]
      live in a finite map from socket ids;
    - [Date.now()] is an argument of every listener, and [Math.random()]
      is an oracle [rnd : nat -> Q] read through a draw counter;
    - every [emit] is recorded, with its addressee, in the list a listener
      returns. *)

From Stdlib Require Import ZArith QArith Qminmax Qabs Qround Lqa Lia List String Bool.
From stdpp Require Import gmap strings list pretty sorting.
Import ListNotations.

Local Open Scope string_scope.
Local Open Scope list_scope.
Local Open Scope Z_scope.

(** ** JavaScript objects as dictionaries *)

(** The value of a string of decimal digits. *)
Fixpoint numeral (s : string) (acc : N) : option N :=
  match s with
  | EmptyString => Some acc
  | String c s' =>
      let d := Ascii.N_of_ascii c in
      if ((48 <=? d) && (d <=? 57))%N
      then numeral s' (10 * acc + (d - 48))%N
      else None
  end.

(** An array index is the canonical numeral of an integer below
    [2^32 - 1]: [for..in] lists such keys first, in ascending order. *)
Definition array_index (k : string) : option N :=
  match k with
  | EmptyString => None
  | String c k' =>
      if (Ascii.N_of_ascii c =? 48)%N && negb (String.eqb k' "") then None
      else
        match numeral k 0 with
        | Some n => if (n <? 4294967295)%N then Some n else None
        | None => None
        end
  end.

(** The properties every plain object inherits from [Object.prototype];
    each of them is a function or an object, hence truthy. *)
Definition prototype_keys : list string :=
  ["constructor"; "__defineGetter__"; "__defineSetter__"; "hasOwnProperty";
   "__lookupGetter__"; "__lookupSetter__"; "isPrototypeOf";
   "propertyIsEnumerable"; "toString"; "valueOf"; "__proto__";
   "toLocaleString"].

Definition inherited (k : string) : bool :=
  existsb (String.eqb k) prototype_keys.

Module Obj.
Section Obj.
Context {V : Type}.

(** [o[k]] *)
Fixpoint get (k : string) (o : list (string * V)) : option V :=
  match o with
  | [] => None
  | (k', v) :: o' => if String.eqb k k' then Some v else get k o'
  end.

(** [o[k] = v]: an existing key keeps its place, a new key goes last *)
Fixpoint set (k : string) (v : V) (o : list (string * V)) : list (string * V) :=
  match o with
  | [] => [(k, v)]
  | (k', v') :: o' =>
      if String.eqb k k' then (k, v) :: o' else (k', v') :: set k v o'
  end.

(** [o[k] = v] for a key that [o] does not hold and that may be an array
    index: it goes before the first array index above it, before the
    first key that is no array index if there is none; any other key
    goes last. *)
Fixpoint add_index (n : N) (k : string) (v : V) (o : list (string * V))
  : list (string * V) :=
  match o with
  | [] => [(k, v)]
  | (k', v') :: o' =>
      match array_index k' with
      | Some m =>
          if (n <? m)%N then (k, v) :: o else (k', v') :: add_index n k v o'
      | None => (k, v) :: o
      end
  end.

Definition add (k : string) (v : V) (o : list (string * V))
  : list (string * V) :=
  match array_index k with
  | Some n => add_index n k v o
  | None => o ++ [(k, v)]
  end.

(** [delete o[k]] *)
Fixpoint del (k : string) (o : list (string * V)) : list (string * V) :=
  match o with
  | [] => []
  | (k', v') :: o' =>
      if String.eqb k k' then o' else (k', v') :: del k o'
  end.

(** [Object.keys(o)] and [Object.values(o)] *)
Definition keys (o : list (string * V)) : list string := map fst o.
Definition values (o : list (string * V)) : list V := map snd o.

(** Every value stored in the object satisfies [P]. *)
Definition All (P : V -> Prop) (o : list (string * V)) : Prop :=
  Forall (fun kv => P (snd kv)) o.
End Obj.
End Obj.

(** ** Data model *)

Inductive RaceState := WAITING | COUNTDOWN | RACING | PAUSED | FINISHED.

#[global] Instance RaceState_eq_dec : EqDecision RaceState.
Proof. solve_decision. Defined.

Definition MIN_PLAYERS_TO_START : nat := 2.
Definition DEFAULT_RACE_DISTANCE : Z := 1000.
Definition COUNTDOWN_SECONDS : Z := 3.

Definition OBSTACLE_SPAWN_INTERVAL : Q := 50.
Definition OBSTACLE_DESPAWN_DISTANCE : Q := 100.
Definition SPAWN_AHEAD_DISTANCE : Q := 300.
Definition PIXELS_PER_METER : Q := 2.

Definition BASE_ROAD_WIDTH : Q := 200.
Definition MAX_ROAD_WIDTH : Q := 400.
Definition ROAD_EXPANSION_INTERVAL : Z := 30000.
Definition ROAD_EXPANSION_RATE : Q := 1.1.

Definition BASE_GAME_SPEED : Q := 2.
Definition MAX_GAME_SPEED : Q := 20.
Definition SPEED_INCREMENT_PER_TICK : Q := 0.0005.

(** The broadcast loop runs [TICK_RATE] times a second: the delay given
    to [setInterval] is [1000 / TICK_RATE] ms. *)
Definition TICK_RATE : Q := 30.
Definition tickInterval : Q := 1000 / TICK_RATE.

Definition playerColors : list string :=
  ["#ff6b6b"; "#4ecdc4"; "#ffe66d"; "#95e1d3";
   "#f38181"; "#aa96da"; "#fcbad3"; "#a8d8ea"].

Definition getPlayerColor (index : nat) : string :=
  nth (index mod length playerColors) playerColors "".

Module Member.
Record t := mk { id : string; name : string }.
End Member.

Module Player.
Record t := mk {
  name : string;
  x : Q;
  startX : Q;
  worldY : Q;
  startWorldY : Q;
  distance : Q;
  color : string;
  stunned : bool;
  stunnedUntil : Z;
  finished : bool;
  finishTime : option Z;
  position : option nat;
  gridPosition : nat
}.
End Player.

Module Obstacle.
Record t := mk { id : nat; x : Q; worldY : Q; distance : Q }.
End Obstacle.

Module Room.
Record t := mk {
  members : list Member.t;
  players : list (string * Player.t);
  obstacles : list Obstacle.t;
  nextObstacleId : nat;
  lastSpawnWorldY : Q;
  furthestWorldY : Q;
  roadWidth : Q;
  gameSpeed : Q;
  lastExpansionTime : Z;
  createdAt : Z;
  creatorId : string;
  raceState : RaceState;
  raceStartTime : option Z;
  countdownStartTime : option Z;
  countdownValue : Z;
  finishOrder : list string;
  raceDistance : Z;
  pausedAt : option Z
}.

(** Field assignments [room.f = v]. *)
Definition set_members v (r : t) : t :=
  mk v (players r) (obstacles r) (nextObstacleId r) (lastSpawnWorldY r)
     (furthestWorldY r) (roadWidth r) (gameSpeed r) (lastExpansionTime r)
     (createdAt r) (creatorId r) (raceState r) (raceStartTime r)
     (countdownStartTime r) (countdownValue r) (finishOrder r)
     (raceDistance r) (pausedAt r).
Definition set_players v (r : t) : t :=
  mk (members r) v (obstacles r) (nextObstacleId r) (lastSpawnWorldY r)
     (furthestWorldY r) (roadWidth r) (gameSpeed r) (lastExpansionTime r)
     (createdAt r) (creatorId r) (raceState r) (raceStartTime r)
     (countdownStartTime r) (countdownValue r) (finishOrder r)
     (raceDistance r) (pausedAt r).
Definition set_obstacles v (r : t) : t :=
  mk (members r) (players r) v (nextObstacleId r) (lastSpawnWorldY r)
     (furthestWorldY r) (roadWidth r) (gameSpeed r) (lastExpansionTime r)
     (createdAt r) (creatorId r) (raceState r) (raceStartTime r)
     (countdownStartTime r) (countdownValue r) (finishOrder r)
     (raceDistance r) (pausedAt r).
Definition set_nextObstacleId v (r : t) : t :=
  mk (members r) (players r) (obstacles r) v (lastSpawnWorldY r)
     (furthestWorldY r) (roadWidth r) (gameSpeed r) (lastExpansionTime r)
     (createdAt r) (creatorId r) (raceState r) (raceStartTime r)
     (countdownStartTime r) (countdownValue r) (finishOrder r)
     (raceDistance r) (pausedAt r).
Definition set_lastSpawnWorldY v (r : t) : t :=
  mk (members r) (players r) (obstacles r) (nextObstacleId r) v
     (furthestWorldY r) (roadWidth r) (gameSpeed r) (lastExpansionTime r)
     (createdAt r) (creatorId r) (raceState r) (raceStartTime r)
     (countdownStartTime r) (countdownValue r) (finishOrder r)
     (raceDistance r) (pausedAt r).
Definition set_furthestWorldY v (r : t) : t :=
  mk (members r) (players r) (obstacles r) (nextObstacleId r)
     (lastSpawnWorldY r) v (roadWidth r) (gameSpeed r) (lastExpansionTime r)
     (createdAt r) (creatorId r) (raceState r) (raceStartTime r)
     (countdownStartTime r) (countdownValue r) (finishOrder r)
     (raceDistance r) (pausedAt r).
Definition set_roadWidth v (r : t) : t :=
  mk (members r) (players r) (obstacles r) (nextObstacleId r)
     (lastSpawnWorldY r) (furthestWorldY r) v (gameSpeed r)
     (lastExpansionTime r) (createdAt r) (creatorId r) (raceState r)
     (raceStartTime r) (countdownStartTime r) (countdownValue r)
     (finishOrder r) (raceDistance r) (pausedAt r).
Definition set_gameSpeed v (r : t) : t :=
  mk (members r) (players r) (obstacles r) (nextObstacleId r)
     (lastSpawnWorldY r) (furthestWorldY r) (roadWidth r) v
     (lastExpansionTime r) (createdAt r) (creatorId r) (raceState r)
     (raceStartTime r) (countdownStartTime r) (countdownValue r)
     (finishOrder r) (raceDistance r) (pausedAt r).
Definition set_lastExpansionTime v (r : t) : t :=
  mk (members r) (players r) (obstacles r) (nextObstacleId r)
     (lastSpawnWorldY r) (furthestWorldY r) (roadWidth r) (gameSpeed r) v
     (createdAt r) (creatorId r) (raceState r) (raceStartTime r)
     (countdownStartTime r) (countdownValue r) (finishOrder r)
     (raceDistance r) (pausedAt r).
Definition set_raceState v (r : t) : t :=
  mk (members r) (players r) (obstacles r) (nextObstacleId r)
     (lastSpawnWorldY r) (furthestWorldY r) (roadWidth r) (gameSpeed r)
     (lastExpansionTime r) (createdAt r) (creatorId r) v (raceStartTime r)
     (countdownStartTime r) (countdownValue r) (finishOrder r)
     (raceDistance r) (pausedAt r).
Definition set_raceStartTime v (r : t) : t :=
  mk (members r) (players r) (obstacles r) (nextObstacleId r)
     (lastSpawnWorldY r) (furthestWorldY r) (roadWidth r) (gameSpeed r)
     (lastExpansionTime r) (createdAt r) (creatorId r) (raceState r) v
     (countdownStartTime r) (countdownValue r) (finishOrder r)
     (raceDistance r) (pausedAt r).
Definition set_countdownStartTime v (r : t) : t :=
  mk (members r) (players r) (obstacles r) (nextObstacleId r)
     (lastSpawnWorldY r) (furthestWorldY r) (roadWidth r) (gameSpeed r)
     (lastExpansionTime r) (createdAt r) (creatorId r) (raceState r)
     (raceStartTime r) v (countdownValue r) (finishOrder r)
     (raceDistance r) (pausedAt r).
Definition set_countdownValue v (r : t) : t :=
  mk (members r) (players r) (obstacles r) (nextObstacleId r)
     (lastSpawnWorldY r) (furthestWorldY r) (roadWidth r) (gameSpeed r)
     (lastExpansionTime r) (createdAt r) (creatorId r) (raceState r)
     (raceStartTime r) (countdownStartTime r) v (finishOrder r)
     (raceDistance r) (pausedAt r).
Definition set_finishOrder v (r : t) : t :=
  mk (members r) (players r) (obstacles r) (nextObstacleId r)
     (lastSpawnWorldY r) (furthestWorldY r) (roadWidth r) (gameSpeed r)
     (lastExpansionTime r) (createdAt r) (creatorId r) (raceState r)
     (raceStartTime r) (countdownStartTime r) (countdownValue r) v
     (raceDistance r) (pausedAt r).
Definition set_raceDistance v (r : t) : t :=
  mk (members r) (players r) (obstacles r) (nextObstacleId r)
     (lastSpawnWorldY r) (furthestWorldY r) (roadWidth r) (gameSpeed r)
     (lastExpansionTime r) (createdAt r) (creatorId r) (raceState r)
     (raceStartTime r) (countdownStartTime r) (countdownValue r)
     (finishOrder r) v (pausedAt r).
Definition set_pausedAt v (r : t) : t :=
  mk (members r) (players r) (obstacles r) (nextObstacleId r)
     (lastSpawnWorldY r) (furthestWorldY r) (roadWidth r) (gameSpeed r)
     (lastExpansionTime r) (createdAt r) (creatorId r) (raceState r)
     (raceStartTime r) (countdownStartTime r) (countdownValue r)
     (finishOrder r) (raceDistance r) v.
End Room.

Module Socket.
Record t := mk { roomCode : string; userName : string }.
End Socket.

(** The server's mutable state: the [rooms] table and the attributes the
    listeners store on each connected socket. *)
Record World := mkWorld {
  rooms : list (string * Room.t);
  socks : gmap string Socket.t
}.

(** ** Outbound events *)

Inductive Target :=
| ToSocket (sid : string)                    (* socket.emit *)
| ToRoom (code : string)                     (* io.to(code).emit *)
| ToRoomExcept (code : string) (sid : string). (* socket.to(code).emit *)

Module Standing.
Record t := mk {
  name : string; distance : Q; finished : bool; position : option nat
}.
End Standing.

Module Result.
Record t := mk { position : nat; name : string; time : option Z }.
End Result.

Module GameState.
Record t := mk {
  players : list (string * Player.t);
  obstacles : list Obstacle.t;
  leaderboard : list Standing.t;
  roadWidth : Q;
  gameSpeed : Q;
  raceState : RaceState;
  raceDistance : Z;
  raceTime : Z
}.
End GameState.

Inductive OutEvent :=
| EvError (msg : string)
| EvJoined (roomCode name : string) (members : list Member.t)
    (playerId playerColor : string) (isCreator : bool) (spawnWorldY : Z)
    (raceState : RaceState) (raceDistance : Z) (canStart : bool)
    (minPlayers playerCount : nat)
| EvUserJoined (name : string) (members : list Member.t)
    (playerCount : nat) (canStart : bool)
| EvRaceDistanceChanged (distance : Z)
| EvRaceCountdown (countdown : Z) (message : string)
| EvRaceStarted (raceDistance : Z) (startTime : option Z)
| EvRacePaused (message : string)
| EvRaceResumed (message : string)
| EvPlayerFinished (name : string) (position : option nat) (time : option Z)
| EvRaceFinished (results : list Result.t)
| EvGameRestarted (message : string) (raceState : RaceState)
    (canStart : bool) (playerCount : nat)
| EvUserLeft (name : string) (members : list Member.t)
| EvGameState (snapshot : GameState.t).

Record Emit := mkEmit { target : Target; event : OutEvent }.

(** [null] read as a number. *)
Definition num (o : option Z) : Z := default 0 o.

(** ** Small JavaScript helpers *)

(** [!!s] for a string. *)
Definition truthy_str (s : string) : bool := negb (String.eqb s "").

(** [a < b] on numbers. *)
Definition Qltb (a b : Q) : bool := negb (Qle_bool b a).

(** [v || 0] for a number. *)
Definition or_zero (v : Q) : Q := if Qeq_bool v 0 then 0%Q else v.

Inductive Outcome :=
| Done (w : World) (out : list Emit)
| Threw (w : World) (out : list Emit).   (* an uncaught TypeError *)

Definition outcome_world (o : Outcome) : World :=
  match o with Done w _ | Threw w _ => w end.

Definition outcome_emits (o : Outcome) : list Emit :=
  match o with Done _ out | Threw _ out => out end.

(** [const roomCode = socket.roomCode;
     if (!roomCode || !rooms[roomCode]) return;]
    [socket.roomCode] is only ever assigned a non-empty string, and as
    long as no listener has thrown it is never a name that only
    [Object.prototype] knows ([reachable_socket_codes] below), so
    [rooms[roomCode]] is the room stored under the code or [undefined]. *)
Definition socket_room (sid : string) (w : World) : option (string * Room.t) :=
  match socks w !! sid with
  | None => None
  | Some s =>
      match Obj.get (Socket.roomCode s) (rooms w) with
      | None => None
      | Some room => Some (Socket.roomCode s, room)
      end
  end.

(** The room object is mutated in place: the table entry is rewritten. *)
Definition put_room (code : string) (room : Room.t) (w : World) : World :=
  mkWorld (Obj.set code room (rooms w)) (socks w).

Definition is_creator (sid : string) (room : Room.t) : bool :=
  String.eqb (Room.creatorId room) sid.

Definition error_to (sid : string) (msg : string) : Emit :=
  mkEmit (ToSocket sid) (EvError msg).

(** ** join-room *)

Definition new_room (now : Z) (sid : string) : Room.t :=
  Room.mk [] [] [] 0 0 0 BASE_ROAD_WIDTH BASE_GAME_SPEED now now sid
          WAITING None None 0 [] DEFAULT_RACE_DISTANCE None.

(** Starting grid: two cars per row, rows 60 px apart. *)
Definition gridRow (playerIndex : nat) : nat := (playerIndex / 2)%nat.
Definition gridCol (playerIndex : nat) : nat := (playerIndex mod 2)%nat.
Definition startX (playerIndex : nat) : Q :=
  if (gridCol playerIndex =? 0)%nat then 0.35%Q else 0.65%Q.
Definition startWorldY (playerIndex : nat) : Q :=
  (inject_Z (Z.of_nat (gridRow playerIndex)) * 60)%Q.

Definition new_player (name : string) (playerIndex : nat) : Player.t :=
  Player.mk name (startX playerIndex) (startX playerIndex)
            (startWorldY playerIndex) (startWorldY playerIndex) 0
            (getPlayerColor playerIndex) false 0 false None None
            (playerIndex + 1).

Definition race_in_progress (room : Room.t) : bool :=
  bool_decide (Room.raceState room = RACING)
  || bool_decide (Room.raceState room = COUNTDOWN)
  || bool_decide (Room.raceState room = PAUSED).

(** The room once the sender is a member with a player on the grid. *)
Definition joined_room (sid name : string) (room : Room.t) : Room.t :=
  let members' := Room.members room ++ [Member.mk sid name] in
  let playerIndex := (length members' - 1)%nat in
  Room.set_players
    (Obj.set sid (new_player name playerIndex) (Room.players room))
    (Room.set_members members' room).

(** [rooms[roomCode]] finds the room stored under the code or, when
    there is none, whatever [Object.prototype] has under that name.  In
    the latter case [isNewRoom] is false and no room is created; the
    value found has no [raceState], so the guard against late joiners
    lets it pass, and no [members], so [.members.push] throws. *)
Definition on_join_room (now : Z) (sid roomCode name : string) (w : World)
  : Outcome :=
  if negb (truthy_str roomCode) || negb (truthy_str name) then
    Done w [error_to sid "Room code and name are required"]
  else
    let socks' := <[sid := Socket.mk roomCode name]> (socks w) in
    let isNewRoom :=
      match Obj.get roomCode (rooms w) with
      | None => negb (inherited roomCode)
      | Some _ => false
      end in
    let rooms1 :=
      if isNewRoom then Obj.add roomCode (new_room now sid) (rooms w)
      else rooms w in
    match Obj.get roomCode rooms1 with
    | None => Threw (mkWorld rooms1 socks') []   (* the inherited value *)
    | Some room =>
        if race_in_progress room then
          Done (mkWorld rooms1 socks')
            [error_to sid "Race already in progress. Wait for it to finish."]
        else
          let room' := joined_room sid name room in
          let playerIndex := (length (Room.members room') - 1)%nat in
          let playerCount := length (Obj.keys (Room.players room')) in
          let canStart := (MIN_PLAYERS_TO_START <=? playerCount)%nat in
          Done (mkWorld (Obj.set roomCode room' rooms1) socks')
            [mkEmit (ToSocket sid)
               (EvJoined roomCode name (Room.members room') sid
                  (getPlayerColor playerIndex)
                  (is_creator sid room') 0 (Room.raceState room')
                  (Room.raceDistance room') canStart MIN_PLAYERS_TO_START
                  playerCount);
             mkEmit (ToRoomExcept roomCode sid)
               (EvUserJoined name (Room.members room') playerCount canStart)]
    end.

(** What an accepted join announces, [room'] being the room with the
    sender in it: [joined] to the sender, [user-joined] to the others. *)
Definition joined_emits (sid roomCode name : string) (room' : Room.t)
  : list Emit :=
  let playerIndex := (length (Room.members room') - 1)%nat in
  let playerCount := length (Obj.keys (Room.players room')) in
  let canStart := (MIN_PLAYERS_TO_START <=? playerCount)%nat in
  [mkEmit (ToSocket sid)
     (EvJoined roomCode name (Room.members room') sid
        (getPlayerColor playerIndex)
        (is_creator sid room') 0 (Room.raceState room')
        (Room.raceDistance room') canStart MIN_PLAYERS_TO_START
        playerCount);
   mkEmit (ToRoomExcept roomCode sid)
     (EvUserJoined name (Room.members room') playerCount canStart)].

(** ** set-race-distance

    [parsed] is [parseInt(data.distance)], [None] standing for NaN. *)

Definition clamp_distance (parsed : option Z) : Z :=
  let distance :=
    match parsed with
    | Some d => if d =? 0 then DEFAULT_RACE_DISTANCE else d
    | None => DEFAULT_RACE_DISTANCE
    end in
  Z.max 100 (Z.min 10000 distance).

Definition on_set_race_distance (sid : string) (parsed : option Z) (w : World)
  : World * list Emit :=
  match socket_room sid w with
  | None => (w, [])
  | Some (roomCode, room) =>
      if negb (is_creator sid room) then
        (w, [error_to sid "Only the room creator can set race distance"])
      else if negb (bool_decide (Room.raceState room = WAITING)) then
        (w, [error_to sid "Can only set distance before race starts"])
      else
        let room' := Room.set_raceDistance (clamp_distance parsed) room in
        (put_room roomCode room' w,
         [mkEmit (ToRoom roomCode)
            (EvRaceDistanceChanged (Room.raceDistance room'))])
  end.

(** ** start-race *)

Definition countdown_room (now : Z) (room : Room.t) : Room.t :=
  Room.set_countdownValue COUNTDOWN_SECONDS
    (Room.set_countdownStartTime (Some now)
       (Room.set_raceState COUNTDOWN room)).

Definition on_start_race (now : Z) (sid : string) (w : World)
  : World * list Emit :=
  match socket_room sid w with
  | None => (w, [])
  | Some (roomCode, room) =>
      if negb (is_creator sid room) then
        (w, [error_to sid "Only the room creator can start the race"])
      else
        let playerCount := length (Obj.keys (Room.players room)) in
        if (playerCount <? MIN_PLAYERS_TO_START)%nat then
          (w, [error_to sid "Need at least 2 players to start"])
        else if negb (bool_decide (Room.raceState room = WAITING)) then
          (w, [error_to sid "Race already started"])
        else
          (put_room roomCode (countdown_room now room) w,
           [mkEmit (ToRoom roomCode)
              (EvRaceCountdown COUNTDOWN_SECONDS "Race starting!")])
  end.

(** ** toggle-pause *)

Definition paused_room (now : Z) (room : Room.t) : Room.t :=
  Room.set_pausedAt (Some now) (Room.set_raceState PAUSED room).

Definition resumed_room (now : Z) (room : Room.t) : Room.t :=
  let pauseDuration := now - num (Room.pausedAt room) in
  Room.set_pausedAt None
    (Room.set_raceState RACING
       (Room.set_raceStartTime
          (Some (num (Room.raceStartTime room) + pauseDuration)) room)).

Definition on_toggle_pause (now : Z) (sid : string) (w : World)
  : World * list Emit :=
  match socket_room sid w with
  | None => (w, [])
  | Some (roomCode, room) =>
      if negb (is_creator sid room) then
        (w, [error_to sid "Only the room creator can pause the race"])
      else if bool_decide (Room.raceState room = RACING) then
        (put_room roomCode (paused_room now room) w,
         [mkEmit (ToRoom roomCode) (EvRacePaused "Race paused by host")])
      else if bool_decide (Room.raceState room = PAUSED) then
        (put_room roomCode (resumed_room now room) w,
         [mkEmit (ToRoom roomCode) (EvRaceResumed "Race resumed!")])
      else (w, [])
  end.

(** ** player-update *)

Module Update.
(** The payload; [worldY = None] is [data.worldY === undefined]. *)
Record t := mk { x : Q; worldY : option Q; distance : Q; stunned : bool }.
End Update.

Definition apply_update (data : Update.t) (p : Player.t) : Player.t :=
  Player.mk (Player.name p) (Update.x data) (Player.startX p)
            (default (Player.worldY p) (Update.worldY data))
            (Player.startWorldY p) (Update.distance data) (Player.color p)
            (Update.stunned data || false) (Player.stunnedUntil p)
            (Player.finished p) (Player.finishTime p) (Player.position p)
            (Player.gridPosition p).

Definition mark_finished (time : Z) (pos : nat) (p : Player.t) : Player.t :=
  Player.mk (Player.name p) (Player.x p) (Player.startX p) (Player.worldY p)
            (Player.startWorldY p) (Player.distance p) (Player.color p)
            (Player.stunned p) (Player.stunnedUntil p)
            true (Some time) (Some pos) (Player.gridPosition p).

(** [room.finishOrder.map((id, index) => ({position: index + 1,
      name: room.players[id].name, time: room.players[id].finishTime}))];
    reading [.name] of a missing player throws. *)
Fixpoint race_results (players : list (string * Player.t)) (index : nat)
    (order : list string) : option (list Result.t) :=
  match order with
  | [] => Some []
  | id :: order' =>
      match Obj.get id players with
      | None => None
      | Some p =>
          match race_results players (S index) order' with
          | None => None
          | Some rest =>
              Some (Result.mk (index + 1) (Player.name p) (Player.finishTime p)
                      :: rest)
          end
      end
  end.

(** [room.players[socket.id]] after its fields were assigned. *)
Definition moved_room (sid : string) (player1 : Player.t) (room : Room.t)
  : Room.t :=
  Room.set_players (Obj.set sid player1 (Room.players room)) room.

(** The sender crosses the line: finished, timed, ranked by the length of
    [finishOrder] once its id is pushed. *)
Definition finishing_player (now : Z) (sid : string) (player1 : Player.t)
    (room : Room.t) : Player.t :=
  mark_finished (now - num (Room.raceStartTime room))
                (length (Room.finishOrder room ++ [sid])) player1.

Definition finished_room (sid : string) (player2 : Player.t) (room : Room.t)
  : Room.t :=
  Room.set_finishOrder (Room.finishOrder room ++ [sid])
    (moved_room sid player2 room).

(** [player.distance >= room.raceDistance && !player.finished] *)
Definition crosses_line (room : Room.t) (player1 : Player.t) : bool :=
  Qle_bool (inject_Z (Room.raceDistance room)) (Player.distance player1)
  && negb (Player.finished player1).

Definition on_player_update (now : Z) (sid : string) (data : Update.t)
    (w : World) : Outcome :=
  match socket_room sid w with
  | None => Done w []
  | Some (roomCode, room) =>
      match Obj.get sid (Room.players room) with
      | None => Done w []
      | Some player =>
          if bool_decide (Room.raceState room = RACING)
             && negb (Player.finished player) then
            let player1 := apply_update data player in
            if crosses_line room player1 then
              let player2 := finishing_player now sid player1 room in
              let room1 := finished_room sid player2 room in
              let finished_ev :=
                mkEmit (ToRoom roomCode)
                  (EvPlayerFinished (Player.name player2)
                     (Player.position player2) (Player.finishTime player2)) in
              if forallb Player.finished (Obj.values (Room.players room1)) then
                let room2 := Room.set_raceState FINISHED room1 in
                match race_results (Room.players room2) 0
                        (Room.finishOrder room2) with
                | Some results =>
                    Done (put_room roomCode room2 w)
                         [finished_ev;
                          mkEmit (ToRoom roomCode) (EvRaceFinished results)]
                | None => Threw (put_room roomCode room2 w) [finished_ev]
                end
              else Done (put_room roomCode room1 w) [finished_ev]
            else Done (put_room roomCode (moved_room sid player1 room) w) []
          else Done w []
      end
  end.

(** ** restart-game *)

Definition reset_player (playerIndex : nat) (p : Player.t) : Player.t :=
  Player.mk (Player.name p) (startX playerIndex) (startX playerIndex)
            (startWorldY playerIndex) (startWorldY playerIndex) 0
            (Player.color p) false 0 false None None (playerIndex + 1).

(** [for (const playerId in room.players) { ...; playerIndex++ }] *)
Fixpoint reset_players (playerIndex : nat) (ps : list (string * Player.t))
  : list (string * Player.t) :=
  match ps with
  | [] => []
  | (playerId, p) :: ps' =>
      (playerId, reset_player playerIndex p) :: reset_players (S playerIndex) ps'
  end.

Definition restart_room (now : Z) (room : Room.t) : Room.t :=
  Room.mk (Room.members room) (reset_players 0 (Room.players room))
          [] 0 0 0 BASE_ROAD_WIDTH BASE_GAME_SPEED now
          (Room.createdAt room) (Room.creatorId room)
          WAITING None None 0 [] (Room.raceDistance room) (Room.pausedAt room).

Definition on_restart_game (now : Z) (sid : string) (w : World)
  : World * list Emit :=
  match socket_room sid w with
  | None => (w, [])
  | Some (roomCode, room) =>
      if negb (is_creator sid room) then
        (w, [error_to sid "Only the room creator can restart the game"])
      else
        let room' := restart_room now room in
        let playerCount := length (Obj.keys (Room.players room')) in
        let canStart := (MIN_PLAYERS_TO_START <=? playerCount)%nat in
        (put_room roomCode room' w,
         [mkEmit (ToRoom roomCode)
            (EvGameRestarted "Game restarted by host!" (Room.raceState room')
               canStart playerCount)])
  end.

(** ** collision *)

Definition stun (now : Z) (p : Player.t) : Player.t :=
  Player.mk (Player.name p) (Player.x p) (Player.startX p) (Player.worldY p)
            (Player.startWorldY p) (Player.distance p) (Player.color p)
            true (now + 2000)
            (Player.finished p) (Player.finishTime p) (Player.position p)
            (Player.gridPosition p).

Definition on_collision (now : Z) (sid : string) (w : World)
  : World * list Emit :=
  match socket_room sid w with
  | None => (w, [])
  | Some (roomCode, room) =>
      match Obj.get sid (Room.players room) with
      | None => (w, [])
      | Some player =>
          (put_room roomCode (moved_room sid (stun now player) room) w, [])
      end
  end.

(** ** disconnect

    The socket object is gone afterwards, so its attributes are dropped. *)

Definition left_room (sid : string) (room : Room.t) : Room.t :=
  Room.set_players (Obj.del sid (Room.players room))
    (Room.set_members
       (List.filter (fun user => negb (String.eqb (Member.id user) sid))
                    (Room.members room))
       room).

Definition on_disconnect (sid : string) (w : World) : World * list Emit :=
  match socks w !! sid with
  | None => (w, [])
  | Some s =>
      let socks' := delete sid (socks w) in
      match Obj.get (Socket.roomCode s) (rooms w) with
      | None => (mkWorld (rooms w) socks', [])
      | Some room =>
          let room' := left_room sid room in
          let left :=
            mkEmit (ToRoom (Socket.roomCode s))
                   (EvUserLeft (Socket.userName s) (Room.members room')) in
          if (length (Room.members room') =? 0)%nat then
            (mkWorld (Obj.del (Socket.roomCode s) (rooms w)) socks', [left])
          else
            (mkWorld (Obj.set (Socket.roomCode s) room' (rooms w)) socks',
             [left])
      end
  end.

(** ** The broadcast loop *)

(** Countdown: announce a changed value, start the race when it is over. *)
Definition tick_countdown (now : Z) (roomCode : string) (room : Room.t)
  : Room.t * list Emit :=
  if bool_decide (Room.raceState room = COUNTDOWN) then
    let elapsed := now - num (Room.countdownStartTime room) in
    let newCountdown := COUNTDOWN_SECONDS - elapsed / 1000 in
    let '(room1, out1) :=
      if negb (newCountdown =? Room.countdownValue room) && (0 <=? newCountdown)
      then (Room.set_countdownValue newCountdown room,
            [mkEmit (ToRoom roomCode)
               (EvRaceCountdown newCountdown
                  (if 0 <? newCountdown then pretty newCountdown else "GO!"))])
      else (room, []) in
    if COUNTDOWN_SECONDS * 1000 <=? elapsed then
      let room2 :=
        Room.set_gameSpeed BASE_GAME_SPEED
          (Room.set_raceStartTime (Some now)
             (Room.set_raceState RACING room1)) in
      (room2,
       out1 ++ [mkEmit (ToRoom roomCode)
                  (EvRaceStarted (Room.raceDistance room2)
                     (Room.raceStartTime room2))])
    else (room1, out1)
  else (room, []).

Definition expire_stun (now : Z) (p : Player.t) : Player.t :=
  if Player.stunned p && (Player.stunnedUntil p <=? now) then
    Player.mk (Player.name p) (Player.x p) (Player.startX p) (Player.worldY p)
              (Player.startWorldY p) (Player.distance p) (Player.color p)
              false (Player.stunnedUntil p)
              (Player.finished p) (Player.finishTime p) (Player.position p)
              (Player.gridPosition p)
  else p.

Definition update_stuns (now : Z) (room : Room.t) : Room.t :=
  Room.set_players
    (map (fun kv => (fst kv, expire_stun now (snd kv))) (Room.players room))
    room.

Definition ramp_speed (room : Room.t) : Room.t :=
  if Qltb (Room.gameSpeed room) MAX_GAME_SPEED then
    Room.set_gameSpeed
      (Qmin (Room.gameSpeed room + SPEED_INCREMENT_PER_TICK) MAX_GAME_SPEED)
      room
  else room.

Definition expand_road (now : Z) (room : Room.t) : Room.t :=
  if ROAD_EXPANSION_INTERVAL <=? now - Room.lastExpansionTime room then
    let room1 := Room.set_lastExpansionTime now room in
    let newWidth := (Room.roadWidth room1 * ROAD_EXPANSION_RATE)%Q in
    Room.set_roadWidth (Qmin newWidth MAX_ROAD_WIDTH) room1
  else room.

(** Stun expiry and the difficulty controller, while racing. *)
Definition tick_racing (now : Z) (room : Room.t) : Room.t :=
  if bool_decide (Room.raceState room = RACING) then
    expand_road now (ramp_speed (update_stuns now room))
  else room.

(** Leader and trailer coordinates: [(minWorldY, maxWorldY, hasPlayers)]. *)
Definition bounds_step (acc : Q * Q * bool) (p : Player.t) : Q * Q * bool :=
  let '(minWorldY, maxWorldY, hasPlayers) := acc in
  let wy := or_zero (Player.worldY p) in
  if negb hasPlayers then (wy, wy, true)
  else (if Qltb wy minWorldY then wy else minWorldY,
        if Qltb maxWorldY wy then wy else maxWorldY,
        true).

Definition world_bounds (players : list (string * Player.t)) : Q * Q * bool :=
  fold_left bounds_step (Obj.values players) (0%Q, 0%Q, false).

Definition spawnAheadPixels : Q := SPAWN_AHEAD_DISTANCE * PIXELS_PER_METER.
Definition spawnIntervalPixels : Q := OBSTACLE_SPAWN_INTERVAL * PIXELS_PER_METER.
Definition despawnBufferPixels : Q :=
  OBSTACLE_DESPAWN_DISTANCE * PIXELS_PER_METER.

(** Lateral position of a new obstacle from two draws. *)
Definition obstacleX (zoneRoll u : Q) : Q :=
  if Qltb zoneRoll 0.25 then (u * 0.23 + 0.02)%Q
  else if Qltb zoneRoll 0.5 then (u * 0.23 + 0.75)%Q
  else (u * 0.5 + 0.25)%Q.

(** One pass through the body of the spawning [while]. *)
Definition spawn_one (rnd : nat -> Q) (k : nat) (room : Room.t) : Room.t :=
  let room1 :=
    Room.set_lastSpawnWorldY
      (Room.lastSpawnWorldY room - spawnIntervalPixels)%Q room in
  let newObstacle :=
    Obstacle.mk (Room.nextObstacleId room1)
                (obstacleX (rnd k) (rnd (S k)))
                (Room.lastSpawnWorldY room1)
                (Qabs (Room.lastSpawnWorldY room1) / PIXELS_PER_METER)%Q in
  Room.set_obstacles (Room.obstacles room1 ++ [newObstacle])
    (Room.set_nextObstacleId (S (Room.nextObstacleId room1)) room1).

(** [while (room.lastSpawnWorldY > spawnThreshold) { ... }], unrolled at
    most [fuel] times; [k] counts the random draws. *)
Fixpoint spawn_loop (fuel : nat) (rnd : nat -> Q) (spawnThreshold : Q)
    (k : nat) (room : Room.t) : Room.t * nat :=
  match fuel with
  | O => (room, k)
  | S fuel' =>
      if Qltb spawnThreshold (Room.lastSpawnWorldY room) then
        spawn_loop fuel' rnd spawnThreshold (S (S k)) (spawn_one rnd k room)
      else (room, k)
  end.

(** Number of passes that is always enough: the cursor moves by a whole
    interval (more than one unit) each time. *)
Definition spawn_fuel (spawnThreshold : Q) (room : Room.t) : nat :=
  Z.to_nat (Qceiling (Room.lastSpawnWorldY room - spawnThreshold)).

Definition despawn (maxWorldY : Q) (room : Room.t) : Room.t :=
  Room.set_obstacles
    (List.filter
       (fun obs => Qltb (Obstacle.worldY obs) (maxWorldY + despawnBufferPixels))
       (Room.obstacles room))
    room.

(** The obstacle window, run only while racing. *)
Definition tick_obstacles (rnd : nat -> Q) (k : nat) (room : Room.t)
  : Room.t * nat :=
  let '(minWorldY, maxWorldY, hasPlayers) := world_bounds (Room.players room) in
  if bool_decide (Room.raceState room = RACING) then
    let room1 :=
      if Qeq_bool (Room.lastSpawnWorldY room) 0 && hasPlayers then
        Room.set_lastSpawnWorldY (minWorldY - spawnIntervalPixels)%Q room
      else room in
    let spawnThreshold := (minWorldY - spawnAheadPixels)%Q in
    let '(room2, k') :=
      spawn_loop (spawn_fuel spawnThreshold room1) rnd spawnThreshold k room1 in
    (despawn maxWorldY room2, k')
  else (room, k).

(** Leaderboard: finished players by position, then the others by
    distance, best five.  [Array.prototype.sort] is stable. *)
Definition standing (p : Player.t) : Standing.t :=
  Standing.mk (Player.name p) (Player.distance p) (Player.finished p)
              (Player.position p).

Definition pos_num (o : option nat) : Q :=
  match o with Some n => inject_Z (Z.of_nat n) | None => 0%Q end.

Definition compare_standing (a b : Standing.t) : Q :=
  if Standing.finished a && negb (Standing.finished b) then (-1)%Q
  else if negb (Standing.finished a) && Standing.finished b then 1%Q
  else if Standing.finished a && Standing.finished b then
    (pos_num (Standing.position a) - pos_num (Standing.position b))%Q
  else (Standing.distance b - Standing.distance a)%Q.

Fixpoint insert_standing (a : Standing.t) (l : list Standing.t)
  : list Standing.t :=
  match l with
  | [] => [a]
  | b :: l' =>
      if Qle_bool (compare_standing a b) 0 then a :: b :: l'
      else b :: insert_standing a l'
  end.

Definition sort_standings (l : list Standing.t) : list Standing.t :=
  fold_right insert_standing [] l.

Definition leaderboard (room : Room.t) : list Standing.t :=
  firstn 5 (sort_standings (map standing (Obj.values (Room.players room)))).

(** [room.raceStartTime ? now - room.raceStartTime : 0] *)
Definition raceTime (now : Z) (room : Room.t) : Z :=
  match Room.raceStartTime room with
  | Some t => if t =? 0 then 0 else now - t
  | None => 0
  end.

Definition snapshot (now : Z) (room : Room.t) : GameState.t :=
  GameState.mk (Room.players room) (Room.obstacles room) (leaderboard room)
               (Room.roadWidth room)
               (if bool_decide (Room.raceState room = RACING)
                then Room.gameSpeed room else 0%Q)
               (Room.raceState room) (Room.raceDistance room)
               (raceTime now room).

(** One room's share of a tick. *)
Definition tick_room (now : Z) (rnd : nat -> Q) (k : nat) (roomCode : string)
    (room : Room.t) : Room.t * list Emit * nat :=
  if (0 <? length (Room.members room))%nat then
    let '(room1, out1) := tick_countdown now roomCode room in
    let room2 := tick_racing now room1 in
    let '(room3, k') := tick_obstacles rnd k room2 in
    (room3,
     out1 ++ [mkEmit (ToRoom roomCode) (EvGameState (snapshot now room3))],
     k')
  else (room, [], k).

(** [for (const roomCode in rooms) { ... }] *)
Fixpoint tick_rooms (now : Z) (rnd : nat -> Q) (k : nat)
    (rs : list (string * Room.t))
  : list (string * Room.t) * list Emit * nat :=
  match rs with
  | [] => ([], [], k)
  | (roomCode, room) :: rs' =>
      let '(room', out, k1) := tick_room now rnd k roomCode room in
      let '(rs'', out', k2) := tick_rooms now rnd k1 rs' in
      ((roomCode, room') :: rs'', out ++ out', k2)
  end.

Definition on_tick (now : Z) (rnd : nat -> Q) (w : World) : World * list Emit :=
  let '(rs, out, _) := tick_rooms now rnd 0%nat (rooms w) in
  (mkWorld rs (socks w), out).

(** ** The server as a transition system *)

Inductive Input :=
| JoinRoom (sid roomCode name : string)
| SetRaceDistance (sid : string) (parsed : option Z)
| StartRace (sid : string)
| TogglePause (sid : string)
| PlayerUpdate (sid : string) (data : Update.t)
| RestartGame (sid : string)
| Collision (sid : string)
| Disconnect (sid : string)
| Tick (rnd : nat -> Q).

Definition done (r : World * list Emit) : Outcome := Done (fst r) (snd r).

(** One listener (or the interval callback) run at time [now]. *)
Definition handle (now : Z) (i : Input) (w : World) : Outcome :=
  match i with
  | JoinRoom sid roomCode name => on_join_room now sid roomCode name w
  | SetRaceDistance sid parsed => done (on_set_race_distance sid parsed w)
  | StartRace sid => done (on_start_race now sid w)
  | TogglePause sid => done (on_toggle_pause now sid w)
  | PlayerUpdate sid data => on_player_update now sid data w
  | RestartGame sid => done (on_restart_game now sid w)
  | Collision sid => done (on_collision now sid w)
  | Disconnect sid => done (on_disconnect sid w)
  | Tick rnd => done (on_tick now rnd w)
  end.

(** A timed sequence of inputs; an uncaught exception ends the run. *)
Fixpoint run (evs : list (Z * Input)) (w : World) : Outcome :=
  match evs with
  | [] => Done w []
  | (now, i) :: evs' =>
      match handle now i w with
      | Done w' out =>
          match run evs' w' with
          | Done w'' out' => Done w'' (out ++ out')
          | Threw w'' out' => Threw w'' (out ++ out')
          end
      | Threw w' out => Threw w' out
      end
  end.

Definition empty_world : World := mkWorld [] ∅.

(** Worlds the server can be in: it starts empty and handles inputs. *)
Inductive reachable : World -> Prop :=
| reachable_start : reachable empty_world
| reachable_step w now i w' out :
    reachable w -> handle now i w = Done w' out -> reachable w'.

(** [room] is the room stored under [roomCode]. *)
Definition room_at (roomCode : string) (w : World) : option Room.t :=
  Obj.get roomCode (rooms w).

(** ** Example worlds, built by running the server *)

Module Examples.
Definition draws : nat -> Q := fun _ => 0.3%Q.

Definition report (worldY distance : Q) : Update.t :=
  Update.mk 0.5 (Some worldY) distance false.

(** Ann creates room ABCD, Bob joins. *)
Definition lobby_inputs : list (Z * Input) :=
  [(1000, JoinRoom "a" "ABCD" "Ann"); (1001, JoinRoom "b" "ABCD" "Bob")].

(** ... Ann starts the race and the countdown runs out. *)
Definition racing_inputs : list (Z * Input) :=
  lobby_inputs ++ [(1003, StartRace "a"); (4003, Tick draws)].

(** ... both cross the 1000 m line at worldY -2000. *)
Definition finish_reports : list (Z * Input) :=
  [(9000, PlayerUpdate "a" (report (-2000) 1000));
   (9500, PlayerUpdate "b" (report (-2000) 1000))].

Definition finished_inputs : list (Z * Input) :=
  racing_inputs ++ finish_reports.

Definition after (now : Z) (i : Input) (w : World) : World :=
  outcome_world (handle now i w).

Definition lobby : World := outcome_world (run lobby_inputs empty_world).
Definition racing : World := outcome_world (run racing_inputs empty_world).
Definition finished : World := outcome_world (run finished_inputs empty_world).

(** A stretch of the race: ticks, reports, a pause and a resume. *)
Definition race_inputs : list (Z * Input) :=
  [(4036, Tick draws); (4050, PlayerUpdate "a" (report (-30) 15));
   (4070, Tick draws); (5000, TogglePause "a"); (5033, Tick draws);
   (9000, TogglePause "a"); (9033, Tick draws)].

(** The lobby once Ann has started the countdown. *)
Definition countdown : World := after 1003 (StartRace "a") lobby.

(** From the racing room: both players report a worldY of 1000, behind the
    start line, and the next tick runs. *)
Definition backward_inputs : list (Z * Input) :=
  [(4500, PlayerUpdate "a" (report 1000 10));
   (4600, PlayerUpdate "b" (report 1000 10));
   (4633, Tick draws)].

Definition moved_back : World := outcome_world (run backward_inputs racing).

(** Ann pauses the race at 14003; this is what is handled before she
    resumes. *)
Definition paused : World := after 14003 (TogglePause "a") racing.

Definition pause_inputs : list (Z * Input) :=
  [(15000, Tick draws); (16000, Collision "b");
   (16500, PlayerUpdate "b" (report (-50) 25)); (17000, Tick draws)].

(** From the start of the race at 4003 the ticks come 33 ms apart; Ann
    pauses 30 ms after the tick at 4069 and resumes 30 ms before the tick
    at 4201. *)
Definition tight_pause_inputs : list (Z * Input) :=
  [(4036, Tick draws); (4069, Tick draws); (4099, TogglePause "a");
   (4102, Tick draws); (4135, Tick draws); (4168, Tick draws);
   (4171, TogglePause "a"); (4201, Tick draws)].

(** ... and Cyd joins the finished room. *)
Definition late_join : World := after 10000 (JoinRoom "c" "ABCD" "Cyd") finished.

(** The room stored under ABCD ([new_room] only fills the absent case). *)
Definition the_room (w : World) : Room.t :=
  default (new_room 0 "") (room_at "ABCD" w).

(** The player of socket [sid] in that room. *)
Definition the_player (sid : string) (w : World) : option Player.t :=
  Obj.get sid (Room.players (the_room w)).
End Examples.

(** ** Vocabulary of the statements *)

(** The four commands reserved to the room's creator, sent by [sid]. *)
Definition host_command (sid : string) (i : Input) : bool :=
  match i with
  | StartRace s | TogglePause s | RestartGame s | SetRaceDistance s _ =>
      String.eqb s sid
  | _ => false
  end.

(** What the obstacle window leaves alone: everything but [obstacles],
    [nextObstacleId] and [lastSpawnWorldY]. *)
Definition obstacle_frame (r r' : Room.t) : Prop :=
  Room.members r' = Room.members r
  /\ Room.players r' = Room.players r
  /\ Room.furthestWorldY r' = Room.furthestWorldY r
  /\ Room.roadWidth r' = Room.roadWidth r
  /\ Room.gameSpeed r' = Room.gameSpeed r
  /\ Room.lastExpansionTime r' = Room.lastExpansionTime r
  /\ Room.createdAt r' = Room.createdAt r
  /\ Room.creatorId r' = Room.creatorId r
  /\ Room.raceState r' = Room.raceState r
  /\ Room.raceStartTime r' = Room.raceStartTime r
  /\ Room.countdownStartTime r' = Room.countdownStartTime r
  /\ Room.countdownValue r' = Room.countdownValue r
  /\ Room.finishOrder r' = Room.finishOrder r
  /\ Room.raceDistance r' = Room.raceDistance r
  /\ Room.pausedAt r' = Room.pausedAt r.

(** What stun expiry and the difficulty controller leave alone. *)
Definition racing_frame (r r' : Room.t) : Prop :=
  Room.members r' = Room.members r
  /\ Obj.keys (Room.players r') = Obj.keys (Room.players r)
  /\ Room.obstacles r' = Room.obstacles r
  /\ Room.nextObstacleId r' = Room.nextObstacleId r
  /\ Room.lastSpawnWorldY r' = Room.lastSpawnWorldY r
  /\ Room.createdAt r' = Room.createdAt r
  /\ Room.creatorId r' = Room.creatorId r
  /\ Room.raceState r' = Room.raceState r
  /\ Room.raceStartTime r' = Room.raceStartTime r
  /\ Room.countdownStartTime r' = Room.countdownStartTime r
  /\ Room.countdownValue r' = Room.countdownValue r
  /\ Room.finishOrder r' = Room.finishOrder r
  /\ Room.raceDistance r' = Room.raceDistance r
  /\ Room.pausedAt r' = Room.pausedAt r.

(** Positions announced by the player-finished events sent to a room. *)
Definition finish_position_of (roomCode : string) (e : Emit)
  : option (option nat) :=
  match e with
  | mkEmit (ToRoom code) (EvPlayerFinished _ position _) =>
      if String.eqb code roomCode then Some position else None
  | _ => None
  end.

Definition finish_positions (roomCode : string) (out : list Emit)
  : list (option nat) :=
  omap (finish_position_of roomCode) out.

(** What one input can do to the room stored under [roomCode], and the
    finishing positions it announces to that room.  Inputs that are
    rejected, or that concern another room, leave the room as it is and are
    not listed. *)
Inductive room_step (now : Z) (roomCode : string) (room : Room.t)
  : Input -> Room.t -> list (option nat) -> Prop :=
| rs_join sid name :
    race_in_progress room = false ->
    room_step now roomCode room (JoinRoom sid roomCode name)
      (joined_room sid name room) []
| rs_distance sid parsed :
    is_creator sid room = true ->
    Room.raceState room = WAITING ->
    room_step now roomCode room (SetRaceDistance sid parsed)
      (Room.set_raceDistance (clamp_distance parsed) room) []
| rs_start sid :
    is_creator sid room = true ->
    Room.raceState room = WAITING ->
    room_step now roomCode room (StartRace sid) (countdown_room now room) []
| rs_pause sid :
    is_creator sid room = true ->
    Room.raceState room = RACING ->
    room_step now roomCode room (TogglePause sid) (paused_room now room) []
| rs_resume sid :
    is_creator sid room = true ->
    Room.raceState room = PAUSED ->
    room_step now roomCode room (TogglePause sid) (resumed_room now room) []
| rs_move sid data player :
    Obj.get sid (Room.players room) = Some player ->
    Room.raceState room = RACING ->
    Player.finished player = false ->
    crosses_line room (apply_update data player) = false ->
    room_step now roomCode room (PlayerUpdate sid data)
      (moved_room sid (apply_update data player) room) []
| rs_finish sid data player room1 :
    Obj.get sid (Room.players room) = Some player ->
    Room.raceState room = RACING ->
    Player.finished player = false ->
    crosses_line room (apply_update data player) = true ->
    room1 = finished_room sid
              (finishing_player now sid (apply_update data player) room)
              room ->
    forallb Player.finished (Obj.values (Room.players room1)) = false ->
    room_step now roomCode room (PlayerUpdate sid data) room1
      [Some (length (Room.finishOrder room1))]
| rs_finish_last sid data player room1 :
    Obj.get sid (Room.players room) = Some player ->
    Room.raceState room = RACING ->
    Player.finished player = false ->
    crosses_line room (apply_update data player) = true ->
    room1 = finished_room sid
              (finishing_player now sid (apply_update data player) room)
              room ->
    forallb Player.finished (Obj.values (Room.players room1)) = true ->
    room_step now roomCode room (PlayerUpdate sid data)
      (Room.set_raceState FINISHED room1)
      [Some (length (Room.finishOrder room1))]
| rs_restart sid :
    is_creator sid room = true ->
    room_step now roomCode room (RestartGame sid) (restart_room now room) []
| rs_collision sid player :
    Obj.get sid (Room.players room) = Some player ->
    room_step now roomCode room (Collision sid)
      (moved_room sid (stun now player) room) []
| rs_disconnect sid :
    Room.members (left_room sid room) <> [] ->
    room_step now roomCode room (Disconnect sid) (left_room sid room) []
| rs_tick rnd k :
    room_step now roomCode room (Tick rnd)
      (fst (fst (tick_room now rnd k roomCode room))) [].

(** The room found under [roomCode] after an input either was already
    there, unchanged and with no finishing position announced, or comes by
    a [room_step] from the room that was there, or was created by the
    join-room that the input is. *)
Definition room_effect (now : Z) (roomCode : string) (i : Input) (w : World)
    (room' : Room.t) : Prop :=
  let fin := finish_positions roomCode (outcome_emits (handle now i w)) in
  (room_at roomCode w = Some room' /\ fin = [])
  \/ (exists room,
         room_at roomCode w = Some room
         /\ room_step now roomCode room i room' fin)
  \/ (room_at roomCode w = None /\ fin = []
      /\ exists sid name,
          i = JoinRoom sid roomCode name
          /\ room' = joined_room sid name (new_room now sid)).

(** The difficulty state stays between its base and maximum values. *)
Definition difficulty_in_range (room : Room.t) : Prop :=
  (BASE_GAME_SPEED <= Room.gameSpeed room)%Q
  /\ (Room.gameSpeed room <= MAX_GAME_SPEED)%Q
  /\ (BASE_ROAD_WIDTH <= Room.roadWidth room)%Q
  /\ (Room.roadWidth room <= MAX_ROAD_WIDTH)%Q.

(** A race has begun and has not been reset: the room is racing, paused,
    or finished and not yet restarted. *)
Definition race_on (room : Room.t) : Prop :=
  Room.raceState room = RACING \/ Room.raceState room = PAUSED
  \/ Room.raceState room = FINISHED.

(** The room under [roomCode] is there, in such a race. *)
Definition in_race (roomCode : string) (w : World) : Prop :=
  match room_at roomCode w with
  | Some room => race_on room
  | None => False
  end.

(** The inputs [evs], handled from [w] on, all fall within one race of the
    room: it is in that race before each of them and at the end. *)
Fixpoint one_race (roomCode : string) (evs : list (Z * Input)) (w : World)
  : Prop :=
  in_race roomCode w
  /\ match evs with
     | [] => True
     | (now, i) :: evs' =>
         match handle now i w with
         | Done w' _ => one_race roomCode evs' w'
         | Threw w' _ => in_race roomCode w'
         end
     end.

(** What the countdown step of a tick leaves alone. *)
Definition countdown_frame (r r' : Room.t) : Prop :=
  Room.members r' = Room.members r
  /\ Room.players r' = Room.players r
  /\ Room.obstacles r' = Room.obstacles r
  /\ Room.nextObstacleId r' = Room.nextObstacleId r
  /\ Room.lastSpawnWorldY r' = Room.lastSpawnWorldY r
  /\ Room.roadWidth r' = Room.roadWidth r
  /\ Room.lastExpansionTime r' = Room.lastExpansionTime r
  /\ Room.creatorId r' = Room.creatorId r
  /\ Room.countdownStartTime r' = Room.countdownStartTime r
  /\ Room.finishOrder r' = Room.finishOrder r
  /\ Room.raceDistance r' = Room.raceDistance r
  /\ Room.pausedAt r' = Room.pausedAt r.

(** [state == Finished] implies every player has finished. *)
Definition finished_means_all_finished (room : Room.t) : Prop :=
  Room.raceState room = FINISHED ->
  Obj.All (fun p => Player.finished p = true) (Room.players room).

Definition is_join (i : Input) : bool :=
  match i with JoinRoom _ _ _ => true | _ => false end.

(** Leader and trailer of a room, as the tick computes them. *)
Definition leaderWorldY (players : list (string * Player.t)) : Q :=
  fst (fst (world_bounds players)).
Definition trailerWorldY (players : list (string * Player.t)) : Q :=
  snd (fst (world_bounds players)).

(** Some obstacle lies ahead of the leader, no further than the spawn-ahead
    distance. *)
Definition obstacle_within_spawn_ahead (room : Room.t) : bool :=
  existsb
    (fun obs =>
       Qle_bool (leaderWorldY (Room.players room) - spawnAheadPixels)
                (Obstacle.worldY obs)
       && Qltb (Obstacle.worldY obs) (leaderWorldY (Room.players room)))
    (Room.obstacles room).

(** Some obstacle is at or behind the despawn line of the trailer. *)
Definition obstacle_behind_trailer (room : Room.t) : bool :=
  existsb
    (fun obs =>
       negb (Qltb (Obstacle.worldY obs)
                  (trailerWorldY (Room.players room) + despawnBufferPixels)))
    (Room.obstacles room).

(** The room a racing tick enters its spawning loop with: the cursor is
    initialised first when it is still 0 and there is a player. *)
Definition with_cursor (room : Room.t) : Room.t :=
  if Qeq_bool (Room.lastSpawnWorldY room) 0 && snd (world_bounds (Room.players room))
  then Room.set_lastSpawnWorldY
         (leaderWorldY (Room.players room) - spawnIntervalPixels)%Q room
  else room.

Definition spawnThreshold (room : Room.t) : Q :=
  (leaderWorldY (Room.players room) - spawnAheadPixels)%Q.

(** What a game-state event reports of the race: its state and the
    elapsed race time. *)
Definition reported (e : Emit) : option (RaceState * Z) :=
  match event e with
  | EvGameState g => Some (GameState.raceState g, GameState.raceTime g)
  | _ => None
  end.

(** The inputs [evs], handled from [w] on, leave the room paused: after
    each of them it is there and paused, and none of them crashes the
    server. *)
Fixpoint stays_paused (roomCode : string) (evs : list (Z * Input)) (w : World)
  : Prop :=
  match evs with
  | [] => True
  | (now, i) :: evs' =>
      match handle now i w with
      | Done w' _ =>
          (exists room',
              room_at roomCode w' = Some room'
              /\ Room.raceState room' = PAUSED)
          /\ stays_paused roomCode evs' w'
      | Threw _ _ => False
      end
  end.

(** The positions the spawn cursor has visited: [c], [c] plus one spawn
    interval, plus two, ... *)
Inductive on_chain : Q -> Q -> Prop :=
| chain_here c y : (y == c)%Q -> on_chain c y
| chain_up c y : on_chain (c + spawnIntervalPixels)%Q y -> on_chain c y.

Definition obstacle_at (room : Room.t) (y : Q) : Prop :=
  Exists (fun obs => (Obstacle.worldY obs == y)%Q) (Room.obstacles room).

(** Every cursor position from the cursor up to two intervals ahead of the
    leader still carries its obstacle. *)
Definition chain_filled (room : Room.t) : Prop :=
  forall y,
    on_chain (Room.lastSpawnWorldY room) y ->
    (y <= leaderWorldY (Room.players room) - 2 * spawnIntervalPixels)%Q ->
    obstacle_at room y.

Definition cursor_set (room : Room.t) : Prop :=
  Qeq_bool (Room.lastSpawnWorldY room) 0 = false.

Definition window_inv (room : Room.t) : Prop :=
  cursor_set room -> chain_filled room.

(** Over the inputs [evs], handled from [w] on, the leader of the room
    never moves back while the spawn cursor is set: no reported worldY
    puts the leader behind where it was and no leading player leaves. *)
Fixpoint leader_never_retreats (roomCode : string) (evs : list (Z * Input))
    (w : World) : Prop :=
  match evs with
  | [] => True
  | (now, i) :: evs' =>
      match handle now i w with
      | Done w' _ =>
          (forall room room',
              room_at roomCode w = Some room ->
              room_at roomCode w' = Some room' ->
              cursor_set room' ->
              (leaderWorldY (Room.players room')
               <= leaderWorldY (Room.players room))%Q)
          /\ leader_never_retreats roomCode evs' w'
      | Threw _ _ => True
      end
  end.

(** The two assignments of the difficulty controller with the rounding of
    floating-point arithmetic made explicit: [round] maps the exact result
    of [+] or [*] to the number stored, [increment] and [rate] are the
    stored constants.  With the identity for [round] these are the
    assignments of [ramp_speed] and [expand_road]. *)
Definition rounded_speed (round : Q -> Q) (increment gameSpeed : Q) : Q :=
  if Qltb gameSpeed MAX_GAME_SPEED
  then Qmin (round (gameSpeed + increment)%Q) MAX_GAME_SPEED
  else gameSpeed.

Definition rounded_width (round : Q -> Q) (rate roadWidth : Q) : Q :=
  Qmin (round (roadWidth * rate)%Q) MAX_ROAD_WIDTH.

(** ** Vocabulary of the further properties *)

(** [k] may stand before [k'] in the enumeration of an object: array
    indices are in ascending order and stand before every other key
    (the other keys are in the order of their insertion). *)
Definition before (k k' : string) : Prop :=
  match array_index k, array_index k' with
  | Some n, Some m => (n <= m)%N
  | Some _, None => True
  | None, Some _ => False
  | None, None => True
  end.

(** The place of a new key [k] between the keys [l1] before it and [l2]
    after it: an array index stands after the array indices not above it
    and right before the next key, any other key stands last. *)
Definition placed (k : string) (l1 l2 : list string) : Prop :=
  match array_index k with
  | Some n =>
      Forall (fun k1 => exists m, array_index k1 = Some m /\ (m <= n)%N) l1
      /\ match l2 with
         | [] => True
         | k2 :: _ =>
             match array_index k2 with
             | Some m => (n < m)%N
             | None => True
             end
         end
  | None => l2 = []
  end.

(** The socket an input comes from; the interval callback has none. *)
Definition sender (i : Input) : option string :=
  match i with
  | JoinRoom sid _ _ | SetRaceDistance sid _ | StartRace sid
  | TogglePause sid | PlayerUpdate sid _ | RestartGame sid
  | Collision sid | Disconnect sid => Some sid
  | Tick _ => None
  end.

(** The room code a listener works on: the one in the payload of
    join-room, [socket.roomCode] for the others. *)
Definition addressed_room (i : Input) (w : World) : option string :=
  match i with
  | JoinRoom _ roomCode _ => Some roomCode
  | Tick _ => None
  | _ =>
      match sender i with
      | Some sid => Socket.roomCode <$> socks w !! sid
      | None => None
      end
  end.

Definition is_disconnect (i : Input) : bool :=
  match i with Disconnect _ => true | _ => false end.

(** Ids of the sockets listed in [room.members]. *)
Definition member_ids (room : Room.t) : list string :=
  map Member.id (Room.members room).

(** The players of a tick's result, as a function of the players before:
    stun expiry, which runs while racing, is all a tick does to them. *)
Definition expired (now : Z) (players : list (string * Player.t))
  : list (string * Player.t) :=
  map (fun kv => (fst kv, expire_stun now (snd kv))) players.

(** The edges of the race state machine, with the input that takes each. *)
Inductive transition : RaceState -> Input -> RaceState -> Prop :=
| tr_start sid : transition WAITING (StartRace sid) COUNTDOWN
| tr_go rnd : transition COUNTDOWN (Tick rnd) RACING
| tr_pause sid : transition RACING (TogglePause sid) PAUSED
| tr_resume sid : transition PAUSED (TogglePause sid) RACING
| tr_finish sid data : transition RACING (PlayerUpdate sid data) FINISHED
| tr_restart sid s : transition s (RestartGame sid) WAITING.

Definition is_race_started (e : Emit) : bool :=
  match event e with EvRaceStarted _ _ => true | _ => false end.

Definition is_game_state (e : Emit) : bool :=
  match event e with EvGameState _ => true | _ => false end.

(** How [finishOrder] and the players' results hang together: no id is
    listed twice; the list is empty before a race; during a race every
    listed id that still has a player has a finished one; and every
    finished player is listed, at the index its position says, with its
    finish time recorded. *)
Definition finish_inv (room : Room.t) : Prop :=
  NoDup (Obj.keys (Room.players room))
  /\ NoDup (Room.finishOrder room)
  /\ (Room.raceState room = WAITING \/ Room.raceState room = COUNTDOWN ->
      Room.finishOrder room = [])
  /\ (Room.raceState room = RACING \/ Room.raceState room = PAUSED ->
      forall id p,
        id ∈ Room.finishOrder room ->
        Obj.get id (Room.players room) = Some p ->
        Player.finished p = true)
  /\ (forall id p,
         Obj.get id (Room.players room) = Some p ->
         Player.finished p = true ->
         exists n,
           Player.position p = Some (S n)
           /\ Room.finishOrder room !! n = Some id
           /\ is_Some (Player.finishTime p)).

Definition is_race_finished (e : Emit) : bool :=
  match event e with EvRaceFinished _ => true | _ => false end.

(** The three events the interval callback sends. *)
Definition is_tick_event (e : Emit) : bool :=
  match event e with
  | EvRaceCountdown _ _ | EvRaceStarted _ _ | EvGameState _ => true
  | _ => false
  end.

Definition is_restart (i : Input) : bool :=
  match i with RestartGame _ => true | _ => false end.

(** The fields of a player that say where its car is and how its race
    went. *)
Definition same_car (p p' : Player.t) : Prop :=
  Player.x p' = Player.x p
  /\ Player.worldY p' = Player.worldY p
  /\ Player.distance p' = Player.distance p
  /\ Player.finished p' = Player.finished p
  /\ Player.finishTime p' = Player.finishTime p
  /\ Player.position p' = Player.position p.

(** [a] may stand before [b] on the leaderboard: the comparator of the
    sort does not put [b] first. *)
Definition ranks_before (a b : Standing.t) : Prop :=
  (compare_standing a b <= 0)%Q.

(** Lateral range of the road an obstacle may be put on, ends included. *)
Definition on_the_road (x : Q) : Prop := (0.02 <= x /\ x <= 0.98)%Q.

(** [obstacleX] with the rounding of floating-point arithmetic made
    explicit: [round] maps the exact result of [*] or [+] to the number
    stored.  With the identity for [round] this is [obstacleX]. *)
Definition rounded_obstacleX (round : Q -> Q) (zoneRoll u : Q) : Q :=
  if Qltb zoneRoll 0.25 then round (round (u * 0.23) + 0.02)%Q
  else if Qltb zoneRoll 0.5 then round (round (u * 0.23) + 0.75)%Q
  else round (round (u * 0.5) + 0.25)%Q.

(** The constants between which the obstacle positions are computed. *)
Definition zone_constants : list Q :=
  [0; 0.23; 0.5; 0.02; 0.25; 0.75; 0.98]%Q.

(** Obstacle records as the spawn loop makes them: ids grow along the
    list and stay below the counter, and [distance] is [|worldY|] in
    metres. *)
Definition obstacles_ok (room : Room.t) : Prop :=
  StronglySorted lt (map Obstacle.id (Room.obstacles room))
  /\ Forall (fun o => (Obstacle.id o < Room.nextObstacleId room)%nat)
       (Room.obstacles room)
  /\ Forall (fun o => (Obstacle.distance o
                       == Qabs (Obstacle.worldY o) / PIXELS_PER_METER)%Q)
       (Room.obstacles room).

(** ** The client's formatting helpers (public/client.js)

    They render what the server sends in player-finished and
    race-finished: [position] and [time].  The arguments are integers of
    absolute value at most [Number.MAX_SAFE_INTEGER], as the server sends
    them: on these the quotients, the remainders and the decimal numerals
    of JavaScript's numbers are those of the integers, which they are not
    beyond.  [%] is JavaScript's remainder, which takes the sign of the
    dividend ([Z.rem]), and [Math.floor] of a quotient is [Z.div]. *)

Module Client.
(** [Number.MAX_SAFE_INTEGER] *)
Definition MAX_SAFE_INTEGER : Z := 2 ^ 53 - 1.

(** [s.padStart(targetLength, padString)] for a pad of one character. *)
Definition padStart (targetLength : nat) (padString s : string) : string :=
  Nat.iter (targetLength - String.length s) (fun t => padString +:+ t) s.

(** [a[i]] for an array of strings and an integer index: [undefined]
    outside the array. *)
Definition at_index (a : list string) (i : Z) : option string :=
  if i <? 0 then None else a !! Z.to_nat i.

(** [x || y] where [x] may be [undefined] (the strings at hand are not
    empty, hence truthy). *)
Definition or_else (x : option string) (y : option string) : option string :=
  match x with Some _ => x | None => y end.

Definition formatTime (ms : Z) : string :=
  let totalSeconds := ms / 1000 in
  let minutes := totalSeconds / 60 in
  let seconds := Z.rem totalSeconds 60 in
  let millis := Z.rem ms 1000 / 10 in
  padStart 2 "0" (pretty minutes) +:+ ":"
  +:+ padStart 2 "0" (pretty seconds) +:+ "."
  +:+ padStart 2 "0" (pretty millis).

Definition getOrdinal (n : Z) : string :=
  let s := ["th"; "st"; "nd"; "rd"] in
  let v := Z.rem n 100 in
  pretty n
  +:+ default ""
       (or_else (or_else (at_index s (Z.rem (v - 20) 10)) (at_index s v))
          (at_index s 0)).
End Client.

(** The English ordinal suffix of a non-negative integer. *)
Definition ordinal_suffix (n : Z) : string :=
  if (n mod 100 =? 11) || (n mod 100 =? 12) || (n mod 100 =? 13) then "th"
  else if n mod 10 =? 1 then "st"
  else if n mod 10 =? 2 then "nd"
  else if n mod 10 =? 3 then "rd"
  else "th".

(** ** More example worlds *)

Module Cases.
(** Beside room ABCD, Cyd opens room WXYZ. *)
Definition two_rooms : World :=
  Examples.after 2000 (JoinRoom "c" "WXYZ" "Cyd") Examples.lobby.

(** From the racing room: Ann crosses the line, then leaves. *)
Definition finisher_left_inputs : list (Z * Input) :=
  [(9000, PlayerUpdate "a" (Examples.report (-2000) 1000));
   (9100, Disconnect "a")].

Definition finisher_left : World :=
  outcome_world (run finisher_left_inputs Examples.racing).

(** The racing room once Ann has crossed the line. *)
Definition one_finished : World :=
  Examples.after 9000 (PlayerUpdate "a" (Examples.report (-2000) 1000))
    Examples.racing.

Definition last_finish : Input :=
  PlayerUpdate "b" (Examples.report (-2000) 1000).

Definition results : list Result.t :=
  [Result.mk 1 "Ann" (Some 4997); Result.mk 2 "Bob" (Some 5497)].

(** From the racing room: Ann crosses the line, then Bob, who has not,
    leaves. *)
Definition racer_left_inputs : list (Z * Input) :=
  [(9000, PlayerUpdate "a" (Examples.report (-2000) 1000));
   (9100, Disconnect "b")].

Definition racer_left : World :=
  outcome_world (run racer_left_inputs Examples.racing).

(** Four rooms, created in the order ZZZ, 42, 007, 7: the codes 42 and 7
    are array indices, 007 is not. *)
Definition numbered_inputs : list (Z * Input) :=
  [(1000, JoinRoom "a" "ZZZ" "Ann"); (1001, JoinRoom "b" "42" "Bob");
   (1002, JoinRoom "c" "007" "Cyd"); (1003, JoinRoom "d" "7" "Dan")].

Definition numbered_rooms : World :=
  outcome_world (run numbered_inputs empty_world).
End Cases.

(** * Facts about the dictionaries *)

Section ObjFacts.
Context {V : Type}.
Implicit Types (o : list (string * V)) (k : string) (v : V).

Lemma get_set_eq k v o : Obj.get k (Obj.set k v o) = Some v.
Proof.
  induction o as [|[k' v'] o IH]; simpl.
  - now rewrite String.eqb_refl.
  - destruct (String.eqb_spec k k') as [->|Hne]; simpl.
    + now rewrite String.eqb_refl.
    + now rewrite (proj2 (String.eqb_neq k k') Hne).
Qed.

Lemma get_set_ne k k' v o :
  k <> k' -> Obj.get k' (Obj.set k v o) = Obj.get k' o.
Proof.
  intros Hne. induction o as [|[k1 v1] o IH]; simpl.
  - destruct (String.eqb_spec k' k); congruence.
  - destruct (String.eqb_spec k k1) as [->|Hk]; simpl.
    + destruct (String.eqb_spec k' k1); congruence.
    + destruct (String.eqb_spec k' k1); congruence.
Qed.

Lemma get_del_ne k k' o :
  k <> k' -> Obj.get k' (Obj.del k o) = Obj.get k' o.
Proof.
  intros Hne. induction o as [|[k1 v1] o IH]; simpl; [done|].
  destruct (String.eqb_spec k k1) as [->|Hk]; simpl.
  - destruct (String.eqb_spec k' k1); congruence.
  - destruct (String.eqb_spec k' k1); congruence.
Qed.

Lemma get_None_keys k o : k ∉ Obj.keys o -> Obj.get k o = None.
Proof.
  induction o as [|[k1 v1] o IH]; simpl; [done|].
  intros Hnin. destruct (String.eqb_spec k k1) as [->|Hk].
  - exfalso. apply Hnin. left.
  - apply IH. intros Hin. apply Hnin. now right.
Qed.

Lemma get_Some_keys k v o : Obj.get k o = Some v -> k ∈ Obj.keys o.
Proof.
  induction o as [|[k1 v1] o IH]; simpl; [done|].
  destruct (String.eqb_spec k k1) as [->|Hk]; intros H.
  - left.
  - right. now apply IH.
Qed.

Lemma get_Some_elem k v o : Obj.get k o = Some v -> (k, v) ∈ o.
Proof.
  induction o as [|[k1 v1] o IH]; simpl; [done|].
  destruct (String.eqb_spec k k1) as [->|Hk]; intros H.
  - injection H as ->. left.
  - right. now apply IH.
Qed.

Lemma keys_del_subseteq k o : Obj.keys (Obj.del k o) ⊆ Obj.keys o.
Proof.
  induction o as [|[k1 v1] o IH]; simpl; [done|].
  destruct (String.eqb k k1); simpl.
  - intros a Ha. now right.
  - intros a Ha. apply elem_of_cons in Ha as [->|Ha]; [left|right; auto].
Qed.

Lemma get_del_eq k o : NoDup (Obj.keys o) -> Obj.get k (Obj.del k o) = None.
Proof.
  induction o as [|[k1 v1] o IH]; simpl; [done|].
  intros Hnd. apply NoDup_cons in Hnd as [Hnin Hnd].
  destruct (String.eqb_spec k k1) as [->|Hk]; simpl.
  - now apply get_None_keys.
  - rewrite (proj2 (String.eqb_neq k k1) Hk). now apply IH.
Qed.

Lemma keys_set k v o :
  Obj.keys (Obj.set k v o) = Obj.keys o
  \/ ((k ∉ Obj.keys o) /\ Obj.keys (Obj.set k v o) = Obj.keys o ++ [k]).
Proof.
  induction o as [|[k1 v1] o IH]; simpl.
  - right. split; [apply not_elem_of_nil | done].
  - destruct (String.eqb_spec k k1) as [->|Hk]; simpl; [now left|].
    destruct IH as [IH|[Hnin IH]].
    + left. unfold Obj.keys in *. now rewrite IH.
    + right. split.
      * intros Hin. apply elem_of_cons in Hin as [?|?]; congruence.
      * unfold Obj.keys in *. now rewrite IH.
Qed.

Lemma NoDup_keys_set k v o :
  NoDup (Obj.keys o) -> NoDup (Obj.keys (Obj.set k v o)).
Proof.
  intros Hnd. destruct (keys_set k v o) as [->|[Hnin ->]]; [done|].
  apply NoDup_app. split; [done|]. split.
  - intros a Ha Hin. apply list_elem_of_singleton in Hin as ->. done.
  - apply NoDup_singleton.
Qed.

Lemma NoDup_keys_del k o :
  NoDup (Obj.keys o) -> NoDup (Obj.keys (Obj.del k o)).
Proof.
  induction o as [|[k1 v1] o IH]; simpl; [done|].
  intros Hnd. apply NoDup_cons in Hnd as [Hnin Hnd].
  destruct (String.eqb k k1); simpl; [done|].
  apply NoDup_cons. split; [|auto].
  intros Hin. apply Hnin. now apply (keys_del_subseteq k o).
Qed.

Lemma All_get (P : V -> Prop) k v o :
  Obj.All P o -> Obj.get k o = Some v -> P v.
Proof.
  intros Hall Hget. apply get_Some_elem in Hget.
  unfold Obj.All in Hall. rewrite Forall_forall in Hall.
  apply (Hall (k, v) Hget).
Qed.

Lemma All_set (P : V -> Prop) k v o :
  Obj.All P o -> P v -> Obj.All P (Obj.set k v o).
Proof.
  unfold Obj.All. intros Hall Hv.
  induction o as [|[k1 v1] o IH]; simpl.
  - now constructor.
  - apply Forall_cons in Hall as [H1 Hall].
    destruct (String.eqb k k1); constructor; auto.
Qed.

Lemma All_del (P : V -> Prop) k o :
  Obj.All P o -> Obj.All P (Obj.del k o).
Proof.
  unfold Obj.All. intros Hall.
  induction o as [|[k1 v1] o IH]; simpl; [done|].
  apply Forall_cons in Hall as [H1 Hall].
  destruct (String.eqb k k1); [done|]. constructor; auto.
Qed.

Lemma All_values (P : V -> Prop) o :
  Obj.All P o <-> Forall P (Obj.values o).
Proof.
  unfold Obj.All, Obj.values. now rewrite Forall_fmap.
Qed.
End ObjFacts.

(** Creation of a key in enumeration order. *)
Section ObjAdd.
Context {V : Type}.
Implicit Types (o : list (string * V)) (k : string) (v : V).

Lemma get_app_None k o o' :
  Obj.get k o = None -> Obj.get k (o ++ o') = Obj.get k o'.
Proof.
  induction o as [|[k1 v1] o IH]; simpl; [done|].
  destruct (String.eqb k k1); [done|auto].
Qed.

Lemma get_add_index_eq n k v o :
  Obj.get k o = None -> Obj.get k (Obj.add_index n k v o) = Some v.
Proof.
  induction o as [|[k1 v1] o IH]; simpl.
  - now rewrite String.eqb_refl.
  - destruct (String.eqb_spec k k1) as [->|Hne]; [done|]. intros Hget.
    destruct (array_index k1) as [m|]; [destruct (n <? m)%N|]; simpl;
      rewrite ?String.eqb_refl; try done.
    rewrite (proj2 (String.eqb_neq k k1) Hne). auto.
Qed.

Lemma get_add_eq k v o :
  Obj.get k o = None -> Obj.get k (Obj.add k v o) = Some v.
Proof.
  intros Hget. unfold Obj.add. destruct (array_index k) as [n|].
  - now apply get_add_index_eq.
  - rewrite get_app_None by done. simpl. now rewrite String.eqb_refl.
Qed.

Lemma get_add_index_ne n k k' v o :
  k <> k' -> Obj.get k' (Obj.add_index n k v o) = Obj.get k' o.
Proof.
  intros Hne.
  assert (Hk : String.eqb k' k = false) by (apply String.eqb_neq; congruence).
  induction o as [|[k1 v1] o IH]; simpl; [now rewrite Hk|].
  destruct (array_index k1) as [m|]; [destruct (n <? m)%N|]; simpl;
    rewrite ?Hk; try done.
  now rewrite IH.
Qed.

Lemma get_add_ne k k' v o :
  k <> k' -> Obj.get k' (Obj.add k v o) = Obj.get k' o.
Proof.
  intros Hne. unfold Obj.add. destruct (array_index k) as [n|].
  - now apply get_add_index_ne.
  - assert (Hk : String.eqb k' k = false)
      by (apply String.eqb_neq; congruence).
    induction o as [|[k1 v1] o IH]; simpl; [now rewrite Hk|].
    now rewrite IH.
Qed.

Lemma keys_add_index n k v o :
  Obj.keys (Obj.add_index n k v o) ≡ₚ k :: Obj.keys o.
Proof.
  induction o as [|[k1 v1] o IH]; simpl; [done|].
  destruct (array_index k1) as [m|]; [destruct (n <? m)%N|]; simpl;
    try done.
  unfold Obj.keys in IH. rewrite IH. apply Permutation_swap.
Qed.

Lemma keys_add k v o : Obj.keys (Obj.add k v o) ≡ₚ k :: Obj.keys o.
Proof.
  unfold Obj.add. destruct (array_index k) as [n|].
  - apply keys_add_index.
  - unfold Obj.keys. rewrite map_app. simpl.
    now rewrite Permutation_app_comm.
Qed.

Lemma keys_add_last k v o :
  array_index k = None -> Obj.keys (Obj.add k v o) = Obj.keys o ++ [k].
Proof.
  intros Hk. unfold Obj.add, Obj.keys. rewrite Hk. now rewrite map_app.
Qed.

Lemma keys_add_split k v o :
  exists l1 l2,
    Obj.keys o = l1 ++ l2
    /\ Obj.keys (Obj.add k v o) = l1 ++ k :: l2
    /\ placed k l1 l2.
Proof.
  unfold Obj.add, placed. destruct (array_index k) as [n|].
  - induction o as [|[k1 v1] o IH]; simpl.
    + exists [], []. repeat split; constructor.
    + destruct (array_index k1) as [m|] eqn:Hk1.
      * destruct (N.ltb_spec n m) as [Hlt|Hge].
        -- exists [], (k1 :: Obj.keys o). simpl. rewrite Hk1.
           repeat split; [constructor|done].
        -- destruct IH as (l1 & l2 & H1 & H2 & H3 & H4).
           exists (k1 :: l1), l2. simpl.
           unfold Obj.keys in *. rewrite H1, H2.
           repeat split; [|done]. constructor; [eauto|done].
      * exists [], (k1 :: Obj.keys o). simpl. rewrite Hk1.
        repeat split; constructor.
  - exists (Obj.keys o), []. unfold Obj.keys. rewrite map_app, app_nil_r.
    done.
Qed.

Lemma NoDup_keys_add k v o :
  Obj.get k o = None -> NoDup (Obj.keys o) -> NoDup (Obj.keys (Obj.add k v o)).
Proof.
  intros Hget Hnd. rewrite keys_add. apply NoDup_cons. split; [|done].
  intros Hin. clear Hnd.
  induction o as [|[k1 v1] o IH]; simpl in *.
  - now apply elem_of_nil in Hin.
  - destruct (String.eqb_spec k k1) as [->|Hne]; [done|].
    apply elem_of_cons in Hin as [?|?]; [done|auto].
Qed.

Lemma All_add (P : V -> Prop) k v o :
  Obj.All P o -> P v -> Obj.All P (Obj.add k v o).
Proof.
  unfold Obj.All, Obj.add. intros Hall Hv.
  destruct (array_index k) as [n|].
  - induction o as [|[k1 v1] o IH]; simpl; [now constructor|].
    pose proof Hall as Hall'. apply Forall_cons in Hall' as [H1 Ho].
    destruct (array_index k1) as [m|]; [destruct (n <? m)%N|];
      constructor; auto.
  - apply Forall_app. split; [done|]. now constructor.
Qed.

Lemma set_add k v v' o :
  Obj.get k o = None -> Obj.set k v' (Obj.add k v o) = Obj.add k v' o.
Proof.
  intros Hget. unfold Obj.add. destruct (array_index k) as [n|].
  - induction o as [|[k1 v1] o IH]; simpl in *.
    + now rewrite String.eqb_refl.
    + destruct (String.eqb_spec k k1) as [->|Hne]; [done|].
      destruct (array_index k1) as [m|]; [destruct (n <? m)%N|]; simpl;
        rewrite ?String.eqb_refl; try done.
      rewrite (proj2 (String.eqb_neq k k1) Hne). now rewrite IH.
  - induction o as [|[k1 v1] o IH]; simpl in *.
    + now rewrite String.eqb_refl.
    + destruct (String.eqb k k1); [done|]. now rewrite IH.
Qed.

Lemma del_add k v o :
  Obj.get k o = None -> Obj.del k (Obj.add k v o) = o.
Proof.
  intros Hget. unfold Obj.add. destruct (array_index k) as [n|].
  - induction o as [|[k1 v1] o IH]; simpl in *.
    + now rewrite String.eqb_refl.
    + destruct (String.eqb_spec k k1) as [->|Hne]; [done|].
      destruct (array_index k1) as [m|]; [destruct (n <? m)%N|]; simpl;
        rewrite ?String.eqb_refl; try done.
      rewrite (proj2 (String.eqb_neq k k1) Hne). now rewrite IH.
  - induction o as [|[k1 v1] o IH]; simpl in *.
    + now rewrite String.eqb_refl.
    + destruct (String.eqb k k1); [done|]. now rewrite IH.
Qed.
End ObjAdd.

(** * The cases of join-room *)

Lemma new_room_not_in_progress now sid :
  race_in_progress (new_room now sid) = false.
Proof. reflexivity. Qed.

Lemma on_join_room_cases now sid roomCode name w :
  on_join_room now sid roomCode name w
  = if negb (truthy_str roomCode) || negb (truthy_str name) then
      Done w [error_to sid "Room code and name are required"]
    else
      let socks' := <[sid := Socket.mk roomCode name]> (socks w) in
      match Obj.get roomCode (rooms w) with
      | Some room =>
          if race_in_progress room then
            Done (mkWorld (rooms w) socks')
              [error_to sid
                 "Race already in progress. Wait for it to finish."]
          else
            Done (mkWorld
                    (Obj.set roomCode (joined_room sid name room) (rooms w))
                    socks')
              (joined_emits sid roomCode name (joined_room sid name room))
      | None =>
          if inherited roomCode then Threw (mkWorld (rooms w) socks') []
          else
            Done (mkWorld
                    (Obj.add roomCode
                       (joined_room sid name (new_room now sid)) (rooms w))
                    socks')
              (joined_emits sid roomCode name
                 (joined_room sid name (new_room now sid)))
      end.
Proof.
  unfold on_join_room.
  destruct (negb (truthy_str roomCode) || negb (truthy_str name)); [done|].
  cbv zeta.
  destruct (Obj.get roomCode (rooms w)) as [room|] eqn:Hget.
  - rewrite Hget. now destruct (race_in_progress room).
  - destruct (inherited roomCode); simpl; [now rewrite Hget|].
    rewrite get_add_eq by done. rewrite new_room_not_in_progress.
    now rewrite set_add.
Qed.

(** * Facts about the lookup of a sender's room *)

Lemma socket_room_put sid roomCode room room' w :
  socket_room sid w = Some (roomCode, room) ->
  socket_room sid (put_room roomCode room' w) = Some (roomCode, room').
Proof.
  unfold socket_room, put_room; simpl.
  destruct (socks w !! sid) as [s|]; [|done].
  destruct (Obj.get (Socket.roomCode s) (rooms w)) as [r|] eqn:Hget; [|done].
  intros [= <- <-]. now rewrite get_set_eq.
Qed.

Lemma socket_room_at sid roomCode room w :
  socket_room sid w = Some (roomCode, room) -> room_at roomCode w = Some room.
Proof.
  unfold socket_room, room_at.
  destruct (socks w !! sid) as [s|]; [|done].
  destruct (Obj.get (Socket.roomCode s) (rooms w)) as [r|] eqn:Hget; [|done].
  now intros [= <- <-].
Qed.

Lemma room_at_put roomCode room w :
  room_at roomCode (put_room roomCode room w) = Some room.
Proof. apply get_set_eq. Qed.

Lemma room_at_put_ne roomCode code room w :
  roomCode <> code -> room_at code (put_room roomCode room w) = room_at code w.
Proof. apply get_set_ne. Qed.

Lemma run_reachable evs : forall w w' out,
  reachable w -> run evs w = Done w' out -> reachable w'.
Proof.
  induction evs as [|[now i] evs IH]; simpl; intros w w' out Hw Hrun.
  - now injection Hrun as <- _.
  - destruct (handle now i w) as [w1 out1|w1 out1] eqn:Hh; [|done].
    destruct (run evs w1) as [w2 out2|w2 out2] eqn:Hr; [|done].
    injection Hrun as <- _.
    eapply IH; [|exact Hr]. eapply reachable_step; eauto.
Qed.

(** * Authority *)

(** C1: a start-race, toggle-pause, restart-game or set-race-distance sent
    by a socket that is not the creator of its room leaves the room's
    raceState, roadWidth, gameSpeed, raceDistance and finishOrder as they
    were (indeed the whole server state), and the only thing emitted is one
    error notification, addressed to the sender. *)
Theorem non_host_command_rejected (now : Z) (sid roomCode : string)
    (room : Room.t) (i : Input) (w : World) :
  socket_room sid w = Some (roomCode, room) ->
  is_creator sid room = false ->
  host_command sid i = true ->
  exists msg room',
    handle now i w = Done w [error_to sid msg]
    /\ room_at roomCode (outcome_world (handle now i w)) = Some room'
    /\ Room.raceState room' = Room.raceState room
    /\ Room.roadWidth room' = Room.roadWidth room
    /\ Room.gameSpeed room' = Room.gameSpeed room
    /\ Room.raceDistance room' = Room.raceDistance room
    /\ Room.finishOrder room' = Room.finishOrder room.
Proof.
  intros Hroom Hcre Hcmd.
  pose proof (socket_room_at _ _ _ _ Hroom) as Hat.
  assert (Hgo : forall msg, handle now i w = Done w [error_to sid msg] ->
            exists msg room',
              handle now i w = Done w [error_to sid msg]
              /\ room_at roomCode (outcome_world (handle now i w)) = Some room'
              /\ Room.raceState room' = Room.raceState room
              /\ Room.roadWidth room' = Room.roadWidth room
              /\ Room.gameSpeed room' = Room.gameSpeed room
              /\ Room.raceDistance room' = Room.raceDistance room
              /\ Room.finishOrder room' = Room.finishOrder room).
  { intros msg Hh. exists msg, room. rewrite Hh. simpl. tauto. }
  destruct i; simpl in Hcmd; try discriminate;
    apply String.eqb_eq in Hcmd as ->; simpl.
  - apply (Hgo "Only the room creator can set race distance").
    simpl. unfold on_set_race_distance. now rewrite Hroom, Hcre.
  - apply (Hgo "Only the room creator can start the race").
    simpl. unfold on_start_race. now rewrite Hroom, Hcre.
  - apply (Hgo "Only the room creator can pause the race").
    simpl. unfold on_toggle_pause. now rewrite Hroom, Hcre.
  - apply (Hgo "Only the room creator can restart the game").
    simpl. unfold on_restart_game. now rewrite Hroom, Hcre.
Qed.

Lemma non_host_command_rejected_witness :
  exists msg room',
    handle 2000 (StartRace "b") Examples.lobby
      = Done Examples.lobby [error_to "b" msg]
    /\ room_at "ABCD"
         (outcome_world (handle 2000 (StartRace "b") Examples.lobby))
       = Some room'
    /\ Room.raceState room' = Room.raceState (Examples.the_room Examples.lobby)
    /\ Room.roadWidth room' = Room.roadWidth (Examples.the_room Examples.lobby)
    /\ Room.gameSpeed room' = Room.gameSpeed (Examples.the_room Examples.lobby)
    /\ Room.raceDistance room'
       = Room.raceDistance (Examples.the_room Examples.lobby)
    /\ Room.finishOrder room'
       = Room.finishOrder (Examples.the_room Examples.lobby).
Proof.
  apply (non_host_command_rejected 2000 "b" "ABCD"
           (Examples.the_room Examples.lobby) (StartRace "b") Examples.lobby).
  - vm_compute. reflexivity.
  - vm_compute. reflexivity.
  - vm_compute. reflexivity.
Defined.

(** C10: a toggle-pause from the creator while the room is waiting, in
    countdown or finished changes nothing and emits nothing, whereas the
    other creator commands that come in the wrong state (set-race-distance
    and start-race outside waiting) answer the sender with an error. *)
Theorem host_pause_outside_race_is_silent (now : Z) (sid roomCode : string)
    (room : Room.t) (w : World) :
  socket_room sid w = Some (roomCode, room) ->
  is_creator sid room = true ->
  Room.raceState room = WAITING \/ Room.raceState room = COUNTDOWN
  \/ Room.raceState room = FINISHED ->
  handle now (TogglePause sid) w = Done w []
  /\ (Room.raceState room <> WAITING ->
      (forall parsed,
          handle now (SetRaceDistance sid parsed) w
          = Done w [error_to sid "Can only set distance before race starts"])
      /\ exists msg, handle now (StartRace sid) w = Done w [error_to sid msg]).
Proof.
  intros Hroom Hcre Hst. split.
  - simpl. unfold on_toggle_pause. rewrite Hroom, Hcre. simpl.
    destruct Hst as [H|[H|H]]; rewrite H; reflexivity.
  - intros Hnw. split.
    + intros parsed. simpl. unfold on_set_race_distance.
      rewrite Hroom, Hcre. simpl.
      destruct Hst as [H|[H|H]]; [done| |]; rewrite H; reflexivity.
    + simpl. unfold on_start_race. rewrite Hroom, Hcre. simpl.
      destruct (length (Obj.keys (Room.players room)) <? MIN_PLAYERS_TO_START)%nat.
      * now eexists.
      * destruct Hst as [H|[H|H]]; [done| |]; rewrite H; now eexists.
Qed.

Lemma host_pause_outside_race_is_silent_witness :
  handle 2000 (TogglePause "a") Examples.finished = Done Examples.finished []
  /\ (Room.raceState (Examples.the_room Examples.finished) <> WAITING ->
      (forall parsed,
          handle 2000 (SetRaceDistance "a" parsed) Examples.finished
          = Done Examples.finished
              [error_to "a" "Can only set distance before race starts"])
      /\ exists msg,
          handle 2000 (StartRace "a") Examples.finished
          = Done Examples.finished [error_to "a" msg]).
Proof.
  apply (host_pause_outside_race_is_silent 2000 "a" "ABCD"
           (Examples.the_room Examples.finished)).
  - vm_compute. reflexivity.
  - vm_compute. reflexivity.
  - right. right. vm_compute. reflexivity.
Defined.

(** * Restart *)

Lemma reset_players_lookup ps : forall k n,
  reset_players k ps !! n
  = (fun kv => (fst kv, reset_player (k + n) (snd kv))) <$> ps !! n.
Proof.
  induction ps as [|[id p] ps IH]; intros k n; simpl; [done|].
  destruct n as [|n]; simpl.
  - now rewrite Nat.add_0_r.
  - rewrite IH. now replace (S k + n)%nat with (k + S n)%nat by lia.
Qed.

Lemma reset_players_keys ps : forall k,
  Obj.keys (reset_players k ps) = Obj.keys ps.
Proof.
  induction ps as [|[id p] ps IH]; intros k; simpl; [done|].
  unfold Obj.keys in *. simpl. now rewrite IH.
Qed.

Lemma reset_players_unfinished ps : forall k,
  Obj.All (fun p => Player.finished p = false) (reset_players k ps).
Proof.
  induction ps as [|[id p] ps IH]; intros k; simpl.
  - constructor.
  - constructor; [done|apply IH].
Qed.

(** C7, as the code has it: a restart-game from the creator is carried out
    in every race state.  The room goes to waiting, obstacles and spawn
    counters are cleared, roadWidth and gameSpeed return to their base
    values, the race timestamps and finishOrder are cleared, the n-th
    player (in enumeration order) is put back on grid slot n, unfinished,
    and game-restarted is sent to the room. *)
Theorem host_restart_resets_in_every_state (now : Z) (sid roomCode : string)
    (room : Room.t) (w : World) :
  socket_room sid w = Some (roomCode, room) ->
  is_creator sid room = true ->
  exists room',
    handle now (RestartGame sid) w
    = Done (put_room roomCode room' w)
        [mkEmit (ToRoom roomCode)
           (EvGameRestarted "Game restarted by host!" WAITING
              (MIN_PLAYERS_TO_START <=? length (Room.players room))%nat
              (length (Room.players room)))]
    /\ room_at roomCode (outcome_world (handle now (RestartGame sid) w))
       = Some room'
    /\ Room.raceState room' = WAITING
    /\ Room.obstacles room' = []
    /\ Room.nextObstacleId room' = 0%nat
    /\ Room.lastSpawnWorldY room' = 0%Q
    /\ Room.roadWidth room' = BASE_ROAD_WIDTH
    /\ Room.gameSpeed room' = BASE_GAME_SPEED
    /\ Room.lastExpansionTime room' = now
    /\ Room.raceStartTime room' = None
    /\ Room.countdownStartTime room' = None
    /\ Room.finishOrder room' = []
    /\ Room.members room' = Room.members room
    /\ Room.raceDistance room' = Room.raceDistance room
    /\ Obj.keys (Room.players room') = Obj.keys (Room.players room)
    /\ (forall n id p,
          Room.players room !! n = Some (id, p) ->
          Room.players room' !! n = Some (id, reset_player n p))
    /\ Obj.All (fun p => Player.finished p = false) (Room.players room').
Proof.
  intros Hroom Hcre. exists (restart_room now room).
  assert (Hh : handle now (RestartGame sid) w
               = Done (put_room roomCode (restart_room now room) w)
                   [mkEmit (ToRoom roomCode)
                      (EvGameRestarted "Game restarted by host!" WAITING
                         (MIN_PLAYERS_TO_START <=? length (Room.players room))%nat
                         (length (Room.players room)))]).
  { simpl. unfold on_restart_game. rewrite Hroom, Hcre. simpl.
    rewrite reset_players_keys. unfold Obj.keys. now rewrite length_map. }
  rewrite Hh. simpl. rewrite room_at_put.
  repeat split; try reflexivity.
  - apply reset_players_keys.
  - intros n id p Hn. rewrite reset_players_lookup, Hn. reflexivity.
  - apply reset_players_unfinished.
Qed.

Lemma host_restart_resets_in_every_state_witness :
  exists room',
    room_at "ABCD"
      (outcome_world (handle 5000 (RestartGame "a") Examples.racing))
    = Some room'
    /\ Room.raceState room' = WAITING
    /\ Room.obstacles room' = [].
Proof.
  destruct (host_restart_resets_in_every_state 5000 "a" "ABCD"
              (Examples.the_room Examples.racing) Examples.racing)
    as (room' & _ & Hat & Hst & Hobs & _).
  - vm_compute. reflexivity.
  - vm_compute. reflexivity.
  - exists room'. auto.
Defined.

(** C7, counterexample to the claim as stated: in the racing room of the
    example, with obstacles on the road and the speed already ramped, the
    creator's restart-game resets race state, obstacles and difficulty. *)
Lemma host_restart_while_racing_resets :
  let before := Examples.the_room Examples.racing in
  let after :=
    Examples.the_room
      (outcome_world (handle 5000 (RestartGame "a") Examples.racing)) in
  Room.raceState before = RACING
  /\ Room.obstacles before <> []
  /\ ~ (Room.gameSpeed before == BASE_GAME_SPEED)%Q
  /\ Room.raceState after = WAITING
  /\ Room.obstacles after = []
  /\ Room.gameSpeed after = BASE_GAME_SPEED.
Proof.
  vm_compute. repeat split; try discriminate.
Qed.

(** * Collisions *)

Lemma set_set_eq {V} k (v v' : V) o :
  Obj.set k v' (Obj.set k v o) = Obj.set k v' o.
Proof.
  induction o as [|[k1 v1] o IH]; simpl.
  - now rewrite String.eqb_refl.
  - destruct (String.eqb_spec k k1) as [->|Hk]; simpl.
    + now rewrite String.eqb_refl.
    + rewrite (proj2 (String.eqb_neq k k1) Hk). now rewrite IH.
Qed.

Lemma on_collision_player now sid roomCode room player w :
  socket_room sid w = Some (roomCode, room) ->
  Obj.get sid (Room.players room) = Some player ->
  on_collision now sid w
  = (put_room roomCode (moved_room sid (stun now player) room) w, []).
Proof. intros Hroom Hp. unfold on_collision. now rewrite Hroom, Hp. Qed.

(** C8, as the code has it: a collision from a socket with a player sets
    that player's stunned flag and sets stunnedUntil to now + 2000, and
    emits nothing.  A second collision keeps the flag set and moves
    stunnedUntil to the second event's now + 2000, every other field of the
    player staying as it was; only when both events carry the same
    timestamp is the state after the second the state after the first. *)
Theorem collision_stuns_and_rearms (now1 now2 : Z) (sid roomCode : string)
    (room : Room.t) (player : Player.t) (w : World) :
  socket_room sid w = Some (roomCode, room) ->
  Obj.get sid (Room.players room) = Some player ->
  exists w1 w2 room1 room2 p1 p2,
    handle now1 (Collision sid) w = Done w1 []
    /\ handle now2 (Collision sid) w1 = Done w2 []
    /\ room_at roomCode w1 = Some room1
    /\ Obj.get sid (Room.players room1) = Some p1
    /\ Player.stunned p1 = true
    /\ Player.stunnedUntil p1 = now1 + 2000
    /\ room_at roomCode w2 = Some room2
    /\ Obj.get sid (Room.players room2) = Some p2
    /\ Player.stunned p2 = true
    /\ Player.stunnedUntil p2 = now2 + 2000
    /\ p2 = stun now2 p1
    /\ (now2 = now1 -> w2 = w1).
Proof.
  intros Hroom Hp.
  set (room1 := moved_room sid (stun now1 player) room).
  set (w1 := put_room roomCode room1 w).
  assert (Hroom1 : socket_room sid w1 = Some (roomCode, room1))
    by (apply (socket_room_put _ _ room); exact Hroom).
  assert (Hp1 : Obj.get sid (Room.players room1) = Some (stun now1 player))
    by apply get_set_eq.
  set (room2 := moved_room sid (stun now2 (stun now1 player)) room1).
  exists w1, (put_room roomCode room2 w1), room1, room2,
    (stun now1 player), (stun now2 (stun now1 player)).
  split; [simpl; now rewrite (on_collision_player _ _ _ _ _ _ Hroom Hp)|].
  split; [simpl; now rewrite (on_collision_player _ _ _ _ _ _ Hroom1 Hp1)|].
  split; [apply room_at_put|]. split; [exact Hp1|].
  split; [done|]. split; [done|].
  split; [apply room_at_put|]. split; [apply get_set_eq|].
  split; [done|]. split; [done|]. split; [done|].
  intros ->. unfold w1, put_room, room2, room1, moved_room; simpl.
  now rewrite !set_set_eq.
Qed.

Lemma collision_stuns_and_rearms_witness :
  exists w1 w2 room1 room2 p1 p2,
    handle 5000 (Collision "b") Examples.racing = Done w1 []
    /\ handle 6000 (Collision "b") w1 = Done w2 []
    /\ room_at "ABCD" w1 = Some room1
    /\ Obj.get "b" (Room.players room1) = Some p1
    /\ Player.stunned p1 = true
    /\ Player.stunnedUntil p1 = 5000 + 2000
    /\ room_at "ABCD" w2 = Some room2
    /\ Obj.get "b" (Room.players room2) = Some p2
    /\ Player.stunned p2 = true
    /\ Player.stunnedUntil p2 = 6000 + 2000
    /\ p2 = stun 6000 p1
    /\ (6000 = 5000 -> w2 = w1).
Proof.
  apply (collision_stuns_and_rearms 5000 6000 "b" "ABCD"
           (Examples.the_room Examples.racing)
           (default (new_player "" 0) (Examples.the_player "b" Examples.racing))).
  - vm_compute. reflexivity.
  - vm_compute. reflexivity.
Defined.

(** C8, counterexample to idempotence: Bob collides at 5000 and again at
    6000, while still stunned.  After one collision the stun ends at 7000
    and the tick at 7500 clears the flag; after two it ends at 8000 and the
    same tick still reports Bob stunned. *)
Lemma second_collision_extends_stun :
  let once := Examples.after 5000 (Collision "b") Examples.racing in
  let twice := Examples.after 6000 (Collision "b") once in
  (Player.stunnedUntil <$> Examples.the_player "b" once) = Some 7000
  /\ (Player.stunnedUntil <$> Examples.the_player "b" twice) = Some 8000
  /\ (Player.stunned <$>
        Examples.the_player "b"
          (Examples.after 7500 (Tick Examples.draws) once)) = Some false
  /\ (Player.stunned <$>
        Examples.the_player "b"
          (Examples.after 7500 (Tick Examples.draws) twice)) = Some true.
Proof. vm_compute. repeat split. Qed.

(** * The tick, room by room *)

Lemma tick_rooms_keys now rnd rs : forall k,
  Obj.keys (fst (fst (tick_rooms now rnd k rs))) = Obj.keys rs.
Proof.
  induction rs as [|[code room] rs IH]; intros k; simpl; [done|].
  destruct (tick_room now rnd k code room) as [[room' out] k1].
  specialize (IH k1).
  destruct (tick_rooms now rnd k1 rs) as [[rs' out'] k2]. simpl in *.
  unfold Obj.keys in *. simpl. now rewrite IH.
Qed.

(** After a tick, the room under a code is the ticked room of before. *)
Lemma tick_rooms_get now rnd rs : forall k code,
  (Obj.get code rs = None
   /\ Obj.get code (fst (fst (tick_rooms now rnd k rs))) = None)
  \/ (exists room k',
        Obj.get code rs = Some room
        /\ Obj.get code (fst (fst (tick_rooms now rnd k rs)))
           = Some (fst (fst (tick_room now rnd k' code room)))).
Proof.
  induction rs as [|[code1 room1] rs IH]; intros k code; simpl; [now left|].
  destruct (tick_room now rnd k code1 room1) as [[room' out] k1] eqn:E1.
  specialize (IH k1 code).
  destruct (tick_rooms now rnd k1 rs) as [[rs' out'] k2]. simpl in *.
  destruct (String.eqb_spec code code1) as [->|Hne]; [|exact IH].
  right. exists room1, k. now rewrite E1.
Qed.

Lemma tick_countdown_other now roomCode room :
  Room.raceState room <> COUNTDOWN ->
  tick_countdown now roomCode room = (room, []).
Proof.
  intros H. unfold tick_countdown. now rewrite bool_decide_eq_false_2.
Qed.

Lemma tick_racing_other now room :
  Room.raceState room <> RACING -> tick_racing now room = room.
Proof. intros H. unfold tick_racing. now rewrite bool_decide_eq_false_2. Qed.

Lemma tick_obstacles_other rnd k room :
  Room.raceState room <> RACING -> tick_obstacles rnd k room = (room, k).
Proof.
  intros H. unfold tick_obstacles.
  destruct (world_bounds (Room.players room)) as [[mn mx] has].
  now rewrite bool_decide_eq_false_2.
Qed.

(** Outside countdown and racing a tick only broadcasts. *)
Lemma tick_room_idle now rnd k roomCode room :
  Room.raceState room <> COUNTDOWN -> Room.raceState room <> RACING ->
  fst (fst (tick_room now rnd k roomCode room)) = room.
Proof.
  intros Hc Hr. unfold tick_room.
  destruct (0 <? length (Room.members room))%nat; [|done].
  rewrite tick_countdown_other by done.
  rewrite tick_racing_other by done.
  now rewrite tick_obstacles_other.
Qed.

Lemma on_tick_socket_room_idle now rnd sid roomCode room w :
  socket_room sid w = Some (roomCode, room) ->
  Room.raceState room <> COUNTDOWN -> Room.raceState room <> RACING ->
  socket_room sid (fst (on_tick now rnd w)) = Some (roomCode, room).
Proof.
  intros Hroom Hc Hr. unfold socket_room, on_tick in *.
  destruct (tick_rooms now rnd 0 (rooms w)) as [[rs out] k] eqn:E. simpl.
  destruct (socks w !! sid) as [s|]; [|done].
  destruct (Obj.get (Socket.roomCode s) (rooms w)) as [r|] eqn:Hget; [|done].
  injection Hroom as <- <-.
  destruct (tick_rooms_get now rnd (rooms w) 0%nat (Socket.roomCode s))
    as [[Hn _]|(room & k' & Hg & Hg')]; [congruence|].
  rewrite E in Hg'. simpl in Hg'. rewrite Hg'.
  rewrite Hget in Hg. injection Hg as <-.
  now rewrite tick_room_idle.
Qed.

Lemma obstacle_frame_refl r : obstacle_frame r r.
Proof. unfold obstacle_frame. tauto. Qed.

Lemma obstacle_frame_trans r1 r2 r3 :
  obstacle_frame r1 r2 -> obstacle_frame r2 r3 -> obstacle_frame r1 r3.
Proof.
  unfold obstacle_frame. intros H12 H23.
  repeat match goal with H : _ /\ _ |- _ => destruct H end.
  repeat split; congruence.
Qed.

Lemma spawn_one_frame rnd k room : obstacle_frame room (spawn_one rnd k room).
Proof. unfold obstacle_frame, spawn_one. simpl. tauto. Qed.

Lemma spawn_loop_frame rnd thr fuel : forall k room,
  obstacle_frame room (fst (spawn_loop fuel rnd thr k room)).
Proof.
  induction fuel as [|fuel IH]; intros k room; simpl.
  - apply obstacle_frame_refl.
  - destruct (Qltb thr (Room.lastSpawnWorldY room)).
    + eapply obstacle_frame_trans; [apply (spawn_one_frame rnd k)|apply IH].
    + apply obstacle_frame_refl.
Qed.

Lemma tick_obstacles_frame rnd k room :
  obstacle_frame room (fst (tick_obstacles rnd k room)).
Proof.
  unfold tick_obstacles.
  destruct (world_bounds (Room.players room)) as [[mn mx] has].
  destruct (bool_decide (Room.raceState room = RACING));
    [|apply obstacle_frame_refl].
  match goal with
  | |- context [spawn_loop ?f rnd ?t k ?r] =>
      pose proof (spawn_loop_frame rnd t f k r) as Hloop;
      destruct (spawn_loop f rnd t k r) as [room2 k']
  end.
  simpl in *.
  eapply obstacle_frame_trans; [|eapply obstacle_frame_trans; [exact Hloop|]].
  - destruct (Qeq_bool (Room.lastSpawnWorldY room) 0 && has);
      unfold obstacle_frame; simpl; tauto.
  - unfold obstacle_frame, despawn; simpl; tauto.
Qed.

Lemma tick_racing_frame now room : racing_frame room (tick_racing now room).
Proof.
  unfold tick_racing.
  destruct (bool_decide (Room.raceState room = RACING));
    [|unfold racing_frame; tauto].
  unfold expand_road, ramp_speed, update_stuns.
  assert (Hk : Obj.keys
                 (map (fun kv => (fst kv, expire_stun now (snd kv)))
                    (Room.players room)) = Obj.keys (Room.players room)).
  { unfold Obj.keys. rewrite map_map. simpl. reflexivity. }
  repeat match goal with
         | |- context [if ?c then _ else _] => destruct c
         end; unfold racing_frame; simpl; rewrite Hk; tauto.
Qed.

(** * From the server to one room *)

Lemma put_room_cases code r'' w roomCode room' :
  room_at roomCode (put_room code r'' w) = Some room' ->
  (code = roomCode /\ room' = r'')
  \/ (code <> roomCode /\ room_at roomCode w = Some room').
Proof.
  intros H. destruct (String.eqb_spec code roomCode) as [->|Hne].
  - left. rewrite room_at_put in H. now injection H as <-.
  - right. now rewrite room_at_put_ne in H.
Qed.

Lemma finish_positions_app roomCode out out' :
  finish_positions roomCode (out ++ out')
  = finish_positions roomCode out ++ finish_positions roomCode out'.
Proof. apply omap_app. Qed.

Lemma finish_positions_tick_countdown roomCode now code room :
  finish_positions roomCode (snd (tick_countdown now code room)) = [].
Proof.
  unfold tick_countdown.
  repeat match goal with
         | |- context [if ?c then _ else _] => destruct c
         end; reflexivity.
Qed.

Lemma finish_positions_tick_room roomCode now rnd k code room :
  finish_positions roomCode (snd (fst (tick_room now rnd k code room))) = [].
Proof.
  unfold tick_room.
  destruct (0 <? length (Room.members room))%nat; [|done].
  pose proof (finish_positions_tick_countdown roomCode now code room) as Hc.
  destruct (tick_countdown now code room) as [room1 out1].
  destruct (tick_obstacles rnd k (tick_racing now room1)) as [room3 k'].
  simpl in *. rewrite finish_positions_app, Hc. reflexivity.
Qed.

Lemma finish_positions_tick_rooms roomCode now rnd rs : forall k,
  finish_positions roomCode (snd (fst (tick_rooms now rnd k rs))) = [].
Proof.
  induction rs as [|[code room] rs IH]; intros k; simpl; [done|].
  pose proof (finish_positions_tick_room roomCode now rnd k code room) as H1.
  destruct (tick_room now rnd k code room) as [[room' out] k1].
  specialize (IH k1).
  destruct (tick_rooms now rnd k1 rs) as [[rs' out'] k2]. simpl in *.
  now rewrite finish_positions_app, H1, IH.
Qed.

Section RoomEffect.
Variables (now : Z) (roomCode : string) (w : World) (room' : Room.t).

Local Ltac unchanged := left; split; [assumption|reflexivity].

(* the listener rewrote the room under [code]: ours, or another one *)
Local Ltac rewritten Hat Hsr tac :=
  apply put_room_cases in Hat as [[-> ->]|[Hne Hat]];
  [ right; left; eexists; split;
    [apply (socket_room_at _ _ _ _ Hsr)|tac]
  | left; split; [assumption|
      try reflexivity;
      simpl; rewrite ?(proj2 (String.eqb_neq _ _) Hne); reflexivity] ].

Lemma effect_set_race_distance sid parsed :
  room_at roomCode (outcome_world (handle now (SetRaceDistance sid parsed) w))
  = Some room' ->
  room_effect now roomCode (SetRaceDistance sid parsed) w room'.
Proof.
  unfold room_effect. simpl. unfold on_set_race_distance.
  destruct (socket_room sid w) as [[code r]|] eqn:Hsr; simpl;
    [|intros; unchanged].
  destruct (is_creator sid r) eqn:Hc; simpl; [|intros; unchanged].
  destruct (bool_decide (Room.raceState r = WAITING)) eqn:Hs; simpl;
    [|intros; unchanged].
  apply bool_decide_eq_true in Hs. intros Hat.
  rewritten Hat Hsr ltac:(simpl; now constructor).
Qed.

Lemma effect_start_race sid :
  room_at roomCode (outcome_world (handle now (StartRace sid) w))
  = Some room' ->
  room_effect now roomCode (StartRace sid) w room'.
Proof.
  unfold room_effect. simpl. unfold on_start_race.
  destruct (socket_room sid w) as [[code r]|] eqn:Hsr; simpl;
    [|intros; unchanged].
  destruct (is_creator sid r) eqn:Hc; simpl; [|intros; unchanged].
  destruct (length (Obj.keys (Room.players r)) <? MIN_PLAYERS_TO_START)%nat;
    simpl; [intros; unchanged|].
  destruct (bool_decide (Room.raceState r = WAITING)) eqn:Hs; simpl;
    [|intros; unchanged].
  apply bool_decide_eq_true in Hs. intros Hat.
  rewritten Hat Hsr ltac:(simpl; now constructor).
Qed.

Lemma effect_toggle_pause sid :
  room_at roomCode (outcome_world (handle now (TogglePause sid) w))
  = Some room' ->
  room_effect now roomCode (TogglePause sid) w room'.
Proof.
  unfold room_effect. simpl. unfold on_toggle_pause.
  destruct (socket_room sid w) as [[code r]|] eqn:Hsr; simpl;
    [|intros; unchanged].
  destruct (is_creator sid r) eqn:Hc; simpl; [|intros; unchanged].
  destruct (bool_decide (Room.raceState r = RACING)) eqn:Hs; simpl.
  { apply bool_decide_eq_true in Hs. intros Hat.
    rewritten Hat Hsr ltac:(simpl; now constructor). }
  destruct (bool_decide (Room.raceState r = PAUSED)) eqn:Hp; simpl;
    [|intros; unchanged].
  apply bool_decide_eq_true in Hp. intros Hat.
  rewritten Hat Hsr ltac:(simpl; now apply rs_resume).
Qed.

Lemma effect_restart_game sid :
  room_at roomCode (outcome_world (handle now (RestartGame sid) w))
  = Some room' ->
  room_effect now roomCode (RestartGame sid) w room'.
Proof.
  unfold room_effect. simpl. unfold on_restart_game.
  destruct (socket_room sid w) as [[code r]|] eqn:Hsr; simpl;
    [|intros; unchanged].
  destruct (is_creator sid r) eqn:Hc; simpl; [|intros; unchanged].
  intros Hat. rewritten Hat Hsr ltac:(simpl; now constructor).
Qed.

Lemma effect_collision sid :
  room_at roomCode (outcome_world (handle now (Collision sid) w))
  = Some room' ->
  room_effect now roomCode (Collision sid) w room'.
Proof.
  unfold room_effect. simpl. unfold on_collision.
  destruct (socket_room sid w) as [[code r]|] eqn:Hsr; simpl;
    [|intros; unchanged].
  destruct (Obj.get sid (Room.players r)) as [player|] eqn:Hp; simpl;
    [|intros; unchanged].
  intros Hat. rewritten Hat Hsr ltac:(simpl; now constructor).
Qed.
End RoomEffect.

Lemma on_player_update_racing now sid data w code r player :
  socket_room sid w = Some (code, r) ->
  Obj.get sid (Room.players r) = Some player ->
  Room.raceState r = RACING ->
  Player.finished player = false ->
  let room1 :=
    finished_room sid (finishing_player now sid (apply_update data player) r) r in
  let finished_ev :=
    mkEmit (ToRoom code)
      (EvPlayerFinished (Player.name player)
         (Some (length (Room.finishOrder room1)))
         (Some (now - num (Room.raceStartTime r)))) in
  on_player_update now sid data w
  = if crosses_line r (apply_update data player) then
      if forallb Player.finished (Obj.values (Room.players room1)) then
        match race_results (Room.players room1) 0 (Room.finishOrder room1) with
        | Some results =>
            Done (put_room code (Room.set_raceState FINISHED room1) w)
                 [finished_ev; mkEmit (ToRoom code) (EvRaceFinished results)]
        | None =>
            Threw (put_room code (Room.set_raceState FINISHED room1) w)
                  [finished_ev]
        end
      else Done (put_room code room1 w) [finished_ev]
    else Done (put_room code (moved_room sid (apply_update data player) r) w) [].
Proof.
  intros Hsr Hp Hs Hf. unfold on_player_update.
  rewrite Hsr, Hp, Hf, Hs. reflexivity.
Qed.

Lemma effect_player_update now roomCode w room' sid data :
  room_at roomCode (outcome_world (handle now (PlayerUpdate sid data) w))
  = Some room' ->
  room_effect now roomCode (PlayerUpdate sid data) w room'.
Proof.
  unfold room_effect. cbn [handle].
  destruct (socket_room sid w) as [[code r]|] eqn:Hsr;
    [|unfold on_player_update; rewrite Hsr; intros; left; now split].
  destruct (Obj.get sid (Room.players r)) as [player|] eqn:Hp;
    [|unfold on_player_update; rewrite Hsr, Hp; intros; left; now split].
  destruct (bool_decide (Room.raceState r = RACING)) eqn:Hs;
    [|unfold on_player_update; rewrite Hsr, Hp, Hs; intros; left; now split].
  apply bool_decide_eq_true in Hs.
  destruct (Player.finished player) eqn:Hf;
    [unfold on_player_update; rewrite Hsr, Hp, Hf, andb_false_r;
     intros; left; now split|].
  rewrite (on_player_update_racing _ _ _ _ _ _ _ Hsr Hp Hs Hf).
  pose proof (socket_room_at _ _ _ _ Hsr) as Hr.
  set (room1 := finished_room sid
                  (finishing_player now sid (apply_update data player) r) r).
  destruct (crosses_line r (apply_update data player)) eqn:Hx.
  2:{ cbn [outcome_world outcome_emits]. intros Hat.
      apply put_room_cases in Hat as [[-> ->]|[Hne Hat]].
      - right. left. exists r. split; [done|]. now constructor.
      - left. now split. }
  assert (Hfin : forall name time out,
            finish_positions roomCode
              (mkEmit (ToRoom code)
                 (EvPlayerFinished name
                    (Some (length (Room.finishOrder room1))) time) :: out)
            = (if String.eqb code roomCode
               then [Some (length (Room.finishOrder room1))] else [])
              ++ finish_positions roomCode out).
  { intros name time out. unfold finish_positions. cbn [omap list_omap].
    unfold finish_position_of at 1.
    destruct (String.eqb code roomCode); reflexivity. }
  destruct (forallb Player.finished (Obj.values (Room.players room1))) eqn:Hall.
  - destruct (race_results (Room.players room1) 0 (Room.finishOrder room1))
      as [results|]; cbn [outcome_world outcome_emits]; intros Hat;
      apply put_room_cases in Hat as [[-> ->]|[Hne Hat]].
    + right. left. exists r. split; [done|].
      rewrite Hfin, String.eqb_refl.
      now apply (rs_finish_last now roomCode r sid data player room1).
    + left. split; [done|].
      rewrite Hfin, (proj2 (String.eqb_neq _ _) Hne). reflexivity.
    + right. left. exists r. split; [done|].
      rewrite Hfin, String.eqb_refl.
      now apply (rs_finish_last now roomCode r sid data player room1).
    + left. split; [done|].
      rewrite Hfin, (proj2 (String.eqb_neq _ _) Hne). reflexivity.
  - cbn [outcome_world outcome_emits]. intros Hat.
    apply put_room_cases in Hat as [[-> ->]|[Hne Hat]].
    + right. left. exists r. split; [done|].
      rewrite Hfin, String.eqb_refl.
      now apply (rs_finish now roomCode r sid data player room1).
    + left. split; [done|].
      rewrite Hfin, (proj2 (String.eqb_neq _ _) Hne). reflexivity.
Qed.

Lemma effect_join_room now roomCode w room' sid code name :
  room_at roomCode (outcome_world (handle now (JoinRoom sid code name) w))
  = Some room' ->
  room_effect now roomCode (JoinRoom sid code name) w room'.
Proof.
  unfold room_effect. cbn [handle]. rewrite on_join_room_cases.
  destruct (negb (truthy_str code) || negb (truthy_str name)); simpl;
    [intros; left; now split|].
  unfold room_at.
  destruct (Obj.get code (rooms w)) as [r|] eqn:Hget.
  - (* the room exists *)
    destruct (race_in_progress r) eqn:Hprog; simpl;
      [intros; left; now split|].
    intros Hat. destruct (String.eqb_spec code roomCode) as [->|Hne].
    + rewrite get_set_eq in Hat. injection Hat as <-.
      right. left. exists r. split; [done|]. now constructor.
    + rewrite get_set_ne in Hat by done. left. now split.
  - destruct (inherited code); simpl; [intros; left; now split|].
    (* the join creates it *)
    intros Hat. destruct (String.eqb_spec code roomCode) as [->|Hne].
    + rewrite get_add_eq in Hat by done. injection Hat as <-.
      right. right. split; [done|]. split; [reflexivity|]. eauto.
    + rewrite get_add_ne in Hat by done. left. now split.
Qed.

Lemma effect_disconnect now roomCode w room' sid :
  NoDup (Obj.keys (rooms w)) ->
  room_at roomCode (outcome_world (handle now (Disconnect sid) w))
  = Some room' ->
  room_effect now roomCode (Disconnect sid) w room'.
Proof.
  intros Hnd. unfold room_effect. simpl. unfold on_disconnect.
  destruct (socks w !! sid) as [s|]; simpl; [|intros; left; now split].
  unfold room_at.
  destruct (Obj.get (Socket.roomCode s) (rooms w)) as [r|] eqn:Hget; simpl;
    [|intros; left; now split].
  match goal with
  | |- context [if ?c then _ else _] => destruct c eqn:Hlen
  end; simpl; intros Hat;
    destruct (String.eqb_spec (Socket.roomCode s) roomCode) as [He|Hne].
  - rewrite He in Hat. now rewrite get_del_eq in Hat.
  - rewrite get_del_ne in Hat by done. left. split; [done|].
    unfold finish_positions. simpl. reflexivity.
  - rewrite He in *. rewrite get_set_eq in Hat. injection Hat as <-.
    right. left. exists r. split; [done|].
    unfold finish_positions. simpl. constructor.
    unfold left_room. simpl. intros Hnil. rewrite Hnil in Hlen. discriminate.
  - rewrite get_set_ne in Hat by done. left. split; [done|].
    unfold finish_positions. simpl. reflexivity.
Qed.

Lemma effect_tick now roomCode w room' rnd :
  room_at roomCode (outcome_world (handle now (Tick rnd) w)) = Some room' ->
  room_effect now roomCode (Tick rnd) w room'.
Proof.
  unfold room_effect, room_at. simpl. unfold on_tick.
  pose proof (finish_positions_tick_rooms roomCode now rnd (rooms w) 0%nat)
    as Hfin.
  destruct (tick_rooms_get now rnd (rooms w) 0%nat roomCode)
    as [[Hn Hn']|(room & k' & Hg & Hg')];
    destruct (tick_rooms now rnd 0 (rooms w)) as [[rs out] k]; simpl in *.
  - congruence.
  - intros Hat. rewrite Hg' in Hat. injection Hat as <-.
    right. left. exists room. split; [done|]. rewrite Hfin. constructor.
Qed.

(** Every room of the table after an input is explained by [room_effect]. *)
Lemma handle_room_effect now roomCode i w room' :
  NoDup (Obj.keys (rooms w)) ->
  room_at roomCode (outcome_world (handle now i w)) = Some room' ->
  room_effect now roomCode i w room'.
Proof.
  intros Hnd. destruct i.
  - apply effect_join_room.
  - apply effect_set_race_distance.
  - apply effect_start_race.
  - apply effect_toggle_pause.
  - apply effect_player_update.
  - apply effect_restart_game.
  - apply effect_collision.
  - now apply effect_disconnect.
  - apply effect_tick.
Qed.

(** * Reachable worlds *)

Lemma handle_NoDup now i w :
  NoDup (Obj.keys (rooms w)) ->
  NoDup (Obj.keys (rooms (outcome_world (handle now i w)))).
Proof.
  intros Hnd.
  assert (Hput : forall code r, NoDup (Obj.keys (rooms (put_room code r w))))
    by (intros; now apply NoDup_keys_set).
  destruct i; cbn [handle].
  - rewrite on_join_room_cases. cbv zeta.
    destruct (negb (truthy_str roomCode) || negb (truthy_str name)); [done|].
    destruct (Obj.get roomCode (rooms w)) as [r|] eqn:Hget.
    + destruct (race_in_progress r); cbn [outcome_world rooms];
        auto using NoDup_keys_set.
    + destruct (inherited roomCode); cbn [outcome_world rooms];
        auto using NoDup_keys_add.
  - unfold on_set_race_distance.
    repeat match goal with
           | |- context [if ?c then _ else _] => destruct c
           | |- context [match ?x with Some _ => _ | None => _ end] =>
               destruct x as [[? ?]|]
           end; unfold done; cbn [outcome_world fst]; auto.
  - unfold on_start_race.
    repeat match goal with
           | |- context [if ?c then _ else _] => destruct c
           | |- context [match ?x with Some _ => _ | None => _ end] =>
               destruct x as [[? ?]|]
           end; unfold done; cbn [outcome_world fst]; auto.
  - unfold on_toggle_pause.
    repeat match goal with
           | |- context [if ?c then _ else _] => destruct c
           | |- context [match ?x with Some _ => _ | None => _ end] =>
               destruct x as [[? ?]|]
           end; unfold done; cbn [outcome_world fst]; auto.
  - unfold on_player_update.
    destruct (socket_room sid w) as [[code r]|]; [|done].
    destruct (Obj.get sid (Room.players r)) as [player|]; [|done].
    repeat match goal with
           | |- context [if ?c then _ else _] => destruct c
           | |- context [match ?x with Some _ => _ | None => _ end] =>
               destruct x
           end; cbn [outcome_world]; auto.
  - unfold on_restart_game.
    repeat match goal with
           | |- context [if ?c then _ else _] => destruct c
           | |- context [match ?x with Some _ => _ | None => _ end] =>
               destruct x as [[? ?]|]
           end; unfold done; cbn [outcome_world fst]; auto.
  - unfold on_collision.
    destruct (socket_room sid w) as [[code r]|]; [|done].
    destruct (Obj.get sid (Room.players r)) as [player|];
      unfold done; cbn [outcome_world fst]; auto.
  - unfold on_disconnect.
    repeat match goal with
           | |- context [if ?c then _ else _] => destruct c
           | |- context [match ?x with Some _ => _ | None => _ end] =>
               destruct x
           end; unfold done; cbn [outcome_world fst rooms];
      auto using NoDup_keys_set, NoDup_keys_del.
  - unfold on_tick.
    pose proof (tick_rooms_keys now rnd (rooms w) 0%nat) as Hk.
    destruct (tick_rooms now rnd 0 (rooms w)) as [[rs out] k].
    unfold done; cbn [outcome_world fst rooms] in *. now rewrite Hk.
Qed.

Lemma reachable_NoDup w : reachable w -> NoDup (Obj.keys (rooms w)).
Proof.
  induction 1 as [|w now i w' out Hw IH Hh].
  - constructor.
  - pose proof (handle_NoDup now i w IH) as H. now rewrite Hh in H.
Qed.

(** A property of rooms that holds of a room just created by its first
    join and is kept by every room step holds of every room of every
    reachable world. *)
Lemma reachable_rooms (P : Room.t -> Prop) :
  (forall now sid name, P (joined_room sid name (new_room now sid))) ->
  (forall now roomCode room i room' fin,
      P room -> room_step now roomCode room i room' fin -> P room') ->
  forall w, reachable w ->
  forall roomCode room, room_at roomCode w = Some room -> P room.
Proof.
  intros Hnew Hstep w Hw.
  induction Hw as [|w now i w' out Hw IH Hh]; intros roomCode room Hat.
  - discriminate.
  - assert (Hat' : room_at roomCode (outcome_world (handle now i w))
                   = Some room) by now rewrite Hh.
    apply handle_room_effect in Hat'; [|now apply reachable_NoDup].
    destruct Hat' as [[Hsame _]|[(room0 & H0 & Hs)
                                  |(_ & _ & sid & name & _ & ->)]].
    + eapply IH; eauto.
    + eapply Hstep; [|exact Hs]. eapply IH; eauto.
    + apply Hnew.
Qed.

(** * Difficulty *)

Lemma tick_room_room now rnd k roomCode room :
  fst (fst (tick_room now rnd k roomCode room))
  = if (0 <? length (Room.members room))%nat
    then fst (tick_obstacles rnd k
                (tick_racing now (fst (tick_countdown now roomCode room))))
    else room.
Proof.
  unfold tick_room.
  destruct (0 <? length (Room.members room))%nat; [|done].
  destruct (tick_countdown now roomCode room) as [room1 out1].
  simpl. now destruct (tick_obstacles rnd k (tick_racing now room1)).
Qed.

Lemma Qltb_lt a b : Qltb a b = true <-> (a < b)%Q.
Proof.
  unfold Qltb. rewrite negb_true_iff, <- not_true_iff_false, Qle_bool_iff.
  split; [apply Qnot_le_lt | apply Qlt_not_le].
Qed.

Lemma Qltb_ge a b : Qltb a b = false <-> (b <= a)%Q.
Proof.
  unfold Qltb. rewrite negb_false_iff. apply Qle_bool_iff.
Qed.

Lemma ramp_speed_spec room :
  (Room.gameSpeed room <= Room.gameSpeed (ramp_speed room))%Q
  /\ ((Room.gameSpeed room <= MAX_GAME_SPEED)%Q ->
      (Room.gameSpeed (ramp_speed room) <= MAX_GAME_SPEED)%Q)
  /\ Room.roadWidth (ramp_speed room) = Room.roadWidth room.
Proof.
  unfold ramp_speed.
  destruct (Qltb (Room.gameSpeed room) MAX_GAME_SPEED) eqn:Hlt; simpl.
  - apply Qltb_lt in Hlt. split; [|split; [|done]].
    + apply Q.min_glb; unfold SPEED_INCREMENT_PER_TICK in *; lra.
    + intros _. apply Q.le_min_r.
  - split; [lra|]. split; [tauto|done].
Qed.

Lemma expand_road_spec now room :
  (0 <= Room.roadWidth room)%Q ->
  (Room.roadWidth room <= MAX_ROAD_WIDTH)%Q ->
  (Room.roadWidth room <= Room.roadWidth (expand_road now room))%Q
  /\ (Room.roadWidth (expand_road now room) <= MAX_ROAD_WIDTH)%Q
  /\ Room.gameSpeed (expand_road now room) = Room.gameSpeed room.
Proof.
  intros H0 Hmax. unfold expand_road.
  destruct (ROAD_EXPANSION_INTERVAL <=? now - Room.lastExpansionTime room);
    simpl.
  - split; [|split; [apply Q.le_min_r|done]].
    apply Q.min_glb; [|done]. unfold ROAD_EXPANSION_RATE. lra.
  - split; [lra|]. split; [done|done].
Qed.

(** Caps and monotonicity do not depend on arithmetic being exact: they
    hold for any rounding that is monotone and leaves the stored value
    alone, with a non-negative increment and a rate of at least 1. *)
Section Rounding.
Variable round : Q -> Q.
Hypothesis round_mono : forall x y, (x <= y)%Q -> (round x <= round y)%Q.

Lemma rounded_speed_spec increment gameSpeed :
  (0 <= increment)%Q ->
  (round gameSpeed == gameSpeed)%Q ->
  (gameSpeed <= rounded_speed round increment gameSpeed)%Q
  /\ ((gameSpeed <= MAX_GAME_SPEED)%Q ->
      (rounded_speed round increment gameSpeed <= MAX_GAME_SPEED)%Q).
Proof.
  intros Hinc Hfix. unfold rounded_speed.
  destruct (Qltb gameSpeed MAX_GAME_SPEED) eqn:Hlt.
  - apply Qltb_lt in Hlt. split; [|intros _; apply Q.le_min_r].
    apply Q.min_glb; [|lra].
    rewrite <- Hfix at 1. apply round_mono. lra.
  - split; [apply Qle_refl|tauto].
Qed.

Lemma rounded_width_spec rate roadWidth :
  (1 <= rate)%Q ->
  (round roadWidth == roadWidth)%Q ->
  (0 <= roadWidth)%Q -> (roadWidth <= MAX_ROAD_WIDTH)%Q ->
  (roadWidth <= rounded_width round rate roadWidth)%Q
  /\ (rounded_width round rate roadWidth <= MAX_ROAD_WIDTH)%Q.
Proof.
  intros Hrate Hfix H0 Hmax. unfold rounded_width.
  split; [|apply Q.le_min_r].
  apply Q.min_glb; [|exact Hmax].
  rewrite <- Hfix at 1. apply round_mono. nra.
Qed.
End Rounding.

Lemma ramp_speed_exact room :
  Room.gameSpeed (ramp_speed room)
  = rounded_speed (fun x => x) SPEED_INCREMENT_PER_TICK (Room.gameSpeed room).
Proof.
  unfold ramp_speed, rounded_speed.
  now destruct (Qltb (Room.gameSpeed room) MAX_GAME_SPEED).
Qed.

Lemma expand_road_exact now room :
  ROAD_EXPANSION_INTERVAL <= now - Room.lastExpansionTime room ->
  Room.roadWidth (expand_road now room)
  = rounded_width (fun x => x) ROAD_EXPANSION_RATE (Room.roadWidth room).
Proof.
  intros H. unfold expand_road, rounded_width.
  now rewrite (proj2 (Z.leb_le _ _) H).
Qed.

Lemma tick_racing_difficulty now room :
  difficulty_in_range room ->
  difficulty_in_range (tick_racing now room)
  /\ (Room.gameSpeed room <= Room.gameSpeed (tick_racing now room))%Q
  /\ (Room.roadWidth room <= Room.roadWidth (tick_racing now room))%Q.
Proof.
  unfold difficulty_in_range, tick_racing. intros (Hg1 & Hg2 & Hw1 & Hw2).
  destruct (bool_decide (Room.raceState room = RACING)).
  2:{ repeat split; try assumption; lra. }
  set (room1 := update_stuns now room).
  assert (Hs1 : Room.gameSpeed room1 = Room.gameSpeed room) by reflexivity.
  assert (Hr1 : Room.roadWidth room1 = Room.roadWidth room) by reflexivity.
  destruct (ramp_speed_spec room1) as (Ha & Hb & Hc).
  rewrite Hs1 in Ha, Hb. specialize (Hb Hg2).
  destruct (expand_road_spec now (ramp_speed room1)) as (Hd & He & Hf).
  { rewrite Hc, Hr1. unfold BASE_ROAD_WIDTH in Hw1. lra. }
  { now rewrite Hc, Hr1. }
  rewrite Hc, Hr1 in Hd. rewrite Hf.
  repeat split; try assumption; lra.
Qed.

Lemma tick_countdown_difficulty now roomCode room :
  let room1 := fst (tick_countdown now roomCode room) in
  Room.roadWidth room1 = Room.roadWidth room
  /\ (Room.raceState room <> COUNTDOWN -> room1 = room)
  /\ (Room.raceState room = COUNTDOWN ->
      if COUNTDOWN_SECONDS * 1000 <=? now - num (Room.countdownStartTime room)
      then Room.raceState room1 = RACING
           /\ Room.gameSpeed room1 = BASE_GAME_SPEED
           /\ Room.raceStartTime room1 = Some now
      else Room.raceState room1 = COUNTDOWN
           /\ Room.gameSpeed room1 = Room.gameSpeed room).
Proof.
  unfold tick_countdown.
  destruct (bool_decide (Room.raceState room = COUNTDOWN)) eqn:Hs; simpl.
  - apply bool_decide_eq_true in Hs.
    repeat match goal with
           | |- context [if ?c then _ else _] => destruct c
           end; simpl; repeat split; try assumption; try reflexivity;
      intros; congruence.
  - apply bool_decide_eq_false in Hs. repeat split; try reflexivity; tauto.
Qed.

Lemma difficulty_in_range_ext r r' :
  Room.gameSpeed r' = Room.gameSpeed r ->
  Room.roadWidth r' = Room.roadWidth r ->
  difficulty_in_range r -> difficulty_in_range r'.
Proof. unfold difficulty_in_range. now intros -> ->. Qed.

Lemma tick_room_difficulty now rnd k roomCode room :
  difficulty_in_range room ->
  difficulty_in_range (fst (fst (tick_room now rnd k roomCode room))).
Proof.
  intros Hin. rewrite tick_room_room.
  destruct (0 <? length (Room.members room))%nat; [|done].
  destruct (tick_obstacles_frame rnd k
              (tick_racing now (fst (tick_countdown now roomCode room))))
    as (_ & _ & _ & Hw & Hg & _).
  apply (difficulty_in_range_ext _ _ Hg Hw).
  apply tick_racing_difficulty.
  destruct (tick_countdown_difficulty now roomCode room) as (Hw1 & Hne & Heq).
  destruct (decide (Room.raceState room = COUNTDOWN)) as [Hc|Hc].
  - specialize (Heq Hc). unfold difficulty_in_range in *.
    destruct Hin as (Hg1 & Hg2 & Hw3 & Hw4).
    destruct (COUNTDOWN_SECONDS * 1000 <=?
                now - num (Room.countdownStartTime room)).
    + destruct Heq as (_ & -> & _). rewrite Hw1.
      repeat split; try assumption; unfold BASE_GAME_SPEED, MAX_GAME_SPEED; lra.
    + destruct Heq as (_ & ->). now rewrite Hw1.
  - now rewrite (Hne Hc).
Qed.

Lemma room_step_difficulty now roomCode room i room' fin :
  difficulty_in_range room ->
  room_step now roomCode room i room' fin ->
  difficulty_in_range room'.
Proof.
  intros Hin Hstep.
  destruct Hstep; subst; try exact Hin;
    try (now apply tick_room_difficulty).
  unfold difficulty_in_range, restart_room; simpl.
  unfold BASE_GAME_SPEED, MAX_GAME_SPEED, BASE_ROAD_WIDTH, MAX_ROAD_WIDTH.
  repeat split; lra.
Qed.

Lemma reachable_difficulty w roomCode room :
  reachable w -> room_at roomCode w = Some room -> difficulty_in_range room.
Proof.
  intros Hw. revert roomCode room.
  apply (reachable_rooms difficulty_in_range); [| |exact Hw].
  - intros now sid name. unfold difficulty_in_range, new_room; simpl.
    unfold BASE_GAME_SPEED, MAX_GAME_SPEED, BASE_ROAD_WIDTH, MAX_ROAD_WIDTH.
    repeat split; lra.
  - intros now roomCode room i room' fin Hin Hs.
    eapply room_step_difficulty; eauto.
Qed.

Lemma tick_racing_gameSpeed now room :
  Room.raceState room = RACING ->
  Room.gameSpeed (tick_racing now room)
  = if Qltb (Room.gameSpeed room) MAX_GAME_SPEED
    then Qmin (Room.gameSpeed room + SPEED_INCREMENT_PER_TICK) MAX_GAME_SPEED
    else Room.gameSpeed room.
Proof.
  intros Hs. unfold tick_racing. rewrite bool_decide_eq_true_2 by done.
  unfold expand_road.
  destruct (ROAD_EXPANSION_INTERVAL <=?
              now - Room.lastExpansionTime (ramp_speed (update_stuns now room)));
    simpl; unfold ramp_speed; simpl;
    destruct (Qltb (Room.gameSpeed room) MAX_GAME_SPEED); reflexivity.
Qed.

Lemma room_step_monotone now roomCode room i room' fin :
  difficulty_in_range room ->
  race_on room -> race_on room' ->
  room_step now roomCode room i room' fin ->
  (Room.gameSpeed room <= Room.gameSpeed room')%Q
  /\ (Room.roadWidth room <= Room.roadWidth room')%Q.
Proof.
  intros Hin Hon Hon' Hstep.
  assert (Hnc : Room.raceState room <> COUNTDOWN)
    by (destruct Hon as [H|[H|H]]; rewrite H; discriminate).
  destruct Hstep; subst;
    try (split; apply Qle_refl);
    try (exfalso; destruct Hon as [Hr|[Hr|Hr]]; congruence);
    try (exfalso; destruct Hon' as [Hr|[Hr|Hr]]; simpl in Hr; congruence).
  (* what is left is the tick *)
  rewrite tick_room_room.
  destruct (0 <? length (Room.members room))%nat;
    [|split; apply Qle_refl].
  destruct (tick_countdown_difficulty now roomCode room) as (_ & Hne & _).
  rewrite (Hne Hnc).
  destruct (tick_obstacles_frame rnd k (tick_racing now room))
    as (_ & _ & _ & Hw & Hg & _).
  rewrite Hw, Hg. now apply tick_racing_difficulty.
Qed.

Lemma handle_monotone now i w roomCode room room' :
  reachable w ->
  room_at roomCode w = Some room ->
  room_at roomCode (outcome_world (handle now i w)) = Some room' ->
  race_on room -> race_on room' ->
  (Room.gameSpeed room <= Room.gameSpeed room')%Q
  /\ (Room.roadWidth room <= Room.roadWidth room')%Q.
Proof.
  intros Hw Hat Hat' Hon Hon'.
  apply handle_room_effect in Hat'; [|now apply reachable_NoDup].
  pose proof (reachable_difficulty w roomCode room Hw Hat) as Hin.
  destruct Hat' as [[Hsame _]|[(room0 & H0 & Hs)|(H0 & _)]].
  - assert (room' = room) as -> by congruence. split; apply Qle_refl.
  - assert (room0 = room) as -> by congruence.
    eapply room_step_monotone; eauto.
  - congruence.
Qed.

Lemma in_race_room roomCode w :
  in_race roomCode w ->
  exists room, room_at roomCode w = Some room /\ race_on room.
Proof.
  unfold in_race. destruct (room_at roomCode w) as [room|]; [eauto|done].
Qed.

Lemma one_race_in_race roomCode evs w :
  one_race roomCode evs w -> in_race roomCode w.
Proof. destruct evs; simpl; tauto. Qed.

(** Over the inputs of one race the difficulty state never goes down. *)
Lemma run_monotone roomCode evs : forall w room,
  reachable w ->
  room_at roomCode w = Some room ->
  one_race roomCode evs w ->
  exists room',
    room_at roomCode (outcome_world (run evs w)) = Some room'
    /\ (Room.gameSpeed room <= Room.gameSpeed room')%Q
    /\ (Room.roadWidth room <= Room.roadWidth room')%Q.
Proof.
  induction evs as [|[now i] evs IH]; intros w room Hw Hat [Hin Hrest].
  - exists room. simpl. split; [done|]. split; apply Qle_refl.
  - simpl in *.
    destruct (in_race_room _ _ Hin) as (room0 & Hat0 & Hon).
    assert (room0 = room) as -> by congruence.
    destruct (handle now i w) as [w1 out1|w1 out1] eqn:Hh.
    + pose proof (one_race_in_race _ _ _ Hrest) as Hin1.
      destruct (in_race_room _ _ Hin1) as (room1 & Hat1 & Hon1).
      destruct (handle_monotone now i w roomCode room room1 Hw Hat)
        as (Hg1 & Hw1); [now rewrite Hh|exact Hon|exact Hon1|].
      destruct (IH w1 room1) as (room' & Hat' & Hg & Hwd);
        [eapply reachable_step; eauto|exact Hat1|exact Hrest|].
      exists room'.
      destruct (run evs w1) as [w2 out2|w2 out2]; simpl in *;
        (split; [exact Hat'|]); split; lra.
    + destruct (in_race_room _ _ Hrest) as (room1 & Hat1 & Hon1).
      destruct (handle_monotone now i w roomCode room room1 Hw Hat)
        as (Hg1 & Hw1); [now rewrite Hh|exact Hon|exact Hon1|].
      exists room1. simpl. auto.
Qed.

(** C6: in every reachable world gameSpeed is at most MAX_GAME_SPEED and
    roadWidth at most MAX_ROAD_WIDTH; over any inputs handled within one
    race (the room racing, paused in between, or finished) -- from tick to
    tick in particular -- neither gameSpeed nor roadWidth decreases; and
    the countdown step of a
    tick sets gameSpeed to BASE_GAME_SPEED when, and only when, it moves
    the room from countdown to racing, the ramp of that same tick then
    starting from the base value. *)
Theorem difficulty_capped_and_monotone :
  (forall w roomCode room,
      reachable w -> room_at roomCode w = Some room ->
      (Room.gameSpeed room <= MAX_GAME_SPEED)%Q
      /\ (Room.roadWidth room <= MAX_ROAD_WIDTH)%Q)
  /\ (forall roomCode evs w room,
         reachable w -> room_at roomCode w = Some room ->
         one_race roomCode evs w ->
         exists room',
           room_at roomCode (outcome_world (run evs w)) = Some room'
           /\ (Room.gameSpeed room <= Room.gameSpeed room')%Q
           /\ (Room.roadWidth room <= Room.roadWidth room')%Q)
  /\ (forall now rnd k roomCode room,
         Room.raceState room = COUNTDOWN ->
         let room1 := fst (tick_countdown now roomCode room) in
         let room3 := fst (fst (tick_room now rnd k roomCode room)) in
         if COUNTDOWN_SECONDS * 1000 <=? now - num (Room.countdownStartTime room)
         then Room.raceState room1 = RACING
              /\ Room.gameSpeed room1 = BASE_GAME_SPEED
              /\ (Room.members room <> [] ->
                  Room.raceState room3 = RACING
                  /\ (Room.gameSpeed room3
                      == BASE_GAME_SPEED + SPEED_INCREMENT_PER_TICK)%Q)
         else Room.raceState room1 = COUNTDOWN
              /\ Room.gameSpeed room1 = Room.gameSpeed room
              /\ Room.raceState room3 = COUNTDOWN
              /\ Room.gameSpeed room3 = Room.gameSpeed room).
Proof.
  split; [|split].
  - intros w roomCode room Hw Hat.
    destruct (reachable_difficulty w roomCode room Hw Hat) as (_ & H1 & _ & H2).
    now split.
  - intros roomCode evs w room. apply run_monotone.
  - intros now rnd k roomCode room Hc room1 room3.
    destruct (tick_countdown_difficulty now roomCode room) as (Hw1 & _ & Heq).
    specialize (Heq Hc). fold room1 in Heq, Hw1.
    assert (Hroom3 : room3
                     = if (0 <? length (Room.members room))%nat
                       then fst (tick_obstacles rnd k (tick_racing now room1))
                       else room) by apply tick_room_room.
    destruct (tick_obstacles_frame rnd k (tick_racing now room1))
      as (_ & _ & _ & _ & Hg & _ & _ & _ & Hst & _).
    destruct (COUNTDOWN_SECONDS * 1000 <=?
                now - num (Room.countdownStartTime room)).
    + destruct Heq as (Hs1 & Hg1 & _). split; [done|]. split; [done|].
      intros Hm. destruct (Room.members room) as [|m ms]; [done|].
      simpl in Hroom3. rewrite Hroom3, Hst, Hg.
      destruct (tick_racing_frame now room1)
        as (_ & _ & _ & _ & _ & _ & _ & Hst2 & _).
      rewrite Hst2, (tick_racing_gameSpeed now room1 Hs1), Hg1.
      split; [done|].
      replace (Qltb BASE_GAME_SPEED MAX_GAME_SPEED) with true by reflexivity.
      apply Q.min_l.
      unfold BASE_GAME_SPEED, SPEED_INCREMENT_PER_TICK, MAX_GAME_SPEED; lra.
    + destruct Heq as (Hs1 & Hg1). split; [done|]. split; [done|].
      assert (Hnr : Room.raceState room1 <> RACING) by (rewrite Hs1; discriminate).
      rewrite Hroom3.
      destruct (0 <? length (Room.members room))%nat; [|now split].
      rewrite Hst, Hg, (tick_racing_other now room1 Hnr). now split.
Qed.

Lemma lobby_reachable : reachable Examples.lobby.
Proof.
  apply (run_reachable Examples.lobby_inputs empty_world Examples.lobby
           (outcome_emits (run Examples.lobby_inputs empty_world)));
    [constructor|].
  vm_compute. reflexivity.
Qed.

Lemma racing_reachable : reachable Examples.racing.
Proof.
  apply (run_reachable Examples.racing_inputs empty_world Examples.racing
           (outcome_emits (run Examples.racing_inputs empty_world)));
    [constructor|].
  vm_compute. reflexivity.
Qed.

Lemma finished_reachable : reachable Examples.finished.
Proof.
  apply (run_reachable Examples.finished_inputs empty_world Examples.finished
           (outcome_emits (run Examples.finished_inputs empty_world)));
    [constructor|].
  vm_compute. reflexivity.
Qed.

Lemma difficulty_capped_and_monotone_witness :
  let before := Examples.the_room Examples.racing in
  ((Room.gameSpeed before <= MAX_GAME_SPEED)%Q
   /\ (Room.roadWidth before <= MAX_ROAD_WIDTH)%Q)
  /\ exists after,
      room_at "ABCD"
        (outcome_world (run Examples.race_inputs Examples.racing))
      = Some after
      /\ (Room.gameSpeed before <= Room.gameSpeed after)%Q
      /\ (Room.roadWidth before <= Room.roadWidth after)%Q.
Proof.
  destruct difficulty_capped_and_monotone as (Hcap & Hmono & _).
  split.
  - apply (Hcap Examples.racing "ABCD"); [apply racing_reachable|].
    vm_compute. reflexivity.
  - apply (Hmono "ABCD" Examples.race_inputs Examples.racing).
    + apply racing_reachable.
    + vm_compute. reflexivity.
    + vm_compute. tauto.
Defined.

(** * Finishing order *)

Lemma tick_countdown_frame now roomCode room :
  countdown_frame room (fst (tick_countdown now roomCode room)).
Proof.
  unfold tick_countdown, countdown_frame.
  repeat match goal with
         | |- context [if ?c then _ else _] => destruct c
         end; simpl; tauto.
Qed.

Lemma tick_room_race now rnd k roomCode room :
  let room' := fst (fst (tick_room now rnd k roomCode room)) in
  Room.finishOrder room' = Room.finishOrder room
  /\ (Room.raceState room <> COUNTDOWN ->
      Room.raceState room' = Room.raceState room)
  /\ (Room.raceState room = COUNTDOWN ->
      Room.raceState room' = COUNTDOWN \/ Room.raceState room' = RACING).
Proof.
  cbv zeta. rewrite tick_room_room.
  destruct (0 <? length (Room.members room))%nat; [|tauto].
  set (room1 := fst (tick_countdown now roomCode room)).
  destruct (tick_obstacles_frame rnd k (tick_racing now room1))
    as (_ & _ & _ & _ & _ & _ & _ & _ & Hs3 & _ & _ & _ & Hf3 & _).
  destruct (tick_racing_frame now room1)
    as (_ & _ & _ & _ & _ & _ & _ & Hs2 & _ & _ & _ & Hf2 & _).
  destruct (tick_countdown_frame now roomCode room)
    as (_ & _ & _ & _ & _ & _ & _ & _ & _ & Hf1 & _).
  fold room1 in Hf1.
  destruct (tick_countdown_difficulty now roomCode room) as (_ & Hne & Heq).
  fold room1 in Hne, Heq.
  rewrite Hs3, Hs2, Hf3, Hf2, Hf1. split; [done|]. split.
  - intros Hc. now rewrite (Hne Hc).
  - intros Hc. specialize (Heq Hc).
    destruct (COUNTDOWN_SECONDS * 1000 <=?
                now - num (Room.countdownStartTime room)).
    + right. tauto.
    + left. tauto.
Qed.

(** A room that is, or has just left, waiting or countdown has an empty
    finishOrder. *)
Lemma reachable_finishOrder_empty w roomCode room :
  reachable w -> room_at roomCode w = Some room ->
  Room.raceState room = WAITING \/ Room.raceState room = COUNTDOWN ->
  Room.finishOrder room = [].
Proof.
  intros Hw. revert roomCode room.
  apply (reachable_rooms
           (fun room =>
              Room.raceState room = WAITING \/ Room.raceState room = COUNTDOWN ->
              Room.finishOrder room = [])); [| |exact Hw].
  - reflexivity.
  - intros now roomCode room i room' fin IH Hs Hst.
    destruct Hs; subst; simpl in *; try (now apply IH);
      try (destruct Hst; congruence); try reflexivity.
    + apply IH. left. assumption.
    + destruct (tick_room_race now rnd k roomCode room) as (Hf & Hne & Heq).
      rewrite Hf. apply IH.
      destruct (decide (Room.raceState room = COUNTDOWN)) as [Hc|Hc];
        [now right|].
      rewrite (Hne Hc) in Hst. exact Hst.
Qed.

(** One step within a race leaves finishOrder alone and announces nothing,
    or appends one id and announces the new length. *)
Lemma room_step_finish now roomCode room i room' fin :
  room_step now roomCode room i room' fin ->
  Room.raceState room' = RACING \/ Room.raceState room' = PAUSED
  \/ Room.raceState room' = FINISHED ->
  exists n,
    length (Room.finishOrder room') = (length (Room.finishOrder room) + n)%nat
    /\ fin = map Some (seq (length (Room.finishOrder room) + 1) n).
Proof.
  intros Hs Hst.
  destruct Hs; subst; simpl in *;
    try (exists 0%nat; split; [lia|reflexivity]);
    try (exfalso; destruct Hst as [?|[?|?]]; congruence).
  - exists 1%nat. rewrite length_app. simpl. split; [lia|reflexivity].
  - exists 1%nat. rewrite length_app. simpl. split; [lia|reflexivity].
  - exists 0%nat.
    destruct (tick_room_race now rnd k roomCode room) as (Hf & _).
    rewrite Hf. split; [lia|reflexivity].
Qed.

Lemma handle_finish_step now i w roomCode room room' :
  NoDup (Obj.keys (rooms w)) ->
  room_at roomCode w = Some room ->
  room_at roomCode (outcome_world (handle now i w)) = Some room' ->
  Room.raceState room' = RACING \/ Room.raceState room' = PAUSED
  \/ Room.raceState room' = FINISHED ->
  exists n,
    length (Room.finishOrder room') = (length (Room.finishOrder room) + n)%nat
    /\ finish_positions roomCode (outcome_emits (handle now i w))
       = map Some (seq (length (Room.finishOrder room) + 1) n).
Proof.
  intros Hnd Hat Hat' Hst.
  apply handle_room_effect in Hat'; [|exact Hnd].
  destruct Hat' as [[Hsame Hfin]|[(room0 & H0 & Hs)|(H0 & _)]].
  - assert (room' = room) as -> by congruence.
    exists 0%nat. split; [lia|exact Hfin].
  - assert (room0 = room) as -> by congruence.
    eapply room_step_finish; eauto.
  - congruence.
Qed.

Lemma run_finish_positions roomCode evs : forall w room,
  reachable w ->
  room_at roomCode w = Some room ->
  one_race roomCode evs w ->
  exists room' n,
    room_at roomCode (outcome_world (run evs w)) = Some room'
    /\ length (Room.finishOrder room')
       = (length (Room.finishOrder room) + n)%nat
    /\ finish_positions roomCode (outcome_emits (run evs w))
       = map Some (seq (length (Room.finishOrder room) + 1) n).
Proof.
  induction evs as [|[now i] evs IH]; intros w room Hw Hat [Hin Hrest].
  - exists room, 0%nat. simpl. split; [done|]. split; [lia|done].
  - simpl in *.
    pose proof (reachable_NoDup w Hw) as Hnd.
    destruct (handle now i w) as [w1 out1|w1 out1] eqn:Hh.
    + pose proof (one_race_in_race _ _ _ Hrest) as Hin1.
      destruct (in_race_room _ _ Hin1) as (room1 & Hat1 & Hst1).
      destruct (handle_finish_step now i w roomCode room room1 Hnd Hat)
        as (n1 & Hlen1 & Hpos1); [now rewrite Hh|exact Hst1|].
      rewrite Hh in Hpos1. simpl in Hpos1.
      destruct (IH w1 room1) as (room' & n & Hat' & Hlen & Hpos).
      { eapply reachable_step; eauto. }
      { exact Hat1. }
      { exact Hrest. }
      exists room', (n1 + n)%nat.
      destruct (run evs w1) as [w2 out2|w2 out2]; simpl in *;
        (split; [exact Hat'|]); (split; [lia|]);
        rewrite finish_positions_app, Hpos1, Hpos, Hlen1, seq_app, map_app;
        now replace (length (Room.finishOrder room) + 1 + n1)%nat
          with (length (Room.finishOrder room) + n1 + 1)%nat by lia.
    + destruct (in_race_room _ _ Hrest) as (room1 & Hat1 & Hst1).
      destruct (handle_finish_step now i w roomCode room room1 Hnd Hat)
        as (n1 & Hlen1 & Hpos1); [now rewrite Hh|exact Hst1|].
      rewrite Hh in Hpos1. simpl in Hpos1.
      exists room1, n1. simpl. auto.
Qed.

(** C3: (1) a player-update from a socket whose player is unfinished, in a
    racing room, with a reported distance of at least raceDistance, marks
    the player finished, sets finishTime to now - raceStartTime, appends
    the socket id to finishOrder, sets position to the new length of
    finishOrder and announces that position; (2) a race begins with an
    empty finishOrder; (3) over any inputs that fall within one race, the
    positions announced to the room are consecutive, starting right after
    the length finishOrder had, and finishOrder grows by as many entries --
    so from the start of a race they are exactly 1..k, k the number of
    finished players. *)
Theorem finish_positions_are_consecutive :
  (forall now sid data w roomCode room player,
      socket_room sid w = Some (roomCode, room) ->
      Obj.get sid (Room.players room) = Some player ->
      Room.raceState room = RACING ->
      Player.finished player = false ->
      (inject_Z (Room.raceDistance room) <= Update.distance data)%Q ->
      exists room' player',
        room_at roomCode
          (outcome_world (handle now (PlayerUpdate sid data) w)) = Some room'
        /\ Obj.get sid (Room.players room') = Some player'
        /\ Player.finished player' = true
        /\ Player.finishTime player'
           = Some (now - num (Room.raceStartTime room))
        /\ Room.finishOrder room' = Room.finishOrder room ++ [sid]
        /\ Player.position player' = Some (length (Room.finishOrder room'))
        /\ finish_positions roomCode
             (outcome_emits (handle now (PlayerUpdate sid data) w))
           = [Some (length (Room.finishOrder room'))])
  /\ (forall w now rnd k roomCode room,
         reachable w -> room_at roomCode w = Some room ->
         Room.raceState room = WAITING \/ Room.raceState room = COUNTDOWN ->
         Room.finishOrder room = []
         /\ Room.finishOrder (fst (fst (tick_room now rnd k roomCode room)))
            = [])
  /\ (forall roomCode evs w room,
         reachable w -> room_at roomCode w = Some room ->
         one_race roomCode evs w ->
         exists room' n,
           room_at roomCode (outcome_world (run evs w)) = Some room'
           /\ length (Room.finishOrder room')
              = (length (Room.finishOrder room) + n)%nat
           /\ finish_positions roomCode (outcome_emits (run evs w))
              = map Some (seq (length (Room.finishOrder room) + 1) n)).
Proof.
  split; [|split].
  - intros now sid data w roomCode room player Hsr Hp Hs Hf Hd.
    cbn [handle].
    rewrite (on_player_update_racing _ _ _ _ _ _ _ Hsr Hp Hs Hf).
    assert (Hx : crosses_line room (apply_update data player) = true).
    { unfold crosses_line. simpl. rewrite Hf.
      rewrite (proj2 (Qle_bool_iff _ _) Hd). reflexivity. }
    rewrite Hx.
    set (player2 := finishing_player now sid (apply_update data player) room).
    set (room1 := finished_room sid player2 room).
    assert (Hget : Obj.get sid (Room.players room1) = Some player2)
      by apply get_set_eq.
    assert (Hpos : forall name time out,
               finish_positions roomCode
                 (mkEmit (ToRoom roomCode)
                    (EvPlayerFinished name
                       (Some (length (Room.finishOrder room1))) time) :: out)
               = Some (length (Room.finishOrder room1))
                 :: finish_positions roomCode out).
    { intros. unfold finish_positions. cbn [omap list_omap].
      unfold finish_position_of at 1. now rewrite String.eqb_refl. }
    destruct (forallb Player.finished (Obj.values (Room.players room1))).
    + exists (Room.set_raceState FINISHED room1), player2.
      destruct (race_results (Room.players room1) 0 (Room.finishOrder room1));
        cbn [outcome_world outcome_emits]; rewrite room_at_put, Hpos;
        repeat split; assumption || reflexivity.
    + exists room1, player2.
      cbn [outcome_world outcome_emits]. rewrite room_at_put, Hpos.
      repeat split; assumption || reflexivity.
  - intros w now rnd k roomCode room Hw Hat Hst.
    destruct (tick_room_race now rnd k roomCode room) as (Hf & _).
    rewrite Hf. split; eapply reachable_finishOrder_empty; eauto.
  - intros roomCode evs w room. apply run_finish_positions.
Qed.

Lemma finish_positions_are_consecutive_witness :
  (exists room' player',
      room_at "ABCD"
        (Examples.after 9000
           (PlayerUpdate "a" (Examples.report (-2000) 1000)) Examples.racing)
      = Some room'
      /\ Obj.get "a" (Room.players room') = Some player'
      /\ Player.finished player' = true
      /\ Player.position player' = Some (length (Room.finishOrder room')))
  /\ exists room' n,
      room_at "ABCD"
        (outcome_world (run Examples.finish_reports Examples.racing))
      = Some room'
      /\ length (Room.finishOrder room')
         = (length (Room.finishOrder (Examples.the_room Examples.racing)) + n)%nat
      /\ finish_positions "ABCD"
           (outcome_emits (run Examples.finish_reports Examples.racing))
         = map Some
             (seq (length (Room.finishOrder (Examples.the_room Examples.racing))
                   + 1) n).
Proof.
  destruct finish_positions_are_consecutive as (Hone & _ & Hrun). split.
  - destruct (Hone 9000 "a" (Examples.report (-2000) 1000) Examples.racing
                "ABCD" (Examples.the_room Examples.racing)
                (default (new_player "" 0)
                   (Examples.the_player "a" Examples.racing)))
      as (room' & player' & Hat & Hget & Hfin & _ & _ & Hpos & _).
    + vm_compute. reflexivity.
    + vm_compute. reflexivity.
    + vm_compute. reflexivity.
    + vm_compute. reflexivity.
    + vm_compute. discriminate.
    + exists room', player'. auto.
  - apply (Hrun "ABCD" Examples.finish_reports Examples.racing
             (Examples.the_room Examples.racing)).
    + apply racing_reachable.
    + vm_compute. reflexivity.
    + vm_compute. tauto.
Defined.

(** The example race: the two announced positions are 1 and 2. *)
Example finish_positions_example :
  finish_positions "ABCD"
    (outcome_emits (run Examples.finish_reports Examples.racing))
  = [Some 1%nat; Some 2%nat].
Proof. vm_compute. reflexivity. Qed.

(** * Finished rooms *)

Lemma room_step_finished_inv now roomCode room i room' fin :
  is_join i = false ->
  finished_means_all_finished room ->
  room_step now roomCode room i room' fin ->
  finished_means_all_finished room'.
Proof.
  unfold finished_means_all_finished. intros Hi Hinv Hs.
  destruct Hs; subst; simpl in *; try discriminate;
    try (intros Hf; congruence).
  - (* the last player finishes *)
    intros _. apply All_values.
    apply Stdlib.Lists.List.Forall_forall. now apply forallb_forall.
  - (* collision *)
    intros Hf. apply All_set; [now apply Hinv|].
    apply (All_get (fun p => Player.finished p = true) sid player
             (Room.players room)); auto.
  - (* disconnect *)
    intros Hf. apply All_del. now apply Hinv.
  - (* tick *)
    intros Hf.
    destruct (tick_room_race now rnd k roomCode room) as (_ & Hne & Heq).
    destruct (decide (Room.raceState room = COUNTDOWN)) as [Hc|Hc].
    + destruct (Heq Hc); congruence.
    + rewrite (Hne Hc) in Hf.
      rewrite tick_room_idle by (rewrite Hf; discriminate). now apply Hinv.
Qed.


Lemma late_join_reachable : reachable Examples.late_join.
Proof.
  apply (reachable_step Examples.finished 10000 (JoinRoom "c" "ABCD" "Cyd")
           Examples.late_join
           (outcome_emits
              (handle 10000 (JoinRoom "c" "ABCD" "Cyd") Examples.finished)));
    [apply finished_reachable|].
  vm_compute. reflexivity.
Qed.



(** * Leader and trailer *)

Lemma or_zero_eq v : (or_zero v == v)%Q.
Proof.
  unfold or_zero. destruct (Qeq_bool v 0) eqn:H; [|reflexivity].
  apply Qeq_bool_eq in H. now rewrite H.
Qed.

Lemma bounds_fold ps : forall mn mx,
  (mn <= mx)%Q ->
  exists mn' mx',
    fold_left bounds_step ps (mn, mx, true) = (mn', mx', true)
    /\ (mn' <= mn)%Q /\ (mx <= mx')%Q
    /\ Forall (fun p => (mn' <= Player.worldY p <= mx')%Q) ps
    /\ (mn' = mn \/ Exists (fun p => (mn' == Player.worldY p)%Q) ps)
    /\ (mx' = mx \/ Exists (fun p => (mx' == Player.worldY p)%Q) ps).
Proof.
  induction ps as [|p ps IH]; intros mn mx Hle; simpl.
  - exists mn, mx. repeat split; try apply Qle_refl; auto.
  - pose proof (or_zero_eq (Player.worldY p)) as Hwy.
    set (wy := or_zero (Player.worldY p)) in *.
    set (mn1 := if Qltb wy mn then wy else mn).
    set (mx1 := if Qltb mx wy then wy else mx).
    assert (H1 : (mn1 <= mn /\ mn1 <= wy /\ mx <= mx1 /\ wy <= mx1)%Q).
    { unfold mn1, mx1.
      destruct (Qltb wy mn) eqn:Ha; destruct (Qltb mx wy) eqn:Hb;
        rewrite ?Qltb_lt, ?Qltb_ge in *; repeat split; lra. }
    destruct H1 as (Ha & Hb & Hc & Hd).
    destruct (IH mn1 mx1) as (mn' & mx' & Hf & Hmn & Hmx & Hall & Hex1 & Hex2);
      [lra|].
    exists mn', mx'. split; [exact Hf|].
    split; [lra|]. split; [lra|]. split; [|split].
    + constructor; [rewrite <- Hwy; split; lra|exact Hall].
    + destruct Hex1 as [->|Hex1]; [|right; now constructor 2].
      unfold mn1. destruct (Qltb wy mn); [|now left].
      right. constructor 1. exact Hwy.
    + destruct Hex2 as [->|Hex2]; [|right; now constructor 2].
      unfold mx1. destruct (Qltb mx wy); [|now left].
      right. constructor 1. exact Hwy.
Qed.

(** With at least one player, the leader coordinate is the least worldY
    and the trailer coordinate the greatest. *)
Lemma world_bounds_spec players :
  players <> [] ->
  snd (world_bounds players) = true
  /\ Forall (fun p => (leaderWorldY players <= Player.worldY p
                       /\ Player.worldY p <= trailerWorldY players)%Q)
       (Obj.values players)
  /\ Exists (fun p => (leaderWorldY players == Player.worldY p)%Q)
       (Obj.values players)
  /\ Exists (fun p => (trailerWorldY players == Player.worldY p)%Q)
       (Obj.values players).
Proof.
  unfold leaderWorldY, trailerWorldY, world_bounds.
  destruct players as [|[id p] ps]; [done|]. intros _. simpl.
  pose proof (or_zero_eq (Player.worldY p)) as Hwy.
  set (wy := or_zero (Player.worldY p)) in *.
  destruct (bounds_fold (Obj.values ps) wy wy)
    as (mn' & mx' & Hf & Hmn & Hmx & Hall & Hex1 & Hex2); [apply Qle_refl|].
  unfold Obj.values in *. rewrite Hf. simpl.
  split; [done|]. split; [|split].
  - constructor; [rewrite <- Hwy; split; lra|exact Hall].
  - destruct Hex1 as [->|Hex1]; [constructor 1; exact Hwy|now constructor 2].
  - destruct Hex2 as [->|Hex2]; [constructor 1; exact Hwy|now constructor 2].
Qed.

Lemma world_bounds_expire_stun now players :
  world_bounds (map (fun kv => (fst kv, expire_stun now (snd kv))) players)
  = world_bounds players.
Proof.
  unfold world_bounds, Obj.values. rewrite map_map. simpl.
  generalize (0%Q, 0%Q, false).
  induction players as [|[id p] ps IH]; intros acc; simpl; [done|].
  rewrite <- IH. f_equal.
  unfold bounds_step, expire_stun.
  destruct (Player.stunned p && (Player.stunnedUntil p <=? now)); reflexivity.
Qed.

(** * The spawning loop *)

Lemma inject_Z_sub (a b : Z) : inject_Z (a - b) = (inject_Z a - inject_Z b)%Q.
Proof. unfold Z.sub. now rewrite inject_Z_plus, inject_Z_opp. Qed.

Lemma Qceiling_step x :
  (0 < x)%Q ->
  (Z.to_nat (Qceiling (x - spawnIntervalPixels)) < Z.to_nat (Qceiling x))%nat.
Proof.
  intros Hx.
  pose proof (Qle_ceiling x) as Hup.
  pose proof (Qceiling_lt (x - spawnIntervalPixels)) as Hlow.
  assert (Hpos : 0 < Qceiling x).
  { rewrite Zlt_Qlt. change (inject_Z 0) with 0%Q. lra. }
  assert (Hdec : Qceiling (x - spawnIntervalPixels) - 1 < Qceiling x - 100).
  { rewrite Zlt_Qlt, !inject_Z_sub. rewrite inject_Z_sub in Hlow.
    change (inject_Z 100) with 100%Q. change (inject_Z 1) with 1%Q in *.
    assert (Hint : (spawnIntervalPixels == 100)%Q) by reflexivity.
    lra. }
  lia.
Qed.

Lemma spawn_one_cursor rnd k room :
  Room.lastSpawnWorldY (spawn_one rnd k room)
  = (Room.lastSpawnWorldY room - spawnIntervalPixels)%Q.
Proof. reflexivity. Qed.

Lemma spawn_one_obstacles rnd k room :
  exists obs,
    Room.obstacles (spawn_one rnd k room) = Room.obstacles room ++ [obs]
    /\ Obstacle.worldY obs
       = (Room.lastSpawnWorldY room - spawnIntervalPixels)%Q
    /\ Obstacle.id obs = Room.nextObstacleId room.
Proof. eexists. split; [reflexivity|]. split; reflexivity. Qed.

(** The loop only appends obstacles. *)
Lemma spawn_loop_obstacles rnd thr fuel : forall k room,
  exists new,
    Room.obstacles (fst (spawn_loop fuel rnd thr k room))
    = Room.obstacles room ++ new.
Proof.
  induction fuel as [|fuel IH]; intros k room; simpl.
  - exists []. now rewrite app_nil_r.
  - destruct (Qltb thr (Room.lastSpawnWorldY room)).
    + destruct (IH (S (S k)) (spawn_one rnd k room)) as (new & Hnew).
      destruct (spawn_one_obstacles rnd k room) as (obs & Hobs & _).
      exists (obs :: new). rewrite Hnew, Hobs, <- app_assoc. reflexivity.
    + exists []. now rewrite app_nil_r.
Qed.

(** With the fuel the tick provides, the loop stops because its test
    fails: the cursor has reached the threshold. *)
Lemma spawn_loop_exits rnd thr fuel : forall k room,
  (Z.to_nat (Qceiling (Room.lastSpawnWorldY room - thr)) <= fuel)%nat ->
  (Room.lastSpawnWorldY (fst (spawn_loop fuel rnd thr k room)) <= thr)%Q.
Proof.
  induction fuel as [|fuel IH]; intros k room Hfuel; simpl.
  - pose proof (Qle_ceiling (Room.lastSpawnWorldY room - thr)) as Hup.
    assert (Hz : Qceiling (Room.lastSpawnWorldY room - thr) <= 0) by lia.
    rewrite Zle_Qle in Hz. change (inject_Z 0) with 0%Q in Hz. lra.
  - destruct (Qltb thr (Room.lastSpawnWorldY room)) eqn:Hlt.
    + apply IH. rewrite spawn_one_cursor. apply Qltb_lt in Hlt.
      pose proof (Qceiling_step (Room.lastSpawnWorldY room - thr)) as Hstep.
      assert (Heq : (Room.lastSpawnWorldY room - spawnIntervalPixels - thr
                     == Room.lastSpawnWorldY room - thr - spawnIntervalPixels)%Q)
        by ring.
      rewrite (Qceiling_comp _ _ Heq).
      assert (0 < Room.lastSpawnWorldY room - thr)%Q by lra.
      specialize (Hstep H). lia.
    + simpl. now apply Qltb_ge in Hlt.
Qed.

(** When the cursor starts more than one interval short of the threshold,
    the loop leaves an obstacle in the last interval before it. *)
Lemma spawn_loop_near_threshold rnd thr fuel : forall k room,
  (Z.to_nat (Qceiling (Room.lastSpawnWorldY room - thr)) <= fuel)%nat ->
  (thr + spawnIntervalPixels < Room.lastSpawnWorldY room)%Q ->
  Exists (fun obs => (thr < Obstacle.worldY obs
                      /\ Obstacle.worldY obs <= thr + spawnIntervalPixels)%Q)
    (Room.obstacles (fst (spawn_loop fuel rnd thr k room))).
Proof.
  assert (Hint : (spawnIntervalPixels == 100)%Q) by reflexivity.
  induction fuel as [|fuel IH]; intros k room Hfuel Hfar; simpl.
  - exfalso.
    pose proof (Qle_ceiling (Room.lastSpawnWorldY room - thr)) as Hup.
    assert (Hz : Qceiling (Room.lastSpawnWorldY room - thr) <= 0) by lia.
    rewrite Zle_Qle in Hz. change (inject_Z 0) with 0%Q in Hz. lra.
  - assert (Hlt : Qltb thr (Room.lastSpawnWorldY room) = true)
      by (apply Qltb_lt; lra).
    rewrite Hlt.
    assert (Hfuel1 : (Z.to_nat
                        (Qceiling
                           (Room.lastSpawnWorldY (spawn_one rnd k room) - thr))
                      <= fuel)%nat).
    { rewrite spawn_one_cursor.
      pose proof (Qceiling_step (Room.lastSpawnWorldY room - thr)) as Hstep.
      assert (Heq : (Room.lastSpawnWorldY room - spawnIntervalPixels - thr
                     == Room.lastSpawnWorldY room - thr - spawnIntervalPixels)%Q)
        by ring.
      rewrite (Qceiling_comp _ _ Heq).
      assert (0 < Room.lastSpawnWorldY room - thr)%Q by lra.
      specialize (Hstep H). lia. }
    destruct (Qlt_le_dec (thr + spawnIntervalPixels)
                (Room.lastSpawnWorldY (spawn_one rnd k room))) as [Hfar1|Hnear].
    + now apply IH.
    + destruct (spawn_one_obstacles rnd k room) as (obs & Hobs & Hy & _).
      destruct (spawn_loop_obstacles rnd thr fuel (S (S k))
                  (spawn_one rnd k room)) as (new & Hnew).
      rewrite Hnew, Hobs. apply Exists_app. left. apply Exists_app. right.
      constructor 1. rewrite Hy. rewrite spawn_one_cursor in Hnear. lra.
Qed.

(** * The obstacle window of a tick *)

Lemma tick_obstacles_racing rnd k room :
  Room.raceState room = RACING ->
  fst (tick_obstacles rnd k room)
  = despawn (trailerWorldY (Room.players room))
      (fst (spawn_loop (spawn_fuel (spawnThreshold room) (with_cursor room))
              rnd (spawnThreshold room) k (with_cursor room))).
Proof.
  intros Hs. unfold tick_obstacles, with_cursor, spawnThreshold,
               leaderWorldY, trailerWorldY.
  destruct (world_bounds (Room.players room)) as [[mn mx] has]. simpl.
  rewrite bool_decide_eq_true_2 by done.
  match goal with
  | |- context [spawn_loop ?f rnd ?t k ?r] =>
      destruct (spawn_loop f rnd t k r) as [room2 k']
  end.
  reflexivity.
Qed.

Lemma tick_racing_bounds now room :
  world_bounds (Room.players (tick_racing now room))
  = world_bounds (Room.players room).
Proof.
  unfold tick_racing.
  destruct (bool_decide (Room.raceState room = RACING)); [|done].
  unfold expand_road, ramp_speed, update_stuns.
  repeat match goal with
         | |- context [if ?c then _ else _] => destruct c
         end; simpl; apply world_bounds_expire_stun.
Qed.

(** The room a tick hands to its obstacle window agrees with the room
    before the tick on obstacles, spawn cursor and player coordinates. *)
Lemma tick_room_obstacle_phase now rnd k roomCode room :
  Room.members room <> [] ->
  exists room2,
    fst (fst (tick_room now rnd k roomCode room))
    = fst (tick_obstacles rnd k room2)
    /\ Room.obstacles room2 = Room.obstacles room
    /\ Room.lastSpawnWorldY room2 = Room.lastSpawnWorldY room
    /\ world_bounds (Room.players room2) = world_bounds (Room.players room)
    /\ Room.raceState room2
       = Room.raceState (fst (fst (tick_room now rnd k roomCode room))).
Proof.
  intros Hm. rewrite tick_room_room.
  destruct (Room.members room) as [|m ms]; [done|]. simpl.
  set (room1 := fst (tick_countdown now roomCode room)).
  exists (tick_racing now room1).
  destruct (tick_countdown_frame now roomCode room)
    as (_ & Hp1 & Ho1 & _ & Hl1 & _).
  destruct (tick_racing_frame now room1) as (_ & _ & Ho2 & _ & Hl2 & _).
  destruct (tick_obstacles_frame rnd k (tick_racing now room1))
    as (_ & _ & _ & _ & _ & _ & _ & _ & Hs3 & _).
  fold room1 in Hp1, Ho1, Hl1.
  split; [done|]. split; [congruence|]. split; [congruence|].
  split; [|now rewrite Hs3].
  now rewrite tick_racing_bounds, Hp1.
Qed.

Lemma with_cursor_frame room :
  Room.obstacles (with_cursor room) = Room.obstacles room
  /\ Room.players (with_cursor room) = Room.players room
  /\ Room.lastSpawnWorldY (with_cursor room)
     = (if Qeq_bool (Room.lastSpawnWorldY room) 0
           && snd (world_bounds (Room.players room))
        then (leaderWorldY (Room.players room) - spawnIntervalPixels)%Q
        else Room.lastSpawnWorldY room).
Proof.
  unfold with_cursor.
  destruct (Qeq_bool (Room.lastSpawnWorldY room) 0
            && snd (world_bounds (Room.players room))); simpl; tauto.
Qed.

Lemma despawn_obstacles maxWorldY room obs :
  obs ∈ Room.obstacles (despawn maxWorldY room)
  <-> obs ∈ Room.obstacles room
      /\ (Obstacle.worldY obs < maxWorldY + despawnBufferPixels)%Q.
Proof.
  unfold despawn. simpl.
  rewrite !list_elem_of_In, filter_In, Qltb_lt. reflexivity.
Qed.




Lemma tick_room_bounds now rnd k roomCode room :
  Room.members room <> [] ->
  world_bounds (Room.players (fst (fst (tick_room now rnd k roomCode room))))
  = world_bounds (Room.players room).
Proof.
  intros Hm.
  destruct (tick_room_obstacle_phase now rnd k roomCode room Hm)
    as (room2 & -> & _ & _ & Hb2 & _).
  destruct (tick_obstacles_frame rnd k room2) as (_ & -> & _).
  exact Hb2.
Qed.

(** The obstacle window after one tick that leaves the room racing. *)
Lemma racing_tick_window (now : Z) (rnd : nat -> Q) (k : nat)
    (roomCode : string) (room : Room.t) :
  Room.members room <> [] ->
  Room.players room <> [] ->
  let room' := fst (fst (tick_room now rnd k roomCode room)) in
  let leader := leaderWorldY (Room.players room) in
  let trailer := trailerWorldY (Room.players room) in
  let cursor :=
    if Qeq_bool (Room.lastSpawnWorldY room) 0
    then (leader - spawnIntervalPixels)%Q else Room.lastSpawnWorldY room in
  Room.raceState room' = RACING ->
  (Forall (fun p => (leader <= Player.worldY p)%Q)
     (Obj.values (Room.players room))
   /\ Exists (fun p => (leader == Player.worldY p)%Q)
        (Obj.values (Room.players room)))
  /\ Forall (fun obs => (Obstacle.worldY obs < trailer + despawnBufferPixels)%Q)
       (Room.obstacles room')
  /\ (Room.lastSpawnWorldY room' <= leader - spawnAheadPixels)%Q
  /\ ((leader - spawnAheadPixels + spawnIntervalPixels < cursor)%Q ->
      Exists (fun obs =>
                (leader - spawnAheadPixels < Obstacle.worldY obs
                 /\ Obstacle.worldY obs
                    <= leader - spawnAheadPixels + spawnIntervalPixels)%Q)
        (Room.obstacles room'))
  /\ (Qeq_bool (Room.lastSpawnWorldY room) 0 = true ->
      obstacle_within_spawn_ahead room' = true).
Proof.
  intros Hm Hp room' leader trailer cursor Hs.
  assert (Hint : (spawnIntervalPixels == 100)%Q) by reflexivity.
  assert (Hah : (spawnAheadPixels == 600)%Q) by reflexivity.
  assert (Hbuf : (despawnBufferPixels == 200)%Q) by reflexivity.
  destruct (world_bounds_spec (Room.players room) Hp)
    as (Hhas & Hall & Hexl & Hext).
  fold leader trailer in Hall, Hexl, Hext.
  assert (Hlt : (leader <= trailer)%Q).
  { apply Exists_exists in Hexl as (p & Hin & _).
    rewrite Forall_forall in Hall. specialize (Hall p Hin). lra. }
  destruct (tick_room_obstacle_phase now rnd k roomCode room Hm)
    as (room2 & Hroom' & Ho2 & Hl2 & Hb2 & Hs2).
  fold room' in Hroom', Hs2. rewrite Hs in Hs2.
  assert (Hld : leaderWorldY (Room.players room2) = leader)
    by (unfold leader, leaderWorldY; now rewrite Hb2).
  assert (Htr : trailerWorldY (Room.players room2) = trailer)
    by (unfold trailer, trailerWorldY; now rewrite Hb2).
  assert (Hthr : spawnThreshold room2 = (leader - spawnAheadPixels)%Q)
    by (unfold spawnThreshold; now rewrite Hld).
  assert (Hcur : Room.lastSpawnWorldY (with_cursor room2) = cursor).
  { destruct (with_cursor_frame room2) as (_ & _ & ->).
    rewrite Hb2, Hhas, Hl2, Hld, andb_true_r. reflexivity. }
  pose proof (tick_obstacles_racing rnd k room2 Hs2) as Htick.
  rewrite <- Hroom', Htr, Hthr in Htick.
  set (looped := fst (spawn_loop
                        (spawn_fuel (leader - spawnAheadPixels)%Q
                           (with_cursor room2))
                        rnd (leader - spawnAheadPixels)%Q k
                        (with_cursor room2))) in Htick.
  assert (Hnear : (leader - spawnAheadPixels + spawnIntervalPixels < cursor)%Q ->
                  Exists
                    (fun obs =>
                       (leader - spawnAheadPixels < Obstacle.worldY obs
                        /\ Obstacle.worldY obs
                           <= leader - spawnAheadPixels + spawnIntervalPixels)%Q)
                    (Room.obstacles room')).
  { intros Hfar.
    assert (Hex : Exists
                    (fun obs =>
                       (leader - spawnAheadPixels < Obstacle.worldY obs
                        /\ Obstacle.worldY obs
                           <= leader - spawnAheadPixels + spawnIntervalPixels)%Q)
                    (Room.obstacles looped)).
    { apply spawn_loop_near_threshold; [reflexivity|now rewrite Hcur]. }
    apply Exists_exists in Hex as (obs & Hin & Hlo & Hhi).
    apply Exists_exists. exists obs. split; [|now split].
    rewrite Htick. apply despawn_obstacles. split; [exact Hin|]. lra. }
  split; [split; [|exact Hexl]|].
  { eapply Forall_impl; [exact Hall|]. simpl. intros p [H _]. exact H. }
  split.
  { apply Forall_forall. intros obs Hin. rewrite Htick in Hin.
    now apply despawn_obstacles in Hin. }
  split.
  { rewrite Htick. change (Room.lastSpawnWorldY (despawn trailer looped))
      with (Room.lastSpawnWorldY looped).
    apply spawn_loop_exits. reflexivity. }
  split; [exact Hnear|].
  intros Hzero. unfold cursor in Hnear. rewrite Hzero in Hnear.
  assert (Hfar : (leader - spawnAheadPixels + spawnIntervalPixels
                  < leader - spawnIntervalPixels)%Q) by lra.
  apply Exists_exists in Hnear as (obs & Hin & Hlo & Hhi); [|exact Hfar].
  unfold obstacle_within_spawn_ahead. apply existsb_exists.
  exists obs. split; [now apply list_elem_of_In|].
  assert (Hld' : leaderWorldY (Room.players room') = leader).
  { unfold leader, leaderWorldY. unfold room'.
    now rewrite (tick_room_bounds now rnd k roomCode room Hm). }
  rewrite Hld'. apply andb_true_iff. split.
  - apply Qle_bool_iff. lra.
  - apply Qltb_lt. lra.
Qed.

(** * Pause and resume *)

Lemma tick_room_members now rnd k roomCode room :
  Room.members (fst (fst (tick_room now rnd k roomCode room)))
  = Room.members room.
Proof.
  rewrite tick_room_room.
  destruct (0 <? length (Room.members room))%nat; [|done].
  destruct (tick_obstacles_frame rnd k
              (tick_racing now (fst (tick_countdown now roomCode room))))
    as (-> & _).
  destruct (tick_racing_frame now (fst (tick_countdown now roomCode room)))
    as (-> & _).
  now destruct (tick_countdown_frame now roomCode room) as (-> & _).
Qed.

(** A room of the table always has a member: it is created by a join and
    deleted with its last member. *)
Lemma reachable_members w roomCode room :
  reachable w -> room_at roomCode w = Some room -> Room.members room <> [].
Proof.
  intros Hw. revert roomCode room.
  apply (reachable_rooms (fun room => Room.members room <> [])); [| |exact Hw].
  - intros now sid name. discriminate.
  - intros now roomCode room i room' fin Hm Hs.
    destruct Hs; subst; simpl; try exact Hm.
    + intros Hnil. now apply app_eq_nil in Hnil as [_ ?].
    + assumption.
    + now rewrite tick_room_members.
Qed.

Lemma room_step_paused now roomCode room i room' fin :
  room_step now roomCode room i room' fin ->
  Room.raceState room = PAUSED -> Room.raceState room' = PAUSED ->
  Room.raceStartTime room' = Room.raceStartTime room
  /\ Room.pausedAt room' = Room.pausedAt room
  /\ Room.creatorId room' = Room.creatorId room.
Proof.
  intros Hs Hp Hp'.
  destruct Hs; subst; simpl in *; try congruence; try tauto.
  rewrite tick_room_idle by (rewrite Hp; discriminate). tauto.
Qed.

(** While the room stays paused, whatever is handled, its race clock
    fields and its creator do not change. *)
Lemma paused_run roomCode evs : forall w room w' out,
  reachable w ->
  room_at roomCode w = Some room ->
  Room.raceState room = PAUSED ->
  run evs w = Done w' out ->
  stays_paused roomCode evs w ->
  reachable w'
  /\ exists room',
      room_at roomCode w' = Some room'
      /\ Room.raceState room' = PAUSED
      /\ Room.raceStartTime room' = Room.raceStartTime room
      /\ Room.pausedAt room' = Room.pausedAt room
      /\ Room.creatorId room' = Room.creatorId room.
Proof.
  induction evs as [|[now i] evs IH]; intros w room w' out Hw Hat Hp Hrun Hst.
  - simpl in Hrun. injection Hrun as <- _. split; [done|]. exists room. tauto.
  - simpl in Hrun, Hst.
    destruct (handle now i w) as [w1 out1|w1 out1] eqn:Hh; [|done].
    destruct Hst as [(room1 & Hat1 & Hp1) Hst].
    destruct (run evs w1) as [w2 out2|w2 out2] eqn:Hr; [|done].
    injection Hrun as <- _.
    assert (Hw1 : reachable w1) by (eapply reachable_step; eauto).
    assert (Hsame : Room.raceStartTime room1 = Room.raceStartTime room
                    /\ Room.pausedAt room1 = Room.pausedAt room
                    /\ Room.creatorId room1 = Room.creatorId room).
    { assert (Hat1' : room_at roomCode (outcome_world (handle now i w))
                      = Some room1) by now rewrite Hh.
      apply handle_room_effect in Hat1'; [|now apply reachable_NoDup].
      destruct Hat1' as [[Hsame _]|[(room0 & H0 & Hs)|(H0 & _)]].
      - assert (room1 = room) as -> by congruence. tauto.
      - assert (room0 = room) as -> by congruence.
        eapply room_step_paused; eauto.
      - congruence. }
    destruct (IH w1 room1 w2 out2 Hw1 Hat1 Hp1 Hr Hst)
      as (Hw2 & room' & Hat' & Hp' & H1 & H2 & H3).
    split; [done|]. exists room'.
    destruct Hsame as (E1 & E2 & E3). repeat split; congruence.
Qed.

Lemma tick_room_racing_snapshot now rnd k roomCode room :
  Room.members room <> [] ->
  Room.raceState room = RACING ->
  exists room3 k',
    tick_room now rnd k roomCode room
    = (room3, [mkEmit (ToRoom roomCode) (EvGameState (snapshot now room3))], k')
    /\ Room.raceStartTime room3 = Room.raceStartTime room
    /\ Room.raceState room3 = RACING.
Proof.
  intros Hm Hst. unfold tick_room.
  destruct (Room.members room) as [|m ms] eqn:Em; [done|]. simpl.
  rewrite tick_countdown_other by (rewrite Hst; discriminate).
  pose proof (tick_racing_frame now room) as Hf1.
  pose proof (tick_obstacles_frame rnd k (tick_racing now room)) as Hf2.
  destruct (tick_obstacles rnd k (tick_racing now room)) as [room3 k'].
  exists room3, k'. simpl in *.
  unfold racing_frame, obstacle_frame in *.
  repeat match goal with H : _ /\ _ |- _ => destruct H end.
  repeat split; congruence.
Qed.

(** C2: the creator pauses a racing room at t0 and resumes it at t1,
    whatever is handled in between as long as the room stays paused (ticks
    go on, other sockets send events).  The resume moves raceStartTime
    forward by the pause duration t1 - t0, so the elapsed race time at the
    resume is the elapsed race time at the pause, and the snapshot of a
    tick at ta after the resume reports what a snapshot at tb before the
    pause reported plus the two stretches of running time in between (tb
    to t0 and t1 to ta), whatever the pause duration.  When the snapshot
    before the pause is at most d old at the pause and the snapshot after
    the resume comes at most d after it, the two reports are hence at
    most 2 d apart: two ticks, not one. *)
Theorem pause_is_time_neutral (S t0 t1 : Z) (sid roomCode : string)
    (room : Room.t) (w : World) :
  reachable w ->
  socket_room sid w = Some (roomCode, room) ->
  is_creator sid room = true ->
  Room.raceState room = RACING ->
  Room.raceStartTime room = Some S ->
  0 < S -> t0 <= t1 ->
  exists w1,
    handle t0 (TogglePause sid) w
    = Done w1 [mkEmit (ToRoom roomCode) (EvRacePaused "Race paused by host")]
    /\ forall evs w1' out,
        run evs w1 = Done w1' out ->
        stays_paused roomCode evs w1 ->
        fst <$> socket_room sid w1' = Some roomCode ->
        exists w2 room2,
          handle t1 (TogglePause sid) w1'
          = Done w2 [mkEmit (ToRoom roomCode) (EvRaceResumed "Race resumed!")]
          /\ room_at roomCode w2 = Some room2
          /\ Room.raceState room2 = RACING
          /\ Room.raceStartTime room2 = Some (S + (t1 - t0))
          /\ raceTime t1 room2 = raceTime t0 room
          /\ forall tb ta rnd k,
              GameState.raceTime (snapshot tb room) = tb - S
              /\ exists room3 k',
                  tick_room ta rnd k roomCode room2
                  = (room3,
                     [mkEmit (ToRoom roomCode)
                        (EvGameState (snapshot ta room3))],
                     k')
                  /\ GameState.raceTime (snapshot ta room3)
                     = (tb - S) + (t0 - tb) + (ta - t1)
                  /\ forall d,
                      tb <= t0 <= tb + d -> t1 <= ta <= t1 + d ->
                      0 <= GameState.raceTime (snapshot ta room3)
                           - GameState.raceTime (snapshot tb room)
                        <= 2 * d.
Proof.
  intros Hw Hroom Hcre Hst Hstart HS Ht.
  set (room1 := paused_room t0 room).
  set (w1 := put_room roomCode room1 w).
  assert (Hpause : handle t0 (TogglePause sid) w
                   = Done w1 [mkEmit (ToRoom roomCode)
                                (EvRacePaused "Race paused by host")]).
  { simpl. unfold on_toggle_pause. rewrite Hroom, Hcre, Hst. reflexivity. }
  exists w1. split; [exact Hpause|].
  intros evs w1' out Hrun Hpaused Hsock.
  destruct (paused_run roomCode evs w1 room1 w1' out)
    as (Hw1' & room1' & Hat1' & Hp1' & Hs1' & Hpa1' & Hc1');
    [eapply reachable_step; eauto|apply room_at_put|reflexivity|done|done|].
  destruct (socket_room sid w1') as [[code r]|] eqn:Hroom1'; [|done].
  simpl in Hsock. injection Hsock as ->.
  pose proof (socket_room_at _ _ _ _ Hroom1') as Hr.
  assert (r = room1') as -> by congruence.
  set (room2 := resumed_room t1 room1').
  exists (put_room roomCode room2 w1'), room2.
  assert (Hresume : handle t1 (TogglePause sid) w1'
                    = Done (put_room roomCode room2 w1')
                        [mkEmit (ToRoom roomCode)
                           (EvRaceResumed "Race resumed!")]).
  { simpl. unfold on_toggle_pause. rewrite Hroom1'.
    unfold is_creator in *. rewrite Hc1'. simpl. rewrite Hcre, Hp1'.
    reflexivity. }
  assert (Hstart2 : Room.raceStartTime room2 = Some (S + (t1 - t0))).
  { unfold room2, resumed_room. simpl. rewrite Hs1', Hpa1'. simpl.
    now rewrite Hstart. }
  assert (Htime : forall now r,
             Room.raceStartTime r = Some (S + (t1 - t0)) ->
             raceTime now r = now - (S + (t1 - t0))).
  { intros now r Hr'. unfold raceTime. rewrite Hr'.
    destruct (Z.eqb_spec (S + (t1 - t0)) 0); lia. }
  assert (Htime0 : forall now, raceTime now room = now - S).
  { intros now. unfold raceTime. rewrite Hstart.
    destruct (Z.eqb_spec S 0); lia. }
  split; [exact Hresume|]. split; [apply room_at_put|].
  split; [reflexivity|]. split; [exact Hstart2|]. split.
  { rewrite (Htime _ _ Hstart2), Htime0. lia. }
  intros tb ta rnd k. split; [simpl; apply Htime0|].
  destruct (tick_room_racing_snapshot ta rnd k roomCode room2)
    as (room3 & k' & Htick & Hs3 & _); [|reflexivity|].
  { change (Room.members room2) with (Room.members room1').
    eapply reachable_members; eauto. }
  exists room3, k'. split; [exact Htick|]. simpl.
  rewrite (Htime ta room3) by congruence. rewrite Htime0.
  split; [lia|]. intros d Hb Ha. lia.
Qed.

Lemma pause_is_time_neutral_witness :
  exists w2 room2,
    handle 19003 (TogglePause "a")
      (outcome_world (run Examples.pause_inputs Examples.paused))
    = Done w2 [mkEmit (ToRoom "ABCD") (EvRaceResumed "Race resumed!")]
    /\ room_at "ABCD" w2 = Some room2
    /\ Room.raceState room2 = RACING
    /\ Room.raceStartTime room2 = Some (4003 + (19003 - 14003))
    /\ raceTime 19003 room2
       = raceTime 14003 (Examples.the_room Examples.racing).
Proof.
  destruct (pause_is_time_neutral 4003 14003 19003 "a" "ABCD"
              (Examples.the_room Examples.racing) Examples.racing)
    as (w1 & Hpause & Hresume).
  - apply racing_reachable.
  - vm_compute. reflexivity.
  - vm_compute. reflexivity.
  - vm_compute. reflexivity.
  - vm_compute. reflexivity.
  - lia.
  - lia.
  - assert (w1 = Examples.paused) as ->.
    { assert (Hp : handle 14003 (TogglePause "a") Examples.racing
                   = Done Examples.paused
                       [mkEmit (ToRoom "ABCD")
                          (EvRacePaused "Race paused by host")])
        by (vm_compute; reflexivity).
      rewrite Hp in Hpause. now injection Hpause as <-. }
    destruct (Hresume Examples.pause_inputs
                (outcome_world (run Examples.pause_inputs Examples.paused))
                (outcome_emits (run Examples.pause_inputs Examples.paused)))
      as (w2 & room2 & H1 & H2 & H3 & H4 & H5 & _).
    + vm_compute. reflexivity.
    + vm_compute. repeat split; eexists; split; reflexivity.
    + vm_compute. reflexivity.
    + exists w2, room2. auto.
Defined.

(** C2, counterexample to "within one tick": the ticks come 33 ms apart,
    one every [1000 / TICK_RATE] ms as the timer counts them.  Ann pauses
    30 ms after a tick and resumes 30 ms before one.  The last snapshot
    before the pause reports 66 ms of race time and the first snapshot
    after the resume 126 ms: 60 ms more, where one tick is 33 ms.  (The
    snapshots sent during the pause still count the time on, up to 165
    ms, as raceStartTime is moved only by the resume.) *)
Lemma resume_report_is_two_ticks_late :
  let out := outcome_emits (run Examples.tight_pause_inputs Examples.racing) in
  omap reported out
  = [(RACING, 33); (RACING, 66); (PAUSED, 99); (PAUSED, 132); (PAUSED, 165);
     (RACING, 126)]
  /\ (tickInterval < inject_Z (126 - 66))%Q
  /\ exists w, run Examples.tight_pause_inputs Examples.racing = Done w out.
Proof.
  vm_compute. split; [reflexivity|]. split; [reflexivity|].
  eexists. reflexivity.
Qed.

(** * The spawn chain *)

Lemma on_chain_ge c y : on_chain c y -> (c <= y)%Q.
Proof.
  assert (Hint : (spawnIntervalPixels == 100)%Q) by reflexivity.
  induction 1 as [c y Hy|c y _ IH]; lra.
Qed.

Lemma on_chain_Qeq c c' y : (c == c')%Q -> on_chain c y -> on_chain c' y.
Proof.
  intros Heq Hc. revert c' Heq.
  induction Hc as [c y Hy|c y _ IH]; intros c' Heq.
  - apply chain_here. now rewrite Hy.
  - apply chain_up. apply IH. now rewrite Heq.
Qed.

(** Any window one interval long, at or above the cursor, holds a chain
    position. *)
Lemma on_chain_window n : forall c a,
  (a - c <= inject_Z (Z.of_nat n) * spawnIntervalPixels)%Q ->
  (c <= a)%Q ->
  exists y, on_chain c y /\ (a <= y)%Q /\ (y < a + spawnIntervalPixels)%Q.
Proof.
  assert (Hint : (spawnIntervalPixels == 100)%Q) by reflexivity.
  induction n as [|n IH]; intros c a Hn Hca.
  - exists c. split; [now apply chain_here|].
    change (inject_Z (Z.of_nat 0)) with 0%Q in Hn. lra.
  - destruct (Qlt_le_dec a (c + spawnIntervalPixels)) as [Hnear|Hfar].
    + destruct (Qlt_le_dec c a) as [Hlt|Hge].
      * exists (c + spawnIntervalPixels)%Q.
        split; [apply chain_up; now apply chain_here|]. lra.
      * exists c. split; [now apply chain_here|]. lra.
    + destruct (IH (c + spawnIntervalPixels)%Q a) as (y & Hy & Hlo & Hhi).
      * rewrite Nat2Z.inj_succ in Hn. unfold Z.succ in Hn.
        rewrite inject_Z_plus in Hn. change (inject_Z 1) with 1%Q in Hn. lra.
      * exact Hfar.
      * exists y. split; [now apply chain_up|]. now split.
Qed.

Lemma leader_le_trailer players :
  (leaderWorldY players <= trailerWorldY players)%Q.
Proof.
  destruct players as [|kv ps] eqn:E.
  - unfold leaderWorldY, trailerWorldY. simpl. lra.
  - destruct (world_bounds_spec (kv :: ps)) as (_ & Hall & Hex & _); [done|].
    apply Exists_exists in Hex as (p & Hin & _).
    rewrite Forall_forall in Hall. specialize (Hall p Hin). lra.
Qed.

Lemma spawn_one_chain rnd k room :
  chain_filled room -> chain_filled (spawn_one rnd k room).
Proof.
  assert (Hint : (spawnIntervalPixels == 100)%Q) by reflexivity.
  intros Hfilled y Hc Hy.
  destruct (spawn_one_obstacles rnd k room) as (obs & Hobs & Hwy & _).
  unfold obstacle_at. rewrite Hobs. apply Exists_app.
  rewrite spawn_one_cursor in Hc.
  inversion Hc as [c y' Hhere|c y' Hup]; subst.
  - right. constructor 1. now rewrite Hwy, Hhere.
  - left. apply Hfilled; [|exact Hy].
    eapply on_chain_Qeq; [|exact Hup]. lra.
Qed.

Lemma spawn_loop_chain rnd thr fuel : forall k room,
  chain_filled room -> chain_filled (fst (spawn_loop fuel rnd thr k room)).
Proof.
  induction fuel as [|fuel IH]; intros k room Hfilled; simpl; [done|].
  destruct (Qltb thr (Room.lastSpawnWorldY room)); [|done].
  apply IH. now apply spawn_one_chain.
Qed.

Lemma despawn_chain maxWorldY room :
  (leaderWorldY (Room.players room) <= maxWorldY)%Q ->
  chain_filled room -> chain_filled (despawn maxWorldY room).
Proof.
  assert (Hint : (spawnIntervalPixels == 100)%Q) by reflexivity.
  assert (Hbuf : (despawnBufferPixels == 200)%Q) by reflexivity.
  intros Hle Hfilled y Hc Hy.
  specialize (Hfilled y Hc Hy).
  apply Exists_exists in Hfilled as (obs & Hin & Hwy).
  apply Exists_exists. exists obs. split; [|exact Hwy].
  apply despawn_obstacles. split; [exact Hin|].
  change (Room.players (despawn maxWorldY room)) with (Room.players room) in Hy.
  rewrite Hwy. lra.
Qed.

Lemma no_players_leader players :
  snd (world_bounds players) = false -> leaderWorldY players = 0%Q.
Proof.
  destruct players as [|kv ps]; [reflexivity|].
  destruct (world_bounds_spec (kv :: ps)) as (Hhas & _); [done|]. congruence.
Qed.

Lemma with_cursor_chain room :
  window_inv room -> chain_filled (with_cursor room).
Proof.
  assert (Hint : (spawnIntervalPixels == 100)%Q) by reflexivity.
  intros Hinv. unfold with_cursor.
  destruct (Qeq_bool (Room.lastSpawnWorldY room) 0) eqn:Hz; simpl.
  - destruct (snd (world_bounds (Room.players room))) eqn:Hhas;
      intros y Hc Hy; apply on_chain_ge in Hc; simpl in *; exfalso.
    + lra.
    + apply Qeq_bool_eq in Hz. rewrite (no_players_leader _ Hhas) in Hy. lra.
  - now apply Hinv.
Qed.

Lemma tick_obstacles_chain rnd k room :
  Room.raceState room = RACING ->
  window_inv room ->
  chain_filled (fst (tick_obstacles rnd k room))
  /\ (Room.lastSpawnWorldY (fst (tick_obstacles rnd k room))
      <= spawnThreshold room)%Q.
Proof.
  intros Hs Hinv. rewrite (tick_obstacles_racing rnd k room Hs).
  set (looped := fst (spawn_loop
                        (spawn_fuel (spawnThreshold room) (with_cursor room))
                        rnd (spawnThreshold room) k (with_cursor room))).
  assert (Hplayers : Room.players looped = Room.players room).
  { unfold looped.
    match goal with
    | |- context [spawn_loop ?f rnd ?t k ?r] =>
        destruct (spawn_loop_frame rnd t f k r) as (_ & -> & _)
    end.
    now destruct (with_cursor_frame room) as (_ & -> & _). }
  split.
  - apply despawn_chain.
    + rewrite Hplayers. apply leader_le_trailer.
    + apply spawn_loop_chain. now apply with_cursor_chain.
  - change (Room.lastSpawnWorldY
              (despawn (trailerWorldY (Room.players room)) looped))
      with (Room.lastSpawnWorldY looped).
    apply spawn_loop_exits. reflexivity.
Qed.

Lemma window_inv_mono r r' :
  Room.obstacles r' = Room.obstacles r ->
  Room.lastSpawnWorldY r' = Room.lastSpawnWorldY r ->
  (cursor_set r' ->
   (leaderWorldY (Room.players r') <= leaderWorldY (Room.players r))%Q) ->
  window_inv r -> window_inv r'.
Proof.
  unfold window_inv, cursor_set, chain_filled, obstacle_at.
  intros Ho Hl Hle Hinv Hset y Hc Hy.
  rewrite Ho. rewrite Hl in *. apply Hinv; [exact Hset|exact Hc|].
  specialize (Hle Hset). lra.
Qed.

Lemma tick_room_chain now rnd k roomCode room :
  window_inv room ->
  let room' := fst (fst (tick_room now rnd k roomCode room)) in
  window_inv room'
  /\ (Room.members room <> [] -> Room.raceState room' = RACING ->
      chain_filled room'
      /\ (Room.lastSpawnWorldY room'
          <= leaderWorldY (Room.players room') - spawnAheadPixels)%Q).
Proof.
  intros Hinv room'.
  destruct (Room.members room) as [|m ms] eqn:Hm.
  { unfold room'. rewrite tick_room_room, Hm. simpl. split; [done|]. done. }
  assert (Hmem : Room.members room <> []) by (rewrite Hm; discriminate).
  destruct (tick_room_obstacle_phase now rnd k roomCode room Hmem)
    as (room2 & Hroom' & Ho2 & Hl2 & Hb2 & Hs2).
  fold room' in Hroom', Hs2.
  assert (Hinv2 : window_inv room2).
  { apply (window_inv_mono room room2 Ho2 Hl2); [|exact Hinv].
    intros _. unfold leaderWorldY. rewrite Hb2. apply Qle_refl. }
  assert (Hld : leaderWorldY (Room.players room')
                = leaderWorldY (Room.players room2)).
  { rewrite Hroom'.
    now destruct (tick_obstacles_frame rnd k room2) as (_ & -> & _). }
  destruct (decide (Room.raceState room2 = RACING)) as [Hr|Hr].
  - destruct (tick_obstacles_chain rnd k room2 Hr Hinv2) as (Hc & Hcur).
    rewrite <- Hroom' in Hc, Hcur.
    split; [intros _; exact Hc|]. intros _ _. split; [exact Hc|].
    rewrite Hld. exact Hcur.
  - rewrite (tick_obstacles_other rnd k room2 Hr) in Hroom'. simpl in Hroom'.
    split; [now rewrite Hroom'|]. intros _ Hracing. congruence.
Qed.

Lemma room_step_window now roomCode room i room' fin :
  window_inv room ->
  room_step now roomCode room i room' fin ->
  (cursor_set room' ->
   (leaderWorldY (Room.players room')
    <= leaderWorldY (Room.players room))%Q) ->
  window_inv room'.
Proof.
  intros Hinv Hs Hle.
  destruct Hs; subst;
    try (apply (window_inv_mono room); [reflexivity|reflexivity|exact Hle|exact Hinv]).
  - intros Hset. discriminate Hset.
  - now apply tick_room_chain.
Qed.

(** As long as the leader never retreats, every room keeps its chain of
    obstacles. *)
Lemma run_window roomCode evs : forall w w' out,
  reachable w ->
  (forall room, room_at roomCode w = Some room -> window_inv room) ->
  leader_never_retreats roomCode evs w ->
  run evs w = Done w' out ->
  reachable w'
  /\ forall room', room_at roomCode w' = Some room' -> window_inv room'.
Proof.
  induction evs as [|[now i] evs IH]; intros w w' out Hw Hinv Hadv Hrun.
  - simpl in Hrun. injection Hrun as <- _. now split.
  - simpl in Hrun, Hadv.
    destruct (handle now i w) as [w1 out1|w1 out1] eqn:Hh; [|done].
    destruct Hadv as [Hle Hadv].
    destruct (run evs w1) as [w2 out2|w2 out2] eqn:Hr; [|done].
    injection Hrun as <- _.
    apply (IH w1 w2 out2); [eapply reachable_step; eauto| |exact Hadv|exact Hr].
    intros room1 Hat1.
    assert (Hat1' : room_at roomCode (outcome_world (handle now i w))
                    = Some room1) by now rewrite Hh.
    apply handle_room_effect in Hat1'; [|now apply reachable_NoDup].
    destruct Hat1' as [[Hsame _]|[(room0 & H0 & Hs)
                                 |(_ & _ & sid & name & _ & ->)]].
    + now apply Hinv.
    + eapply room_step_window; [apply (Hinv _ H0)|exact Hs|].
      now apply Hle.
    + intros Hset. discriminate Hset.
Qed.

(** A filled chain whose cursor has reached the spawn-ahead limit puts an
    obstacle within the spawn-ahead distance of the leader. *)
Lemma chain_filled_within room :
  chain_filled room ->
  (Room.lastSpawnWorldY room
   <= leaderWorldY (Room.players room) - spawnAheadPixels)%Q ->
  obstacle_within_spawn_ahead room = true.
Proof.
  assert (Hint : (spawnIntervalPixels == 100)%Q) by reflexivity.
  assert (Hah : (spawnAheadPixels == 600)%Q) by reflexivity.
  intros Hfilled Hcur.
  set (leader := leaderWorldY (Room.players room)) in *.
  set (c := Room.lastSpawnWorldY room) in *.
  destruct (on_chain_window (Z.to_nat (Qceiling (leader - spawnAheadPixels - c)))
              c (leader - spawnAheadPixels)%Q) as (y & Hy & Hlo & Hhi).
  - pose proof (Qle_ceiling (leader - spawnAheadPixels - c)) as Hup.
    set (z := Qceiling (leader - spawnAheadPixels - c)) in *.
    assert (Hz : (inject_Z z <= inject_Z (Z.of_nat (Z.to_nat z)))%Q)
      by (rewrite <- Zle_Qle; lia).
    assert (Hnn : (0 <= inject_Z (Z.of_nat (Z.to_nat z)))%Q)
      by (change 0%Q with (inject_Z 0); rewrite <- Zle_Qle; lia).
    rewrite Hint. lra.
  - exact Hcur.
  - assert (Hobs : obstacle_at room y) by (apply Hfilled; [exact Hy|fold leader; lra]).
    apply Exists_exists in Hobs as (obs & Hin & Hwy).
    unfold obstacle_within_spawn_ahead. apply existsb_exists.
    exists obs. split; [now apply list_elem_of_In|].
    fold leader. apply andb_true_iff. split.
    + apply Qle_bool_iff. rewrite Hwy. lra.
    + apply Qltb_lt. rewrite Hwy. lra.
Qed.


Lemma racing_inputs_leader_never_retreats :
  leader_never_retreats "ABCD" Examples.racing_inputs empty_world.
Proof.
  vm_compute. repeat split; intros room room' H1 H2 Hset;
    try discriminate H1; injection H1 as <-; injection H2 as <-;
    vm_compute; discriminate.
Qed.


Lemma moved_back_reachable : reachable Examples.moved_back.
Proof.
  apply (run_reachable Examples.backward_inputs Examples.racing
           Examples.moved_back
           (outcome_emits (run Examples.backward_inputs Examples.racing)));
    [apply racing_reachable|].
  vm_compute. reflexivity.
Qed.


(** * Senders and rooms *)

Lemma socket_room_None_cases sid w :
  socket_room sid w = None ->
  socks w !! sid = None
  \/ exists s, socks w !! sid = Some s
               /\ Obj.get (Socket.roomCode s) (rooms w) = None.
Proof.
  unfold socket_room. destruct (socks w !! sid) as [s|]; [|now left].
  destruct (Obj.get (Socket.roomCode s) (rooms w)) eqn:E; [done|].
  right. now exists s.
Qed.

(** X1.  A socket that is attached to no existing room (it never joined,
    or the room it was refused from is gone) is not served: whatever it
    sends, apart from join-room, changes no room and is answered by
    nothing, not even an error; only its disconnect drops the attributes
    stored for it. *)
Theorem event_without_room_is_dropped (now : Z) (i : Input) (sid : string)
    (w : World) :
  sender i = Some sid -> is_join i = false ->
  socket_room sid w = None ->
  handle now i w
  = Done (if is_disconnect i
          then mkWorld (rooms w) (delete sid (socks w)) else w) [].
Proof.
  intros Hs Hj Hnone.
  destruct i; try discriminate; injection Hs as ->; cbn [handle is_disconnect].
  - unfold on_set_race_distance. now rewrite Hnone.
  - unfold on_start_race. now rewrite Hnone.
  - unfold on_toggle_pause. now rewrite Hnone.
  - unfold on_player_update. now rewrite Hnone.
  - unfold on_restart_game. now rewrite Hnone.
  - unfold on_collision. now rewrite Hnone.
  - unfold on_disconnect.
    destruct (socket_room_None_cases _ _ Hnone) as [Hn|(s & Hs & Hg)].
    + rewrite Hn. unfold done. cbn [fst snd]. f_equal.
      destruct w as [rs ss]. cbn [rooms socks] in *. f_equal.
      symmetry. now apply delete_id.
    + now rewrite Hs, Hg.
Qed.

Lemma event_without_room_is_dropped_witness :
  handle 1500 (StartRace "z") Examples.lobby = Done Examples.lobby [].
Proof.
  apply (event_without_room_is_dropped 1500 (StartRace "z") "z"
           Examples.lobby); vm_compute; reflexivity.
Defined.

Lemma socket_room_code sid roomCode room w :
  socket_room sid w = Some (roomCode, room) ->
  Socket.roomCode <$> socks w !! sid = Some roomCode.
Proof.
  unfold socket_room. destruct (socks w !! sid) as [s|]; [|done].
  destruct (Obj.get (Socket.roomCode s) (rooms w)); [|done].
  now intros [= <- _].
Qed.

Local Ltac each_emit :=
  unfold done; cbn [outcome_emits snd];
  repeat match goal with
         | |- Forall _ (_ :: _) => constructor
         | |- Forall _ [] => constructor
         end.

(** X2.  Rooms are isolated from one another: a listener changes no
    room but the one it works on (the room named in a join-room, the
    room stored on the socket otherwise), and whatever it emits goes to
    the sender or to that room. *)
Theorem other_rooms_are_untouched (now : Z) (i : Input) (sid : string)
    (w : World) :
  sender i = Some sid ->
  (forall code,
      addressed_room i w <> Some code ->
      room_at code (outcome_world (handle now i w)) = room_at code w)
  /\ Forall (fun e =>
               target e = ToSocket sid
               \/ exists code,
                   addressed_room i w = Some code
                   /\ (target e = ToRoom code
                       \/ target e = ToRoomExcept code sid))
       (outcome_emits (handle now i w)).
Proof.
  intros Hs.
  assert (Hput : forall c r r',
             socket_room sid w = Some (c, r) ->
             forall code, Socket.roomCode <$> socks w !! sid <> Some code ->
             room_at code (put_room c r' w) = room_at code w).
  { intros c r r' Hsr code Hne. apply room_at_put_ne.
    intros ->. apply Hne. now apply socket_room_code in Hsr. }
  assert (Hroom : forall c r,
             socket_room sid w = Some (c, r) ->
             forall e, target e = ToRoom c ->
             target e = ToSocket sid
             \/ exists code,
                 Socket.roomCode <$> socks w !! sid = Some code
                 /\ (target e = ToRoom code
                     \/ target e = ToRoomExcept code sid)).
  { intros c r Hsr e He. right. exists c.
    split; [now apply socket_room_code in Hsr|now left]. }
  destruct i; try discriminate; injection Hs as ->;
    cbn [handle addressed_room sender].
  - (* join-room *)
    rewrite on_join_room_cases. cbv zeta.
    destruct (negb (truthy_str roomCode) || negb (truthy_str name)).
    { split; [done|]. each_emit. now left. }
    destruct (Obj.get roomCode (rooms w)) as [room|] eqn:Hget.
    + destruct (race_in_progress room).
      * split; [done|]. each_emit. now left.
      * split.
        -- intros code Hne. unfold room_at. cbn [outcome_world rooms].
           apply get_set_ne. congruence.
        -- unfold joined_emits. cbn [outcome_emits].
           each_emit; [now left|].
           right. exists roomCode. split; [done|now right].
    + destruct (inherited roomCode).
      * split; [done|]. cbn [outcome_emits]. constructor.
      * split.
        -- intros code Hne. unfold room_at. cbn [outcome_world rooms].
           apply get_add_ne. congruence.
        -- unfold joined_emits. cbn [outcome_emits].
           each_emit; [now left|].
           right. exists roomCode. split; [done|now right].
  - (* set-race-distance *)
    unfold on_set_race_distance.
    destruct (socket_room sid w) as [[c r]|] eqn:Hsr;
      [|split; [done|constructor]].
    destruct (negb (is_creator sid r)); [split; [done|each_emit; now left]|].
    destruct (negb (bool_decide (Room.raceState r = WAITING)));
      [split; [done|each_emit; now left]|].
    split; [intros code; now apply (Hput c r)|].
    each_emit. now apply (Hroom c r).
  - (* start-race *)
    unfold on_start_race.
    destruct (socket_room sid w) as [[c r]|] eqn:Hsr;
      [|split; [done|constructor]].
    destruct (negb (is_creator sid r)); [split; [done|each_emit; now left]|].
    destruct (_ <? _)%nat; [split; [done|each_emit; now left]|].
    destruct (negb (bool_decide (Room.raceState r = WAITING)));
      [split; [done|each_emit; now left]|].
    split; [intros code; now apply (Hput c r)|].
    each_emit. now apply (Hroom c r).
  - (* toggle-pause *)
    unfold on_toggle_pause.
    destruct (socket_room sid w) as [[c r]|] eqn:Hsr;
      [|split; [done|constructor]].
    destruct (negb (is_creator sid r)); [split; [done|each_emit; now left]|].
    destruct (bool_decide (Room.raceState r = RACING)).
    { split; [intros code; now apply (Hput c r)|].
      each_emit. now apply (Hroom c r). }
    destruct (bool_decide (Room.raceState r = PAUSED)).
    { split; [intros code; now apply (Hput c r)|].
      each_emit. now apply (Hroom c r). }
    split; [done|constructor].
  - (* player-update *)
    unfold on_player_update.
    destruct (socket_room sid w) as [[c r]|] eqn:Hsr;
      [|split; [done|constructor]].
    destruct (Obj.get sid (Room.players r)) as [player|];
      [|split; [done|constructor]].
    destruct (_ && _); [|split; [done|constructor]].
    destruct (crosses_line _ _).
    + destruct (forallb _ _).
      * destruct (race_results _ _ _); cbn [outcome_world outcome_emits];
          (split; [intros code; now apply (Hput c r)|]);
          each_emit; now apply (Hroom c r).
      * cbn [outcome_world outcome_emits].
        split; [intros code; now apply (Hput c r)|].
        each_emit. now apply (Hroom c r).
    + cbn [outcome_world outcome_emits].
      split; [intros code; now apply (Hput c r)|constructor].
  - (* restart-game *)
    unfold on_restart_game.
    destruct (socket_room sid w) as [[c r]|] eqn:Hsr;
      [|split; [done|constructor]].
    destruct (negb (is_creator sid r)); [split; [done|each_emit; now left]|].
    split; [intros code; now apply (Hput c r)|].
    each_emit. now apply (Hroom c r).
  - (* collision *)
    unfold on_collision.
    destruct (socket_room sid w) as [[c r]|] eqn:Hsr;
      [|split; [done|constructor]].
    destruct (Obj.get sid (Room.players r)) as [player|];
      [|split; [done|constructor]].
    split; [intros code; now apply (Hput c r)|constructor].
  - (* disconnect *)
    unfold on_disconnect.
    destruct (socks w !! sid) as [s|] eqn:Hsock; [|split; [done|constructor]].
    destruct (Obj.get (Socket.roomCode s) (rooms w)) as [room|];
      [|split; [done|constructor]].
    assert (Hev : forall e, target e = ToRoom (Socket.roomCode s) ->
              target e = ToSocket sid
              \/ exists code,
                  Socket.roomCode <$> Some s = Some code
                  /\ (target e = ToRoom code
                      \/ target e = ToRoomExcept code sid)).
    { intros e He. right. exists (Socket.roomCode s). split; [done|now left]. }
    destruct (_ =? _)%nat; unfold done, room_at;
      cbn [outcome_world outcome_emits fst snd rooms].
    + split; [|each_emit; now apply Hev].
      intros code Hne. apply get_del_ne. intros Heq. apply Hne. simpl. congruence.
    + split; [|each_emit; now apply Hev].
      intros code Hne. apply get_set_ne. intros Heq. apply Hne. simpl. congruence.
Qed.

Lemma other_rooms_are_untouched_witness :
  room_at "WXYZ"
    (outcome_world (handle 3000 (RestartGame "a") Cases.two_rooms))
  = room_at "WXYZ" Cases.two_rooms.
Proof.
  apply (proj1 (other_rooms_are_untouched 3000 (RestartGame "a") "a"
                  Cases.two_rooms eq_refl) "WXYZ").
  vm_compute. discriminate.
Defined.

(** * Joining *)

(** X3.  A refused join-room changes no room and is answered by one
    error to the sender.  Without a room code or a name nothing at all
    changes.  A join to a room whose race is under way (countdown,
    racing or paused) is refused after [socket.roomCode] and
    [socket.userName] were assigned: the socket now points at the room
    that refused it. *)
Theorem refused_join_changes_no_room (now : Z) (sid roomCode name : string)
    (w : World) :
  (truthy_str roomCode = false \/ truthy_str name = false ->
   handle now (JoinRoom sid roomCode name) w
   = Done w [error_to sid "Room code and name are required"])
  /\ (forall room,
         truthy_str roomCode = true -> truthy_str name = true ->
         room_at roomCode w = Some room ->
         Room.raceState room = COUNTDOWN \/ Room.raceState room = RACING
         \/ Room.raceState room = PAUSED ->
         handle now (JoinRoom sid roomCode name) w
         = Done (mkWorld (rooms w)
                   (<[sid := Socket.mk roomCode name]> (socks w)))
             [error_to sid
                "Race already in progress. Wait for it to finish."]).
Proof.
  split.
  - intros Hmissing. cbn [handle]. rewrite on_join_room_cases.
    destruct Hmissing as [-> | ->]; [done|].
    now rewrite orb_true_r.
  - intros room Hcode Hname Hat Hst. cbn [handle]. rewrite on_join_room_cases.
    rewrite Hcode, Hname. cbn [negb orb]. cbv zeta.
    unfold room_at in Hat. rewrite Hat.
    assert (Hprog : race_in_progress room = true).
    { unfold race_in_progress.
      destruct Hst as [-> | [-> | ->]]; reflexivity. }
    now rewrite Hprog.
Qed.

Lemma refused_join_changes_no_room_witness :
  handle 5000 (JoinRoom "c" "ABCD" "Cyd") Examples.racing
  = Done (mkWorld (rooms Examples.racing)
            (<["c" := Socket.mk "ABCD" "Cyd"]> (socks Examples.racing)))
      [error_to "c" "Race already in progress. Wait for it to finish."].
Proof.
  apply (proj2 (refused_join_changes_no_room 5000 "c" "ABCD" "Cyd"
                  Examples.racing) (Examples.the_room Examples.racing)).
  - reflexivity.
  - reflexivity.
  - vm_compute. reflexivity.
  - right. left. vm_compute. reflexivity.
Defined.

(** * Members and players *)

Section ObjMore.
Context {V : Type}.
Implicit Types (o : list (string * V)) (k : string) (v : V).

Lemma keys_set_present k v v' o :
  Obj.get k o = Some v' -> Obj.keys (Obj.set k v o) = Obj.keys o.
Proof.
  intros Hget. destruct (keys_set k v o) as [H|[Hnin _]]; [done|].
  exfalso. apply Hnin. eapply get_Some_keys, Hget.
Qed.

Lemma keys_del_NoDup k k' o :
  NoDup (Obj.keys o) ->
  k' ∈ Obj.keys (Obj.del k o) <-> k' <> k /\ k' ∈ Obj.keys o.
Proof.
  induction o as [|[k1 v1] o IH]; simpl; intros Hnd.
  - split; [intros H; inversion H|tauto].
  - apply NoDup_cons in Hnd as [Hnin Hnd].
    destruct (String.eqb_spec k k1) as [->|Hk]; simpl.
    + split.
      * intros Hin. split; [intros ->; done|now right].
      * intros [Hne Hin]. apply elem_of_cons in Hin as [?|?]; done.
    + rewrite !elem_of_cons, (IH Hnd). split.
      * intros [->|[? ?]]; [split; [congruence|now left]|tauto].
      * intros [Hne [->|Hin]]; [now left|right; tauto].
Qed.

Lemma keys_get k o : k ∈ Obj.keys o -> exists v, Obj.get k o = Some v.
Proof.
  induction o as [|[k1 v1] o IH]; simpl; intros Hin; [inversion Hin|].
  destruct (String.eqb_spec k k1) as [->|Hk]; [eauto|].
  apply IH. apply elem_of_cons in Hin as [?|?]; done.
Qed.
End ObjMore.

Lemma expired_keys now players :
  Obj.keys (expired now players) = Obj.keys players.
Proof.
  unfold expired, Obj.keys. rewrite map_map. now apply map_ext.
Qed.

Lemma expired_get now id players :
  Obj.get id (expired now players)
  = expire_stun now <$> Obj.get id players.
Proof.
  induction players as [|[k p] ps IH]; simpl; [done|].
  now destruct (String.eqb id k).
Qed.

(** What a tick does to the players of a room: nothing, or stun expiry. *)
Lemma tick_room_players now rnd k roomCode room :
  let room' := fst (fst (tick_room now rnd k roomCode room)) in
  Room.players room'
  = if bool_decide (Room.raceState room' = RACING)
       && (0 <? length (Room.members room))%nat
    then expired now (Room.players room)
    else Room.players room.
Proof.
  cbv zeta. rewrite tick_room_room.
  destruct (0 <? length (Room.members room))%nat;
    [|now rewrite andb_false_r].
  rewrite andb_true_r.
  set (room1 := fst (tick_countdown now roomCode room)).
  destruct (tick_obstacles_frame rnd k (tick_racing now room1))
    as (_ & -> & _ & _ & _ & _ & _ & _ & -> & _).
  destruct (tick_racing_frame now room1)
    as (_ & _ & _ & _ & _ & _ & _ & -> & _).
  destruct (tick_countdown_frame now roomCode room) as (_ & Hp & _).
  fold room1 in Hp. rewrite <- Hp.
  unfold tick_racing.
  destruct (bool_decide (Room.raceState room1 = RACING)); [|done].
  unfold expand_road, ramp_speed, update_stuns.
  repeat match goal with
         | |- context [if ?c then _ else _] => destruct c
         end; reflexivity.
Qed.

Lemma tick_room_player_keys now rnd k roomCode room :
  Obj.keys (Room.players (fst (fst (tick_room now rnd k roomCode room))))
  = Obj.keys (Room.players room).
Proof.
  rewrite tick_room_players.
  destruct (_ && _); [apply expired_keys|done].
Qed.

Lemma room_step_players_NoDup now roomCode room i room' fin :
  NoDup (Obj.keys (Room.players room)) ->
  room_step now roomCode room i room' fin ->
  NoDup (Obj.keys (Room.players room')).
Proof.
  intros Hnd Hs.
  destruct Hs; subst; simpl; auto using NoDup_keys_set, NoDup_keys_del.
  - now rewrite reset_players_keys.
  - now rewrite tick_room_player_keys.
Qed.

Lemma member_ids_left sid room id :
  id ∈ member_ids (left_room sid room)
  <-> id <> sid /\ id ∈ member_ids room.
Proof.
  unfold member_ids, left_room. simpl.
  rewrite !list_elem_of_fmap. split.
  - intros (m & -> & Hin). apply list_elem_of_In, filter_In in Hin
      as [Hin Hne]. apply negb_true_iff, String.eqb_neq in Hne.
    split; [done|]. exists m. split; [done|now apply list_elem_of_In].
  - intros (Hne & m & -> & Hin). exists m. split; [done|].
    apply list_elem_of_In, filter_In. split; [now apply list_elem_of_In|].
    now apply negb_true_iff, String.eqb_neq.
Qed.

(** The ids listed in [members] are the keys of [players]. *)
Lemma reachable_member_keys w roomCode room :
  reachable w -> room_at roomCode w = Some room ->
  NoDup (Obj.keys (Room.players room))
  /\ forall id, id ∈ member_ids room <-> id ∈ Obj.keys (Room.players room).
Proof.
  intros Hw Hat.
  revert roomCode room Hat.
  apply (reachable_rooms
           (fun room =>
              NoDup (Obj.keys (Room.players room))
              /\ forall id, id ∈ member_ids room
                            <-> id ∈ Obj.keys (Room.players room)));
    [| |exact Hw].
  - intros now sid name. split; [apply NoDup_singleton|].
    intros id. reflexivity.
  - intros now roomCode room i room' fin [Hnd Hiff] Hs.
    split; [eapply room_step_players_NoDup; eauto|].
    intros id. unfold member_ids in *.
    destruct Hs; subst; simpl; try apply Hiff.
    + (* join *)
      rewrite map_app, elem_of_app. simpl.
      rewrite list_elem_of_singleton, Hiff.
      set (p := new_player name
                  (length (Room.members room ++ [Member.mk sid name]) - 1)).
      pose proof (get_Some_keys _ _ _ (get_set_eq sid p (Room.players room)))
        as Hsid.
      destruct (keys_set sid p (Room.players room)) as [Heq|[Hnin Heq]];
        rewrite Heq in *.
      * split; [intros [? | ->]; done|tauto].
      * rewrite elem_of_app, list_elem_of_singleton. tauto.
    + (* move *)
      erewrite keys_set_present by eassumption. apply Hiff.
    + (* finish *)
      erewrite keys_set_present by eassumption. apply Hiff.
    + (* last finish *)
      erewrite keys_set_present by eassumption. apply Hiff.
    + (* restart *)
      rewrite reset_players_keys. apply Hiff.
    + (* collision *)
      erewrite keys_set_present by eassumption. apply Hiff.
    + (* disconnect *)
      pose proof (member_ids_left sid room id) as Hl.
      unfold member_ids, left_room in Hl. simpl in Hl.
      rewrite Hl, keys_del_NoDup by done. now rewrite Hiff.
    + (* tick *)
      rewrite tick_room_members, tick_room_player_keys. apply Hiff.
Qed.

(** X4.  Every room of every reachable world has at least one member
    (it is created by a join and deleted with its last member), and its
    players object has one entry per member: the ids listed in [members]
    are exactly the keys of [players] (a socket that joins its room twice
    is listed twice but still has one player). *)
Theorem members_are_the_players (w : World) (roomCode : string)
    (room : Room.t) :
  reachable w -> room_at roomCode w = Some room ->
  Room.members room <> []
  /\ NoDup (Obj.keys (Room.players room))
  /\ (forall id, id ∈ member_ids room <-> id ∈ Obj.keys (Room.players room))
  /\ (length (Obj.keys (Room.players room)) <= length (Room.members room))%nat.
Proof.
  intros Hw Hat.
  split; [eapply reachable_members; eauto|].
  destruct (reachable_member_keys w roomCode room Hw Hat) as [Hnd Hiff].
  split; [done|]. split; [done|].
  rewrite <- (length_map Member.id (Room.members room)).
  apply submseteq_length, NoDup_submseteq; [done|].
  intros id Hin. now apply Hiff.
Qed.

Lemma members_are_the_players_witness :
  let room := Examples.the_room Examples.racing in
  Room.members room <> []
  /\ NoDup (Obj.keys (Room.players room))
  /\ (forall id, id ∈ member_ids room <-> id ∈ Obj.keys (Room.players room))
  /\ (length (Obj.keys (Room.players room)) <= length (Room.members room))%nat.
Proof.
  apply (members_are_the_players Examples.racing "ABCD");
    [apply racing_reachable|vm_compute; reflexivity].
Defined.

Lemma reachable_players_NoDup w roomCode room :
  reachable w -> room_at roomCode w = Some room ->
  NoDup (Obj.keys (Room.players room)).
Proof.
  intros Hw. revert roomCode room.
  apply (reachable_rooms (fun room => NoDup (Obj.keys (Room.players room))));
    [| |exact Hw].
  - intros. apply NoDup_singleton.
  - intros. eapply room_step_players_NoDup; eauto.
Qed.

(** What no tick changes in a room. *)
Lemma tick_room_static now rnd k roomCode room :
  let room' := fst (fst (tick_room now rnd k roomCode room)) in
  Room.creatorId room' = Room.creatorId room
  /\ Room.raceDistance room' = Room.raceDistance room
  /\ Room.countdownStartTime room' = Room.countdownStartTime room
  /\ Room.pausedAt room' = Room.pausedAt room.
Proof.
  cbv zeta. rewrite tick_room_room.
  destruct (0 <? length (Room.members room))%nat; [|tauto].
  set (room1 := fst (tick_countdown now roomCode room)).
  destruct (tick_obstacles_frame rnd k (tick_racing now room1))
    as (_ & _ & _ & _ & _ & _ & _ & -> & _ & _ & -> & _ & _ & -> & ->).
  destruct (tick_racing_frame now room1)
    as (_ & _ & _ & _ & _ & _ & -> & _ & _ & -> & _ & _ & -> & ->).
  destruct (tick_countdown_frame now roomCode room)
    as (_ & _ & _ & _ & _ & _ & _ & H1 & H2 & _ & H3 & H4).
  fold room1 in H1, H2, H3, H4. tauto.
Qed.

(** * Race distance *)

Lemma clamp_distance_range parsed : 100 <= clamp_distance parsed <= 10000.
Proof. unfold clamp_distance. lia. Qed.

(** X5.  The race distance of every room of every reachable world lies
    between 100 and 10000 metres. *)
Theorem race_distance_stays_in_range (w : World) (roomCode : string)
    (room : Room.t) :
  reachable w -> room_at roomCode w = Some room ->
  100 <= Room.raceDistance room <= 10000.
Proof.
  intros Hw. revert roomCode room.
  apply (reachable_rooms (fun room => 100 <= Room.raceDistance room <= 10000));
    [| |exact Hw].
  - intros now sid name. simpl. unfold DEFAULT_RACE_DISTANCE. lia.
  - intros now roomCode room i room' fin IH Hs.
    destruct Hs; subst; simpl; try exact IH.
    + apply clamp_distance_range.
    + destruct (tick_room_static now rnd k roomCode room) as (_ & -> & _).
      exact IH.
Qed.

Lemma race_distance_stays_in_range_witness :
  100 <= Room.raceDistance (Examples.the_room Examples.racing) <= 10000.
Proof.
  apply (race_distance_stays_in_range Examples.racing "ABCD");
    [apply racing_reachable|vm_compute; reflexivity].
Defined.

(** X6.  set-race-distance from the creator.  While the room is waiting
    the parsed distance is stored clamped to 100..10000 and announced to
    the room: a value in that range is taken as it is, a larger one gives
    10000, a smaller one gives 100 -- except 0, which like NaN is falsy
    and gives the default of 1000.  In any other state the request is
    refused with an error and nothing changes. *)
Theorem host_sets_distance_only_while_waiting (now : Z) (sid : string)
    (parsed : option Z) (roomCode : string) (room : Room.t) (w : World) :
  socket_room sid w = Some (roomCode, room) ->
  is_creator sid room = true ->
  (Room.raceState room = WAITING ->
   exists d,
     handle now (SetRaceDistance sid parsed) w
     = Done (put_room roomCode (Room.set_raceDistance d room) w)
         [mkEmit (ToRoom roomCode) (EvRaceDistanceChanged d)]
     /\ (forall n, parsed = Some n -> 100 <= n <= 10000 -> d = n)
     /\ (forall n, parsed = Some n -> 10000 < n -> d = 10000)
     /\ (forall n, parsed = Some n -> n < 100 -> n <> 0 -> d = 100)
     /\ (parsed = Some 0 \/ parsed = None -> d = DEFAULT_RACE_DISTANCE))
  /\ (Room.raceState room <> WAITING ->
      handle now (SetRaceDistance sid parsed) w
      = Done w [error_to sid "Can only set distance before race starts"]).
Proof.
  intros Hsr Hc. cbn [handle]. unfold on_set_race_distance.
  rewrite Hsr, Hc. cbn [negb]. split.
  - intros Hst. rewrite bool_decide_eq_true_2 by done. cbn [negb].
    exists (clamp_distance parsed). split; [reflexivity|].
    unfold clamp_distance, DEFAULT_RACE_DISTANCE.
    repeat split.
    + intros n -> Hn. destruct (Z.eqb_spec n 0); lia.
    + intros n -> Hn. destruct (Z.eqb_spec n 0); lia.
    + intros n -> Hn Hz. destruct (Z.eqb_spec n 0); lia.
    + intros [-> | ->]; simpl; lia.
  - intros Hst. now rewrite bool_decide_eq_false_2 by done.
Qed.

Lemma host_sets_distance_only_while_waiting_witness :
  handle 1002 (SetRaceDistance "a" (Some 25000)) Examples.lobby
  = Done (put_room "ABCD"
            (Room.set_raceDistance 10000 (Examples.the_room Examples.lobby))
            Examples.lobby)
      [mkEmit (ToRoom "ABCD") (EvRaceDistanceChanged 10000)]
  /\ handle 5000 (SetRaceDistance "a" (Some 500)) Examples.racing
     = Done Examples.racing
         [error_to "a" "Can only set distance before race starts"].
Proof.
  split.
  - destruct (proj1 (host_sets_distance_only_while_waiting 1002 "a"
                       (Some 25000) "ABCD" (Examples.the_room Examples.lobby)
                       Examples.lobby
                       ltac:(vm_compute; reflexivity) eq_refl) eq_refl)
      as (d & Heq & _ & Hbig & _).
    rewrite (Hbig 25000 eq_refl) in Heq by lia. exact Heq.
  - apply (proj2 (host_sets_distance_only_while_waiting 5000 "a"
                    (Some 500) "ABCD" (Examples.the_room Examples.racing)
                    Examples.racing
                    ltac:(vm_compute; reflexivity) eq_refl)).
    vm_compute. discriminate.
Defined.

(** * The race state machine *)

Lemma room_step_transition now roomCode room i room' fin :
  room_step now roomCode room i room' fin ->
  Room.raceState room' = Room.raceState room
  \/ (transition (Room.raceState room) i (Room.raceState room')
      /\ forall sid, host_command sid i = true -> is_creator sid room = true).
Proof.
  intros Hs.
  assert (Hhost : forall s sid : string,
             is_creator s room = true -> String.eqb s sid = true ->
             is_creator sid room = true).
  { intros s sid Hc Heq. apply String.eqb_eq in Heq. now subst. }
  destruct Hs; subst; simpl; try (now left).
  - right. rewrite H0. split; [constructor|]. intros s. now apply Hhost.
  - right. rewrite H0. split; [constructor|]. intros s. now apply Hhost.
  - right. rewrite H0. split; [constructor|]. intros s. now apply Hhost.
  - right. rewrite H0. split; [constructor|]. done.
  - right. split; [constructor|]. intros s. now apply Hhost.
  - destruct (tick_room_race now rnd k roomCode room) as (_ & Hne & Heq).
    destruct (decide (Room.raceState room = COUNTDOWN)) as [Hc|Hc].
    + destruct (Heq Hc) as [H|H]; [left; congruence|].
      right. rewrite H, Hc. split; [constructor|]. done.
    + left. now apply Hne.
Qed.

Lemma start_race_players now sid w roomCode room room' :
  room_at roomCode w = Some room ->
  room_at roomCode (outcome_world (handle now (StartRace sid) w))
  = Some room' ->
  Room.raceState room' <> Room.raceState room ->
  (MIN_PLAYERS_TO_START <= length (Obj.keys (Room.players room)))%nat
  /\ Room.countdownStartTime room' = Some now
  /\ Room.countdownValue room' = COUNTDOWN_SECONDS.
Proof.
  intros Hat Hat' Hne. cbn [handle] in Hat'. unfold on_start_race in Hat'.
  assert (Hsame : room_at roomCode w = Some room' -> False)
    by (intros H; rewrite Hat in H; injection H as <-; done).
  destruct (socket_room sid w) as [[c r]|] eqn:Hsr; [|now apply Hsame in Hat'].
  destruct (negb (is_creator sid r)); [now apply Hsame in Hat'|].
  destruct (_ <? _)%nat eqn:Hn; [now apply Hsame in Hat'|].
  destruct (negb (bool_decide _)); [now apply Hsame in Hat'|].
  unfold done in Hat'. cbn [outcome_world fst] in Hat'.
  destruct (decide (c = roomCode)) as [->|Hc].
  - rewrite room_at_put in Hat'. injection Hat' as <-.
    apply socket_room_at in Hsr. rewrite Hat in Hsr. injection Hsr as <-.
    apply Nat.ltb_ge in Hn. done.
  - rewrite room_at_put_ne in Hat' by done. now apply Hsame in Hat'.
Qed.

(** X7.  The race state of a room changes only along the edges of the
    state machine: waiting to countdown by start-race, countdown to racing
    by a tick, racing to paused and back by toggle-pause, racing to
    finished by a player-update, and anything to waiting by restart-game.
    The three commands among these come from the room's creator, and a
    countdown only begins with at least two players in the room. *)
Theorem race_state_changes_along_edges (now : Z) (i : Input) (w : World)
    (roomCode : string) (room room' : Room.t) :
  reachable w ->
  room_at roomCode w = Some room ->
  room_at roomCode (outcome_world (handle now i w)) = Some room' ->
  Room.raceState room' = Room.raceState room
  \/ (transition (Room.raceState room) i (Room.raceState room')
      /\ (forall sid, host_command sid i = true -> Room.creatorId room = sid)
      /\ (Room.raceState room' = COUNTDOWN ->
          (MIN_PLAYERS_TO_START <= length (Obj.keys (Room.players room)))%nat
          /\ Room.countdownStartTime room' = Some now)).
Proof.
  intros Hw Hat Hat'.
  destruct (decide (Room.raceState room' = Room.raceState room)) as [|Hne];
    [now left|right].
  pose proof Hat' as Heff.
  apply handle_room_effect in Heff; [|now apply reachable_NoDup].
  destruct Heff as [[Hsame _]|[(room0 & H0 & Hs)|(Hnone & _)]];
    [congruence| |congruence].
  rewrite Hat in H0. injection H0 as <-.
  destruct (room_step_transition _ _ _ _ _ _ Hs) as [|[Htr Hhost]]; [done|].
  split; [done|]. split.
  - intros sid Hcmd. apply Hhost in Hcmd. now apply String.eqb_eq in Hcmd.
  - intros Hc. inversion Htr; subst; try congruence.
    destruct (start_race_players _ _ _ _ _ _ Hat Hat' Hne) as (? & ? & _).
    done.
Qed.

Lemma race_state_changes_along_edges_witness :
  let room := Examples.the_room Examples.racing in
  let room' := Examples.the_room Examples.paused in
  Room.raceState room' = Room.raceState room
  \/ (transition (Room.raceState room) (TogglePause "a")
        (Room.raceState room')
      /\ (forall sid, host_command sid (TogglePause "a") = true ->
                      Room.creatorId room = sid)
      /\ (Room.raceState room' = COUNTDOWN ->
          (MIN_PLAYERS_TO_START <= length (Obj.keys (Room.players room)))%nat
          /\ Room.countdownStartTime room' = Some 14003)).
Proof.
  apply (race_state_changes_along_edges 14003 (TogglePause "a")
           Examples.racing "ABCD").
  - apply racing_reachable.
  - vm_compute. reflexivity.
  - vm_compute. reflexivity.
Defined.

(** * Timestamps *)

Lemma tick_room_start now rnd k roomCode room :
  let room' := fst (fst (tick_room now rnd k roomCode room)) in
  (Room.raceState room' = Room.raceState room
   /\ Room.raceStartTime room' = Room.raceStartTime room)
  \/ (Room.raceState room = COUNTDOWN
      /\ Room.raceState room' = RACING
      /\ Room.raceStartTime room' = Some now).
Proof.
  cbv zeta. rewrite tick_room_room.
  destruct (0 <? length (Room.members room))%nat; [|now left].
  set (room1 := fst (tick_countdown now roomCode room)).
  destruct (tick_obstacles_frame rnd k (tick_racing now room1))
    as (_ & _ & _ & _ & _ & _ & _ & _ & -> & -> & _).
  destruct (tick_racing_frame now room1)
    as (_ & _ & _ & _ & _ & _ & _ & -> & -> & _).
  destruct (tick_countdown_difficulty now roomCode room) as (_ & Hne & Heq).
  fold room1 in Hne, Heq.
  destruct (decide (Room.raceState room = COUNTDOWN)) as [Hc|Hc].
  - specialize (Heq Hc).
    destruct (COUNTDOWN_SECONDS * 1000 <=?
                now - num (Room.countdownStartTime room)) eqn:E.
    + right. tauto.
    + left. destruct Heq as [-> _]. split; [done|].
      unfold room1, tick_countdown. rewrite bool_decide_eq_true_2 by done.
      cbv zeta. rewrite E.
      now destruct (negb _ && _).
  - left. now rewrite (Hne Hc).
Qed.

(** X8.  The timestamps a state relies on are never null in a reachable
    room: a room in countdown has its countdownStartTime, a room that is
    racing, paused or finished has its raceStartTime, and a paused room
    has its pausedAt.  Finish times and the resume arithmetic therefore
    never read [null] as 0. *)
Theorem race_timestamps_are_set (w : World) (roomCode : string)
    (room : Room.t) :
  reachable w -> room_at roomCode w = Some room ->
  (Room.raceState room = COUNTDOWN -> is_Some (Room.countdownStartTime room))
  /\ (race_on room -> is_Some (Room.raceStartTime room))
  /\ (Room.raceState room = PAUSED -> is_Some (Room.pausedAt room)).
Proof.
  intros Hw. revert roomCode room.
  apply (reachable_rooms
           (fun room =>
              (Room.raceState room = COUNTDOWN ->
               is_Some (Room.countdownStartTime room))
              /\ (race_on room -> is_Some (Room.raceStartTime room))
              /\ (Room.raceState room = PAUSED ->
                  is_Some (Room.pausedAt room)))); [| |exact Hw].
  - intros now sid name. unfold race_on. simpl.
    repeat split; intros; intuition discriminate.
  - intros now roomCode room i room' fin (Hc & Hr & Hp) Hs.
    assert (Hracing : Room.raceState room = RACING ->
                      is_Some (Room.raceStartTime room))
      by (intros H; apply Hr; now left).
    assert (Hpaused : Room.raceState room = PAUSED ->
                      is_Some (Room.raceStartTime room))
      by (intros H; apply Hr; right; now left).
    unfold race_on in *.
    destruct Hs; subst; simpl in *;
      try (repeat split; intros; eauto; intuition congruence).
    destruct (tick_room_static now rnd k roomCode room)
      as (_ & _ & -> & ->).
    destruct (tick_room_start now rnd k roomCode room)
      as [[-> ->]|(Hcd & -> & ->)]; [tauto|].
    repeat split; intros; eauto; intuition congruence.
Qed.

Lemma race_timestamps_are_set_witness :
  let room := Examples.the_room Examples.paused in
  (Room.raceState room = COUNTDOWN -> is_Some (Room.countdownStartTime room))
  /\ (race_on room -> is_Some (Room.raceStartTime room))
  /\ (Room.raceState room = PAUSED -> is_Some (Room.pausedAt room)).
Proof.
  apply (race_timestamps_are_set Examples.paused "ABCD").
  - apply (reachable_step Examples.racing 14003 (TogglePause "a")
             Examples.paused
             (outcome_emits (handle 14003 (TogglePause "a") Examples.racing)));
      [apply racing_reachable|vm_compute; reflexivity].
  - vm_compute. reflexivity.
Defined.

(** * The countdown *)

(** X9.  A tick of a room in countdown, [now - t0] milliseconds after
    start-race.  Before 3000 ms the room stays in countdown and no
    race-started is sent; from 3000 ms on the tick moves it to racing with
    [raceStartTime = now] and sends race-started once.  The counter is set
    to [3 - floor(elapsed / 1000)] unless that is negative.  "GO!" is
    announced only by a tick that also starts the race, and only if it
    comes within the fourth second: a first tick later than that starts
    the race without it. *)
Theorem countdown_ends_after_three_seconds (now : Z) (rnd : nat -> Q)
    (k : nat) (roomCode : string) (room : Room.t) (t0 : Z) :
  Room.members room <> [] ->
  Room.raceState room = COUNTDOWN ->
  Room.countdownStartTime room = Some t0 ->
  let room' := fst (fst (tick_room now rnd k roomCode room)) in
  let out := snd (fst (tick_room now rnd k roomCode room)) in
  (now - t0 < 3000 ->
   Room.raceState room' = COUNTDOWN
   /\ Room.raceStartTime room' = Room.raceStartTime room
   /\ List.filter is_race_started out = [])
  /\ (3000 <= now - t0 ->
      Room.raceState room' = RACING
      /\ Room.raceStartTime room' = Some now
      /\ List.filter is_race_started out
         = [mkEmit (ToRoom roomCode)
              (EvRaceStarted (Room.raceDistance room) (Some now))])
  /\ Room.countdownValue room'
     = (if 0 <=? 3 - (now - t0) / 1000 then 3 - (now - t0) / 1000
        else Room.countdownValue room)
  /\ (mkEmit (ToRoom roomCode) (EvRaceCountdown 0 "GO!") ∈ out
      <-> 3000 <= now - t0 < 4000 /\ Room.countdownValue room <> 0).
Proof.
  intros Hm Hst Ht0. cbv zeta. unfold tick_room.
  destruct (Room.members room) as [|m ms]; [done|]. cbn [length Nat.ltb Nat.leb].
  destruct (tick_countdown now roomCode room) as [room1 out1] eqn:Ecd.
  pose proof (tick_racing_frame now room1)
    as (_ & _ & _ & _ & _ & _ & _ & Hs2 & Ht2 & _ & Hv2 & _).
  pose proof (tick_obstacles_frame rnd k (tick_racing now room1))
    as (_ & _ & _ & _ & _ & _ & _ & _ & Hs3 & Ht3 & _ & Hv3 & _).
  destruct (tick_obstacles rnd k (tick_racing now room1)) as [room3 k'].
  cbn [fst snd] in *.
  rewrite Hs3, Hs2, Ht3, Ht2, Hv3, Hv2. clear Hs3 Hs2 Ht3 Ht2 Hv3 Hv2.
  unfold tick_countdown in Ecd.
  rewrite bool_decide_eq_true_2, Ht0 in Ecd by done.
  change (num (Some t0)) with t0 in Ecd.
  cbv zeta in Ecd. unfold COUNTDOWN_SECONDS in Ecd.
  rewrite List.filter_app. cbn [List.filter is_race_started event].
  rewrite app_nil_r.
  set (elapsed := now - t0) in *.
  assert (Hzero : 3 - elapsed / 1000 = 0 <-> 3000 <= elapsed < 4000)
    by (Z.div_mod_to_equations; lia).
  destruct (negb (3 - elapsed / 1000 =? Room.countdownValue room)
            && (0 <=? 3 - elapsed / 1000)) eqn:Hch;
    destruct (3 * 1000 <=? elapsed) eqn:Hover;
    injection Ecd as <- <-; cbn [List.filter is_race_started event app];
    rewrite ?Z.leb_le, ?Z.leb_gt in Hover;
    rewrite ?andb_true_iff, ?andb_false_iff, ?negb_true_iff, ?negb_false_iff,
      ?Z.eqb_eq, ?Z.eqb_neq, ?Z.leb_le, ?Z.leb_gt in Hch.
  all: rewrite !elem_of_cons, elem_of_nil.
  all: repeat apply conj.
  all: try (intros; exfalso; lia).
  all: try (intros; simpl; repeat split; try reflexivity; exact Hst).
  all: try (cbn [Room.countdownValue Room.set_countdownValue
                 Room.set_gameSpeed Room.set_raceStartTime
                 Room.set_raceState];
            destruct (Z.leb_spec 0 (3 - elapsed / 1000)); lia).
  all: try (intros H; repeat (destruct H as [H|H]);
            try contradiction; try discriminate H;
            injection H as H _; lia).
  all: try (intros [Hr Hv]; apply Hzero in Hr; lia).
  all: intros [Hr Hv]; left; apply Hzero in Hr; now rewrite Hr.
Qed.

Lemma countdown_ends_after_three_seconds_witness :
  let room := Examples.the_room Examples.countdown in
  let room' :=
    fst (fst (tick_room 5500 Examples.draws 0 "ABCD" room)) in
  let out := snd (fst (tick_room 5500 Examples.draws 0 "ABCD" room)) in
  (5500 - 1003 < 3000 ->
   Room.raceState room' = COUNTDOWN
   /\ Room.raceStartTime room' = Room.raceStartTime room
   /\ List.filter is_race_started out = [])
  /\ (3000 <= 5500 - 1003 ->
      Room.raceState room' = RACING
      /\ Room.raceStartTime room' = Some 5500
      /\ List.filter is_race_started out
         = [mkEmit (ToRoom "ABCD")
              (EvRaceStarted (Room.raceDistance room) (Some 5500))])
  /\ Room.countdownValue room'
     = (if 0 <=? 3 - (5500 - 1003) / 1000 then 3 - (5500 - 1003) / 1000
        else Room.countdownValue room)
  /\ (mkEmit (ToRoom "ABCD") (EvRaceCountdown 0 "GO!") ∈ out
      <-> 3000 <= 5500 - 1003 < 4000 /\ Room.countdownValue room <> 0).
Proof.
  apply (countdown_ends_after_three_seconds 5500 Examples.draws 0 "ABCD"
           (Examples.the_room Examples.countdown) 1003).
  - vm_compute. discriminate.
  - vm_compute. reflexivity.
  - vm_compute. reflexivity.
Defined.

(** * Finishing order and results *)

Lemma get_set_cases {V} k k' (v : V) o :
  Obj.get k' (Obj.set k v o) = if String.eqb k' k then Some v else Obj.get k' o.
Proof.
  destruct (String.eqb_spec k' k) as [->|Hne].
  - apply get_set_eq.
  - apply get_set_ne. congruence.
Qed.

Lemma get_del_cases {V} k k' (o : list (string * V)) :
  NoDup (Obj.keys o) ->
  Obj.get k' (Obj.del k o) = if String.eqb k' k then None else Obj.get k' o.
Proof.
  intros Hnd. destruct (String.eqb_spec k' k) as [->|Hne].
  - now apply get_del_eq.
  - apply get_del_ne. congruence.
Qed.

Lemma reset_players_get ps : forall k id p,
  Obj.get id (reset_players k ps) = Some p -> Player.finished p = false.
Proof.
  induction ps as [|[id' p'] ps IH]; intros k id p; simpl; [done|].
  destruct (String.eqb id id'); [now intros [= <-]|apply IH].
Qed.

Lemma finish_inv_new now sid name :
  finish_inv (joined_room sid name (new_room now sid)).
Proof.
  unfold finish_inv. simpl.
  split; [apply NoDup_singleton|]. split; [constructor|].
  split; [done|]. split; [intros _ id p H; inversion H|].
  intros id p. destruct (String.eqb id sid); [|done].
  now intros [= <-].
Qed.

Lemma room_step_finish_inv now roomCode room i room' fin :
  finish_inv room -> room_step now roomCode room i room' fin ->
  finish_inv room'.
Proof.
  intros (Hk & Hnd & Hempty & Hlisted & Hpos) Hs.
  split; [eapply room_step_players_NoDup; eauto|].
  destruct Hs; subst; simpl in *.
  - (* join *)
    split; [done|]. split; [done|].
    assert (Hnew : forall id p,
               Obj.get id
                 (Obj.set sid
                    (new_player name
                       (length (Room.members room ++ [Member.mk sid name]) - 1))
                    (Room.players room)) = Some p ->
               Player.finished p = true ->
               Obj.get id (Room.players room) = Some p).
    { intros id p. rewrite get_set_cases.
      destruct (String.eqb id sid); [|done].
      intros [= <-]. discriminate. }
    split.
    + intros Hst id p Hin Hget.
      unfold race_in_progress in H.
      destruct Hst as [Hst|Hst]; rewrite Hst in H; discriminate.
    + intros id p Hget Hfin. eauto.
  - (* set-race-distance *) tauto.
  - (* start-race *)
    split; [done|]. split; [intros _; apply Hempty; now left|].
    split; [intros [?|?]; discriminate|done].
  - (* pause *)
    split; [done|]. split; [intros [?|?]; discriminate|].
    split; [intros _; apply Hlisted; now left|done].
  - (* resume *)
    split; [done|]. split; [intros [?|?]; discriminate|].
    split; [intros _; apply Hlisted; now right|done].
  - (* move *)
    split; [done|]. split; [intros [?|?]; congruence|].
    split.
    + intros _ id p Hin. rewrite get_set_cases.
      destruct (String.eqb_spec id sid) as [->|Hne].
      * intros _. rewrite (Hlisted (or_introl H0) sid player Hin H) in H1.
        discriminate.
      * apply Hlisted; [now left|done].
    + intros id p. rewrite get_set_cases.
      destruct (String.eqb_spec id sid) as [->|Hne]; [|apply Hpos].
      intros [= <-]. simpl. congruence.
  - (* finish *)
    assert (Hfresh : sid ∉ Room.finishOrder room).
    { intros Hin. rewrite (Hlisted (or_introl H0) sid player Hin H) in H1.
      discriminate. }
    split; [apply NoDup_app; split; [done|]; split;
            [intros x Hx Hx'; apply list_elem_of_singleton in Hx' as ->; done
            |apply NoDup_singleton]|].
    split; [intros [?|?]; congruence|].
    split.
    + intros _ id p Hin. rewrite get_set_cases.
      destruct (String.eqb_spec id sid) as [->|Hne]; [now intros [= <-]|].
      apply elem_of_app in Hin as [Hin|Hin];
        [|apply list_elem_of_singleton in Hin; done].
      apply Hlisted; [now left|done].
    + intros id p. rewrite get_set_cases.
      destruct (String.eqb_spec id sid) as [->|Hne].
      * intros [= <-] _. exists (length (Room.finishOrder room)).
        simpl. rewrite length_app. simpl.
        split; [f_equal; lia|]. split; [|eauto].
        rewrite lookup_app_r by lia. now rewrite Nat.sub_diag.
      * intros Hget Hfin.
        destruct (Hpos id p Hget Hfin) as (n & Hp & Hl & Ht).
        exists n. split; [done|]. split; [|done].
        now apply lookup_app_l_Some.
  - (* last finish *)
    assert (Hfresh : sid ∉ Room.finishOrder room).
    { intros Hin. rewrite (Hlisted (or_introl H0) sid player Hin H) in H1.
      discriminate. }
    split; [apply NoDup_app; split; [done|]; split;
            [intros x Hx Hx'; apply list_elem_of_singleton in Hx' as ->; done
            |apply NoDup_singleton]|].
    split; [intros [?|?]; discriminate|].
    split; [intros [?|?]; discriminate|].
    intros id p. rewrite get_set_cases.
    destruct (String.eqb_spec id sid) as [->|Hne].
    + intros [= <-] _. exists (length (Room.finishOrder room)).
      simpl. rewrite length_app. simpl.
      split; [f_equal; lia|]. split; [|eauto].
      rewrite lookup_app_r by lia. now rewrite Nat.sub_diag.
    + intros Hget Hfin.
      destruct (Hpos id p Hget Hfin) as (n & Hp & Hl & Ht).
      exists n. split; [done|]. split; [|done].
      now apply lookup_app_l_Some.
  - (* restart *)
    split; [constructor|]. split; [done|].
    split; [intros [?|?]; discriminate|].
    intros id p Hget Hfin. apply reset_players_get in Hget. congruence.
  - (* collision *)
    split; [done|]. split; [done|].
    assert (Hsame : forall id p,
               Obj.get id (Obj.set sid (stun now player) (Room.players room))
               = Some p ->
               exists p0, Obj.get id (Room.players room) = Some p0
                          /\ Player.finished p = Player.finished p0
                          /\ Player.position p = Player.position p0
                          /\ Player.finishTime p = Player.finishTime p0).
    { intros id p. rewrite get_set_cases.
      destruct (String.eqb_spec id sid) as [->|Hne]; [|eauto].
      intros [= <-]. exists player. done. }
    split.
    + intros Hst id p Hin Hget.
      destruct (Hsame id p Hget) as (p0 & Hg & -> & _). eauto.
    + intros id p Hget Hfin.
      destruct (Hsame id p Hget) as (p0 & Hg & Hf & -> & ->).
      apply (Hpos id p0 Hg). congruence.
  - (* disconnect *)
    split; [done|]. split; [done|].
    split.
    + intros Hst id p Hin. rewrite get_del_cases by done.
      destruct (String.eqb id sid); [done|]. now apply Hlisted.
    + intros id p. rewrite get_del_cases by done.
      destruct (String.eqb id sid); [done|]. apply Hpos.
  - (* tick *)
    destruct (tick_room_race now rnd k roomCode room) as (-> & Hne & Heq).
    rewrite tick_room_players.
    assert (Hsame : forall id p,
               Obj.get id
                 (if bool_decide
                       (Room.raceState
                          (fst (fst (tick_room now rnd k roomCode room)))
                        = RACING)
                     && (0 <? length (Room.members room))%nat
                  then expired now (Room.players room)
                  else Room.players room) = Some p ->
               exists p0, Obj.get id (Room.players room) = Some p0
                          /\ Player.finished p = Player.finished p0
                          /\ Player.position p = Player.position p0
                          /\ Player.finishTime p = Player.finishTime p0).
    { intros id p. destruct (_ && _); [|eauto].
      rewrite expired_get.
      destruct (Obj.get id (Room.players room)) as [p0|]; [|done].
      intros [= <-]. exists p0. split; [done|].
      unfold expire_stun. now destruct (_ && _). }
    split; [done|].
    destruct (decide (Room.raceState room = COUNTDOWN)) as [Hc|Hc].
    + rewrite (Hempty (or_intror Hc)).
      split; [done|]. split; [intros _ id p Hin; inversion Hin|].
      intros id p Hget Hfin.
      destruct (Hsame id p Hget) as (p0 & Hg & Hf & _).
      destruct (Hpos id p0 Hg) as (n & _ & Hl & _); [congruence|].
      rewrite (Hempty (or_intror Hc)) in Hl. done.
    + pose proof (Hne Hc) as Hs'. rewrite Hs' in Hsame |- *.
      split; [done|]. split.
      * intros Hst id p Hin Hget.
        destruct (Hsame id p Hget) as (p0 & Hg & -> & _). eauto.
      * intros id p Hget Hfin.
        destruct (Hsame id p Hget) as (p0 & Hg & Hf & -> & ->).
        apply (Hpos id p0 Hg). congruence.
Qed.

Lemma reachable_finish_inv w roomCode room :
  reachable w -> room_at roomCode w = Some room -> finish_inv room.
Proof.
  intros Hw. revert roomCode room.
  apply (reachable_rooms finish_inv); [| |exact Hw].
  - apply finish_inv_new.
  - intros. eapply room_step_finish_inv; eauto.
Qed.

(** X10.  In every room of every reachable world no id occurs twice in
    [finishOrder], and every finished player is listed there at the index
    its position says ([position = index + 1]) and has its finish time
    recorded.  While the room is racing or paused the converse holds for
    the ids that still have a player: a listed player is finished. *)
Theorem finish_order_matches_positions (w : World) (roomCode : string)
    (room : Room.t) :
  reachable w -> room_at roomCode w = Some room ->
  NoDup (Room.finishOrder room)
  /\ (forall id p,
         Obj.get id (Room.players room) = Some p ->
         Player.finished p = true ->
         exists n,
           Player.position p = Some (S n)
           /\ Room.finishOrder room !! n = Some id
           /\ is_Some (Player.finishTime p))
  /\ (Room.raceState room = RACING \/ Room.raceState room = PAUSED ->
      forall id p,
        id ∈ Room.finishOrder room ->
        Obj.get id (Room.players room) = Some p ->
        Player.finished p = true).
Proof.
  intros Hw Hat.
  assert (Hinv : finish_inv room).
  { revert roomCode room Hat.
    apply (reachable_rooms finish_inv); [| |exact Hw].
    - apply finish_inv_new.
    - intros. eapply room_step_finish_inv; eauto. }
  destruct Hinv as (_ & Hnd & _ & Hlisted & Hpos). auto.
Qed.

Lemma finish_order_matches_positions_witness :
  let room := Examples.the_room Examples.finished in
  NoDup (Room.finishOrder room)
  /\ (forall id p,
         Obj.get id (Room.players room) = Some p ->
         Player.finished p = true ->
         exists n,
           Player.position p = Some (S n)
           /\ Room.finishOrder room !! n = Some id
           /\ is_Some (Player.finishTime p))
  /\ (Room.raceState room = RACING \/ Room.raceState room = PAUSED ->
      forall id p,
        id ∈ Room.finishOrder room ->
        Obj.get id (Room.players room) = Some p ->
        Player.finished p = true).
Proof.
  apply (finish_order_matches_positions Examples.finished "ABCD");
    [apply finished_reachable|vm_compute; reflexivity].
Defined.

Lemma race_results_Some players order : forall index results,
  race_results players index order = Some results ->
  length results = length order
  /\ forall n r,
      results !! n = Some r ->
      exists id p,
        order !! n = Some id
        /\ Obj.get id players = Some p
        /\ Result.position r = S (index + n)
        /\ Result.name r = Player.name p
        /\ Result.time r = Player.finishTime p.
Proof.
  induction order as [|id order IH]; intros index results; simpl.
  - intros [= <-]. split; [done|]. intros n r H. inversion H.
  - destruct (Obj.get id players) as [p|] eqn:Hget; [|done].
    destruct (race_results players (S index) order) as [rest|] eqn:Hr; [|done].
    intros [= <-]. destruct (IH _ _ Hr) as [Hlen Hall].
    split; [simpl; now rewrite Hlen|].
    intros [|n] r; simpl.
    + intros [= <-]. exists id, p. simpl.
      repeat split; try done; lia.
    + intros Hn. destruct (Hall n r Hn) as (id' & p' & ? & ? & Hp & ? & ?).
      exists id', p'. repeat split; try done; rewrite Hp; lia.
Qed.

Lemma race_results_None players order : forall index,
  (exists id, id ∈ order /\ Obj.get id players = None) ->
  race_results players index order = None.
Proof.
  induction order as [|id order IH]; intros index (id' & Hin & Hnone).
  - inversion Hin.
  - simpl. apply elem_of_cons in Hin as [->|Hin].
    + now rewrite Hnone.
    + destruct (Obj.get id players); [|done].
      rewrite IH; [done|]. eauto.
Qed.

Lemma tick_countdown_emits now roomCode room :
  Forall (fun e => is_tick_event e = true /\ is_game_state e = false
                   /\ target e = ToRoom roomCode)
    (snd (tick_countdown now roomCode room)).
Proof.
  unfold tick_countdown.
  repeat match goal with
         | |- context [if ?c then _ else _] => destruct c
         end; simpl; repeat constructor.
Qed.

Lemma tick_room_emits now rnd k roomCode room :
  exists out1,
    snd (fst (tick_room now rnd k roomCode room))
    = (if (0 <? length (Room.members room))%nat
       then out1 ++ [mkEmit (ToRoom roomCode)
                       (EvGameState
                          (snapshot now
                             (fst (fst (tick_room now rnd k roomCode room)))))]
       else [])
    /\ Forall (fun e => is_tick_event e = true /\ is_game_state e = false
                        /\ target e = ToRoom roomCode) out1.
Proof.
  exists (snd (tick_countdown now roomCode room)).
  split; [|apply tick_countdown_emits].
  unfold tick_room.
  destruct (0 <? length (Room.members room))%nat; [|done].
  destruct (tick_countdown now roomCode room) as [room1 out1].
  now destruct (tick_obstacles rnd k (tick_racing now room1)).
Qed.

Lemma tick_rooms_emits now rnd rs : forall k,
  Forall (fun e => is_tick_event e = true) (snd (fst (tick_rooms now rnd k rs))).
Proof.
  induction rs as [|[code room] rs IH]; intros k; simpl; [constructor|].
  destruct (tick_room_emits now rnd k code room) as (out1 & Hout & Hall).
  destruct (tick_room now rnd k code room) as [[room' out] k1].
  specialize (IH k1).
  destruct (tick_rooms now rnd k1 rs) as [[rs' out'] k2].
  simpl in *. apply Forall_app. split; [|done].
  rewrite Hout. destruct (0 <? _)%nat; [|constructor].
  apply Forall_app. split.
  - eapply Forall_impl; [exact Hall|]. now intros e (? & _).
  - repeat constructor.
Qed.

(** The only way a race-finished event is sent: the player-update with
    which the last unfinished player of a racing room crosses the line,
    every id of the finishing order still having its player. *)
Lemma race_finished_emitted now i w e :
  e ∈ outcome_emits (handle now i w) ->
  is_race_finished e = true ->
  exists sid data roomCode room player results,
    i = PlayerUpdate sid data
    /\ socket_room sid w = Some (roomCode, room)
    /\ Obj.get sid (Room.players room) = Some player
    /\ Room.raceState room = RACING
    /\ Player.finished player = false
    /\ let room2 :=
         Room.set_raceState FINISHED
           (finished_room sid
              (finishing_player now sid (apply_update data player) room)
              room) in
       forallb Player.finished (Obj.values (Room.players room2)) = true
       /\ race_results (Room.players room2) 0 (Room.finishOrder room2)
          = Some results
       /\ e = mkEmit (ToRoom roomCode) (EvRaceFinished results)
       /\ exists out,
           handle now i w = Done (put_room roomCode room2 w) out.
Proof.
  assert (Hno : forall out,
             Forall (fun e => is_race_finished e = false) out ->
             e ∈ out -> is_race_finished e = true -> False).
  { intros out Hall Hin He. rewrite Forall_forall in Hall.
    specialize (Hall e Hin). congruence. }
  destruct i; cbn [handle].
  - intros Hin He. exfalso. revert Hin He. apply Hno.
    rewrite on_join_room_cases. cbv zeta. unfold joined_emits.
    repeat match goal with
           | |- context [if ?c then _ else _] => destruct c
           | |- context [match ?x with Some _ => _ | None => _ end] =>
               destruct x
           end; repeat constructor.
  - intros Hin He. exfalso. revert Hin He. apply Hno.
    unfold on_set_race_distance.
    destruct (socket_room sid w) as [[c r]|]; [|constructor].
    repeat match goal with
           | |- context [if ?c then _ else _] => destruct c
           end; repeat constructor.
  - intros Hin He. exfalso. revert Hin He. apply Hno.
    unfold on_start_race.
    destruct (socket_room sid w) as [[c r]|]; [|constructor].
    repeat match goal with
           | |- context [if ?c then _ else _] => destruct c
           end; repeat constructor.
  - intros Hin He. exfalso. revert Hin He. apply Hno.
    unfold on_toggle_pause.
    destruct (socket_room sid w) as [[c r]|]; [|constructor].
    repeat match goal with
           | |- context [if ?c then _ else _] => destruct c
           end; repeat constructor.
  - unfold on_player_update.
    destruct (socket_room sid w) as [[c r]|] eqn:Hsr;
      [|intros Hin; inversion Hin].
    destruct (Obj.get sid (Room.players r)) as [player|] eqn:Hget;
      [|intros Hin; inversion Hin].
    destruct (bool_decide (Room.raceState r = RACING)) eqn:Hst;
      [|intros Hin; inversion Hin].
    destruct (Player.finished player) eqn:Hfin; [intros Hin; inversion Hin|].
    cbn [negb andb].
    destruct (crosses_line r (apply_update data player));
      [|intros Hin; inversion Hin].
    destruct (forallb _ _) eqn:Hall.
    + destruct (race_results _ _ _) as [results|] eqn:Hres;
        cbn [outcome_emits outcome_world]; intros Hin He.
      * rewrite !elem_of_cons, elem_of_nil in Hin.
        destruct Hin as [->|[->|[]]]; [discriminate He|].
        exists sid, data, c, r, player, results.
        apply bool_decide_eq_true in Hst.
        cbv zeta. repeat (split; [done|]). eexists. reflexivity.
      * rewrite !elem_of_cons, elem_of_nil in Hin.
        destruct Hin as [->|[]]. discriminate He.
    + cbn [outcome_emits]. intros Hin He.
      rewrite !elem_of_cons, elem_of_nil in Hin.
      destruct Hin as [->|[]]. discriminate He.
  - intros Hin He. exfalso. revert Hin He. apply Hno.
    unfold on_restart_game.
    destruct (socket_room sid w) as [[c r]|]; [|constructor].
    repeat match goal with
           | |- context [if ?c then _ else _] => destruct c
           end; repeat constructor.
  - intros Hin He. exfalso. revert Hin He. apply Hno.
    unfold on_collision.
    destruct (socket_room sid w) as [[c r]|]; [|constructor].
    destruct (Obj.get sid (Room.players r)); constructor.
  - intros Hin He. exfalso. revert Hin He. apply Hno.
    unfold on_disconnect.
    destruct (socks w !! sid) as [s|]; [|constructor].
    destruct (Obj.get (Socket.roomCode s) (rooms w)); [|constructor].
    destruct (_ =? _)%nat; repeat constructor.
  - intros Hin He. exfalso. revert Hin He. apply Hno.
    unfold on_tick.
    pose proof (tick_rooms_emits now rnd (rooms w) 0%nat) as Hall.
    destruct (tick_rooms now rnd 0 (rooms w)) as [[rs out] k].
    unfold done. cbn [outcome_emits fst snd] in *.
    eapply Forall_impl; [exact Hall|].
    intros e'. unfold is_tick_event, is_race_finished.
    now destruct (event e').
Qed.

(** X11.  Whenever race-finished is sent to a room, the room is finished
    and the results list its finishing order: one line per id, in order,
    numbered 1, 2, ..., each carrying the name and finish time of that
    player and the position recorded on the player itself; every player
    of the room has its line. *)
Theorem race_finished_lists_every_finisher (now : Z) (i : Input) (w : World)
    (roomCode : string) (results : list Result.t) :
  reachable w ->
  mkEmit (ToRoom roomCode) (EvRaceFinished results)
    ∈ outcome_emits (handle now i w) ->
  exists room',
    room_at roomCode (outcome_world (handle now i w)) = Some room'
    /\ Room.raceState room' = FINISHED
    /\ length results = length (Room.finishOrder room')
    /\ (forall n r,
           results !! n = Some r ->
           Result.position r = S n
           /\ exists id p,
               Room.finishOrder room' !! n = Some id
               /\ Obj.get id (Room.players room') = Some p
               /\ Player.finished p = true
               /\ Player.position p = Some (Result.position r)
               /\ Result.name r = Player.name p
               /\ Result.time r = Player.finishTime p)
    /\ (forall id p,
           Obj.get id (Room.players room') = Some p ->
           exists n r,
             results !! n = Some r
             /\ Room.finishOrder room' !! n = Some id).
Proof.
  intros Hw Hin.
  destruct (race_finished_emitted now i w _ Hin eq_refl)
    as (sid & data & code & room & player & res & -> & Hsr & Hget & Hst
        & Hfin & Hall & Hres & [= <- <-] & out & Hh).
  set (room2 := Room.set_raceState FINISHED _) in *.
  rewrite Hh. cbn [outcome_world].
  exists room2. split; [apply room_at_put|]. split; [done|].
  assert (Hinv : finish_inv room2).
  { apply (reachable_finish_inv (put_room roomCode room2 w) roomCode);
      [|apply room_at_put].
    eapply reachable_step; eauto. }
  destruct Hinv as (_ & Hnd & _ & _ & Hpos).
  assert (Hfinished : forall id p,
             Obj.get id (Room.players room2) = Some p ->
             Player.finished p = true).
  { intros id p Hg. apply get_Some_elem, list_elem_of_In in Hg.
    rewrite forallb_forall in Hall. apply (Hall p).
    unfold Obj.values. apply in_map_iff. now exists (id, p). }
  destruct (race_results_Some _ _ _ _ Hres) as [Hlen Hlines].
  split; [done|]. split.
  - intros n r Hn.
    destruct (Hlines n r Hn) as (id & p & Hord & Hg & Hp & Hname & Htime).
    simpl in Hp. split; [done|]. exists id, p.
    split; [done|]. split; [done|]. split; [eauto|]. split; [|done].
    destruct (Hpos id p Hg (Hfinished id p Hg)) as (m & Hm & Hord' & _).
    rewrite Hm, Hp. do 2 f_equal.
    eapply NoDup_lookup; eauto.
  - intros id p Hg.
    destruct (Hpos id p Hg (Hfinished id p Hg)) as (n & _ & Hord & _).
    assert (Hlt : (n < length results)%nat)
      by (rewrite Hlen; eapply lookup_lt_Some; eauto).
    apply lookup_lt_is_Some in Hlt as [r Hr]. eauto.
Qed.

Lemma one_finished_reachable : reachable Cases.one_finished.
Proof.
  apply (reachable_step Examples.racing 9000
           (PlayerUpdate "a" (Examples.report (-2000) 1000))
           Cases.one_finished
           (outcome_emits
              (handle 9000 (PlayerUpdate "a" (Examples.report (-2000) 1000))
                 Examples.racing)));
    [apply racing_reachable|vm_compute; reflexivity].
Qed.

Lemma race_finished_lists_every_finisher_witness :
  exists room',
    room_at "ABCD"
      (outcome_world (handle 9500 Cases.last_finish Cases.one_finished))
    = Some room'
    /\ Room.raceState room' = FINISHED
    /\ length Cases.results = length (Room.finishOrder room')
    /\ (forall n r,
           Cases.results !! n = Some r ->
           Result.position r = S n
           /\ exists id p,
               Room.finishOrder room' !! n = Some id
               /\ Obj.get id (Room.players room') = Some p
               /\ Player.finished p = true
               /\ Player.position p = Some (Result.position r)
               /\ Result.name r = Player.name p
               /\ Result.time r = Player.finishTime p)
    /\ (forall id p,
           Obj.get id (Room.players room') = Some p ->
           exists n r,
             Cases.results !! n = Some r
             /\ Room.finishOrder room' !! n = Some id).
Proof.
  apply (race_finished_lists_every_finisher 9500 Cases.last_finish
           Cases.one_finished "ABCD" Cases.results).
  - apply one_finished_reachable.
  - apply list_elem_of_In. vm_compute. right. left. reflexivity.
Defined.

Lemma All_set_other {V} (P : V -> Prop) k v (o : list (string * V)) :
  NoDup (Obj.keys o) ->
  (forall k' v', Obj.get k' o = Some v' -> k' <> k -> P v') ->
  P v ->
  Obj.All P (Obj.set k v o).
Proof.
  unfold Obj.All. intros Hnd Hall Hv.
  induction o as [|[k1 v1] o IH]; simpl.
  - now repeat constructor.
  - apply NoDup_cons in Hnd as [Hnin Hnd].
    assert (Hrest : forall k' v', Obj.get k' o = Some v' -> k' <> k -> P v').
    { intros k' v' Hg Hne. apply (Hall k' v'); [|done]. simpl.
      destruct (String.eqb_spec k' k1) as [->|]; [|done].
      exfalso. apply Hnin. eapply get_Some_keys, Hg. }
    destruct (String.eqb_spec k k1) as [->|Hk].
    + constructor; [done|].
      apply Forall_forall. intros [k' v'] Hin. simpl.
      assert (Hne : k' <> k1).
      { intros ->. apply Hnin. apply list_elem_of_fmap.
        now exists (k1, v'). }
      apply (Hrest k' v'); [|done].
      clear -Hnd Hin. induction o as [|[k2 v2] o IHo]; [inversion Hin|].
      apply NoDup_cons in Hnd as [Hnin Hnd]. simpl.
      apply elem_of_cons in Hin as [[= -> ->]|Hin].
      * now rewrite String.eqb_refl.
      * destruct (String.eqb_spec k' k2) as [->|]; [|auto].
        exfalso. apply Hnin. apply list_elem_of_fmap. now exists (k2, v').
    + constructor; [|auto]. simpl. apply (Hall k1 v1); [|congruence].
      simpl. now rewrite String.eqb_refl.
Qed.

(** X12.  The last finish of a race from which a finisher has gone.  When
    the only unfinished player of a racing room crosses the line while
    some id of [finishOrder] has no player any more (a finisher
    disconnected), the listener marks the room finished and announces the
    player's finish, then throws while it builds the results: reading the
    name of the missing player fails, and race-finished is never sent. *)
Theorem last_finish_throws_when_a_finisher_left (now : Z) (sid : string)
    (data : Update.t) (w : World) (roomCode : string) (room : Room.t)
    (player : Player.t) :
  reachable w ->
  socket_room sid w = Some (roomCode, room) ->
  Obj.get sid (Room.players room) = Some player ->
  Room.raceState room = RACING ->
  Player.finished player = false ->
  (inject_Z (Room.raceDistance room) <= Update.distance data)%Q ->
  (forall id p,
      Obj.get id (Room.players room) = Some p -> id <> sid ->
      Player.finished p = true) ->
  (exists id,
      id ∈ Room.finishOrder room /\ Obj.get id (Room.players room) = None) ->
  exists room',
    handle now (PlayerUpdate sid data) w
    = Threw (put_room roomCode room' w)
        [mkEmit (ToRoom roomCode)
           (EvPlayerFinished (Player.name player)
              (Some (S (length (Room.finishOrder room))))
              (Some (now - num (Room.raceStartTime room))))]
    /\ Room.raceState room' = FINISHED
    /\ Room.finishOrder room' = Room.finishOrder room ++ [sid].
Proof.
  intros Hw Hsr Hget Hst Hfin Hdist Hothers (gone & Hin & Hgone).
  pose proof (reachable_players_NoDup w roomCode room Hw
                (socket_room_at _ _ _ _ Hsr)) as Hnd.
  exists (Room.set_raceState FINISHED
            (finished_room sid
               (finishing_player now sid (apply_update data player) room)
               room)).
  split; [|split; reflexivity].
  cbn [handle]. unfold on_player_update.
  rewrite Hsr, Hget, bool_decide_eq_true_2, Hfin by done.
  cbn [negb andb].
  assert (Hcross : crosses_line room (apply_update data player) = true).
  { unfold crosses_line. simpl. rewrite Hfin.
    now rewrite andb_true_r, Qle_bool_iff. }
  rewrite Hcross. cbv zeta.
  assert (Hall : forallb Player.finished
                   (Obj.values
                      (Room.players
                         (finished_room sid
                            (finishing_player now sid
                               (apply_update data player) room) room)))
                 = true).
  { apply forallb_forall. apply Stdlib.Lists.List.Forall_forall.
    apply All_values. simpl. now apply All_set_other. }
  rewrite Hall.
  rewrite race_results_None.
  + f_equal. simpl. rewrite length_app. simpl.
    do 4 f_equal. lia.
  + exists gone. simpl. split; [apply elem_of_app; now left|].
    rewrite get_set_ne; [done|]. intros ->. congruence.
Qed.

Lemma finisher_left_reachable : reachable Cases.finisher_left.
Proof.
  apply (run_reachable Cases.finisher_left_inputs Examples.racing
           Cases.finisher_left
           (outcome_emits (run Cases.finisher_left_inputs Examples.racing)));
    [apply racing_reachable|vm_compute; reflexivity].
Qed.

Lemma last_finish_throws_when_a_finisher_left_witness :
  exists room',
    handle 9500 (PlayerUpdate "b" (Examples.report (-2000) 1000))
      Cases.finisher_left
    = Threw (put_room "ABCD" room' Cases.finisher_left)
        [mkEmit (ToRoom "ABCD")
           (EvPlayerFinished "Bob" (Some 2%nat) (Some (9500 - 4003)))]
    /\ Room.raceState room' = FINISHED
    /\ Room.finishOrder room' = ["a"; "b"].
Proof.
  apply (last_finish_throws_when_a_finisher_left 9500 "b"
           (Examples.report (-2000) 1000) Cases.finisher_left "ABCD"
           (Examples.the_room Cases.finisher_left)
           (default (new_player "" 0)
              (Examples.the_player "b" Cases.finisher_left))).
  - apply finisher_left_reachable.
  - vm_compute. reflexivity.
  - vm_compute. reflexivity.
  - vm_compute. reflexivity.
  - vm_compute. reflexivity.
  - vm_compute. discriminate.
  - intros id p Hg Hne. apply get_Some_elem in Hg. vm_compute in Hg.
    apply list_elem_of_singleton in Hg. injection Hg as -> _. done.
  - exists "a". split; [vm_compute; left|vm_compute; reflexivity].
Defined.

(** * Cars *)

Lemma same_car_refl p : same_car p p.
Proof. unfold same_car. tauto. Qed.

Lemma same_car_expire now p : same_car p (expire_stun now p).
Proof.
  unfold expire_stun, same_car. destruct (_ && _); simpl; tauto.
Qed.

(** X13.  Where a car is and how its race went ([x], [worldY],
    [distance], [finished], [finishTime], [position]) is changed by
    nothing but the player's own player-update, accepted only while the
    room is racing and the player has not finished -- apart from
    restart-game and join-room, which put players on the grid.  Updates
    outside a race, updates of a finished player, collisions, ticks and
    what other sockets send leave all six fields alone. *)
Theorem car_moves_only_by_its_own_update (now : Z) (i : Input) (w : World)
    (roomCode : string) (room room' : Room.t) (id : string)
    (p p' : Player.t) :
  reachable w ->
  room_at roomCode w = Some room ->
  room_at roomCode (outcome_world (handle now i w)) = Some room' ->
  Obj.get id (Room.players room) = Some p ->
  Obj.get id (Room.players room') = Some p' ->
  is_join i = false -> is_restart i = false ->
  same_car p p'
  \/ exists data,
      i = PlayerUpdate id data
      /\ Room.raceState room = RACING
      /\ Player.finished p = false
      /\ Player.x p' = Update.x data
      /\ Player.distance p' = Update.distance data.
Proof.
  intros Hw Hat Hat' Hget Hget' Hj Hr.
  pose proof (reachable_players_NoDup w roomCode room Hw Hat) as Hnd.
  apply handle_room_effect in Hat'; [|now apply reachable_NoDup].
  destruct Hat' as [[Hsame _]|[(room0 & H0 & Hs)|(Hnone & _)]].
  - left. rewrite Hat in Hsame. injection Hsame as <-.
    rewrite Hget in Hget'. injection Hget' as <-. apply same_car_refl.
  - rewrite Hat in H0. injection H0 as <-.
    assert (Hkeep : Room.players room' = Room.players room -> same_car p p').
    { intros Hp. rewrite Hp, Hget in Hget'. injection Hget' as <-.
      apply same_car_refl. }
    destruct Hs; subst; try discriminate; simpl in *;
      try (left; now apply Hkeep).
    + (* move *)
      rewrite get_set_cases in Hget'.
      destruct (String.eqb_spec id sid) as [->|Hne].
      * right. exists data. injection Hget' as <-.
        rewrite H in Hget. injection Hget as <-. done.
      * left. rewrite Hget in Hget'. injection Hget' as <-.
        apply same_car_refl.
    + (* finish *)
      rewrite get_set_cases in Hget'.
      destruct (String.eqb_spec id sid) as [->|Hne].
      * right. exists data. injection Hget' as <-.
        rewrite H in Hget. injection Hget as <-. done.
      * left. rewrite Hget in Hget'. injection Hget' as <-.
        apply same_car_refl.
    + (* last finish *)
      rewrite get_set_cases in Hget'.
      destruct (String.eqb_spec id sid) as [->|Hne].
      * right. exists data. injection Hget' as <-.
        rewrite H in Hget. injection Hget as <-. done.
      * left. rewrite Hget in Hget'. injection Hget' as <-.
        apply same_car_refl.
    + (* collision *)
      left. rewrite get_set_cases in Hget'.
      destruct (String.eqb_spec id sid) as [->|Hne].
      * injection Hget' as <-. rewrite H in Hget. injection Hget as <-.
        unfold same_car. simpl. tauto.
      * rewrite Hget in Hget'. injection Hget' as <-. apply same_car_refl.
    + (* disconnect *)
      left. rewrite get_del_cases in Hget' by done.
      destruct (String.eqb id sid); [done|].
      rewrite Hget in Hget'. injection Hget' as <-. apply same_car_refl.
    + (* tick *)
      left. rewrite tick_room_players in Hget'.
      destruct (_ && _).
      * rewrite expired_get, Hget in Hget'. injection Hget' as <-.
        apply same_car_expire.
      * rewrite Hget in Hget'. injection Hget' as <-. apply same_car_refl.
  - unfold room_at in *. congruence.
Qed.

Lemma car_moves_only_by_its_own_update_witness :
  let i := PlayerUpdate "b" (Examples.report (-50) 25) in
  let p := default (new_player "" 0) (Examples.the_player "a" Examples.racing) in
  let p' :=
    default (new_player "" 0)
      (Examples.the_player "a" (Examples.after 5000 i Examples.racing)) in
  same_car p p'
  \/ exists data,
      i = PlayerUpdate "a" data
      /\ Room.raceState (Examples.the_room Examples.racing) = RACING
      /\ Player.finished p = false
      /\ Player.x p' = Update.x data
      /\ Player.distance p' = Update.distance data.
Proof.
  apply (car_moves_only_by_its_own_update 5000
           (PlayerUpdate "b" (Examples.report (-50) 25)) Examples.racing
           "ABCD" (Examples.the_room Examples.racing)
           (Examples.the_room
              (Examples.after 5000
                 (PlayerUpdate "b" (Examples.report (-50) 25))
                 Examples.racing))
           "a").
  - apply racing_reachable.
  - vm_compute. reflexivity.
  - vm_compute. reflexivity.
  - vm_compute. reflexivity.
  - vm_compute. reflexivity.
  - reflexivity.
  - reflexivity.
Defined.

(** * The creator *)

Lemma room_step_creator now roomCode room i room' fin :
  room_step now roomCode room i room' fin ->
  Room.creatorId room' = Room.creatorId room.
Proof.
  intros Hs. destruct Hs; subst; simpl; try reflexivity.
  now destruct (tick_room_static now rnd k roomCode room) as (-> & _).
Qed.

(** X14.  A room keeps the creator it was created with for as long as it
    exists: no listener assigns [creatorId] again.  When the creator
    disconnects while other members remain, the room stays, and its
    creator is then neither a member nor a player nor a connected
    socket. *)
Theorem creator_is_never_replaced (now : Z) (i : Input) (w : World)
    (roomCode : string) (room room' : Room.t) :
  reachable w ->
  room_at roomCode w = Some room ->
  room_at roomCode (outcome_world (handle now i w)) = Some room' ->
  Room.creatorId room' = Room.creatorId room
  /\ (i = Disconnect (Room.creatorId room) ->
      socket_room (Room.creatorId room) w = Some (roomCode, room) ->
      (Room.creatorId room ∉ member_ids room')
      /\ Obj.get (Room.creatorId room) (Room.players room') = None
      /\ socks (outcome_world (handle now i w)) !! Room.creatorId room = None).
Proof.
  intros Hw Hat Hat'. split.
  - apply handle_room_effect in Hat'; [|now apply reachable_NoDup].
    destruct Hat' as [[Hsame _]|[(room0 & H0 & Hs)|(Hnone & _)]].
    + congruence.
    + rewrite Hat in H0. injection H0 as <-.
      eapply room_step_creator; eauto.
    + unfold room_at in *. congruence.
  - intros -> Hsr. cbn [handle] in *. unfold on_disconnect in *.
    pose proof (reachable_players_NoDup w roomCode room Hw Hat) as Hnd.
    unfold socket_room in Hsr.
    destruct (socks w !! Room.creatorId room) as [s|]; [|done].
    destruct (Obj.get (Socket.roomCode s) (rooms w)) as [r|] eqn:Hg; [|done].
    injection Hsr as Hcode ->. rewrite Hcode in *.
    destruct (_ =? _)%nat; unfold done in *;
      cbn [outcome_world fst socks] in *.
    + unfold room_at in Hat'. cbn [rooms] in Hat'.
      rewrite get_del_eq in Hat' by now apply reachable_NoDup. done.
    + unfold room_at in Hat'. cbn [rooms] in Hat'.
      rewrite get_set_eq in Hat'. injection Hat' as <-.
      split; [|split].
      * rewrite member_ids_left. tauto.
      * simpl. now apply get_del_eq.
      * apply lookup_delete_eq.
Qed.

Lemma creator_is_never_replaced_witness :
  let room := Examples.the_room Examples.racing in
  let w' := Examples.after 5000 (Disconnect "a") Examples.racing in
  let room' := Examples.the_room w' in
  Room.creatorId room' = Room.creatorId room
  /\ (Disconnect "a" = Disconnect (Room.creatorId room) ->
      socket_room (Room.creatorId room) Examples.racing
      = Some ("ABCD", room) ->
      (Room.creatorId room ∉ member_ids room')
      /\ Obj.get (Room.creatorId room) (Room.players room') = None
      /\ socks w' !! Room.creatorId room = None).
Proof.
  apply (creator_is_never_replaced 5000 (Disconnect "a") Examples.racing
           "ABCD").
  - apply racing_reachable.
  - vm_compute. reflexivity.
  - vm_compute. reflexivity.
Defined.

(** * A race nobody can finish *)

Lemma All_expired (P : Player.t -> Prop) now players :
  (forall p, P p -> P (expire_stun now p)) ->
  Obj.All P players -> Obj.All P (expired now players).
Proof.
  unfold Obj.All, expired. intros HP Hall.
  apply Forall_fmap. eapply Forall_impl; [exact Hall|].
  intros [k p]. simpl. apply HP.
Qed.

(** X15.  A race can get stuck.  When every player left in a racing or
    paused room has finished (the others disconnected), nothing ends the
    race: whatever is handled next, the room is still racing or paused
    with only finished players, race-finished is never sent to it, and
    the only way out is the creator's restart-game. *)
Theorem race_of_finished_players_never_ends (now : Z) (i : Input)
    (w : World) (roomCode : string) (room room' : Room.t) :
  reachable w ->
  room_at roomCode w = Some room ->
  Room.raceState room = RACING \/ Room.raceState room = PAUSED ->
  Obj.All (fun p => Player.finished p = true) (Room.players room) ->
  room_at roomCode (outcome_world (handle now i w)) = Some room' ->
  (((Room.raceState room' = RACING \/ Room.raceState room' = PAUSED)
    /\ Obj.All (fun p => Player.finished p = true) (Room.players room'))
   \/ (Room.raceState room' = WAITING
       /\ i = RestartGame (Room.creatorId room)))
  /\ forall results,
      mkEmit (ToRoom roomCode) (EvRaceFinished results)
        ∉ outcome_emits (handle now i w).
Proof.
  intros Hw Hat Hst Hall Hat'.
  assert (Hfinished : forall sid player,
             Obj.get sid (Room.players room) = Some player ->
             Player.finished player = false -> False).
  { intros sid player Hg Hf.
    pose proof (All_get _ _ _ _ Hall Hg) as Ht. simpl in Ht. congruence. }
  split.
  - apply handle_room_effect in Hat'; [|now apply reachable_NoDup].
    destruct Hat' as [[Hsame _]|[(room0 & H0 & Hs)|(Hnone & _)]].
    + left. rewrite Hat in Hsame. now injection Hsame as <-.
    + rewrite Hat in H0. injection H0 as <-.
      destruct Hs; subst; simpl;
        try (exfalso; eapply Hfinished; eauto; fail);
        try (exfalso; destruct Hst; congruence);
        try (left; split; [tauto|assumption]).
      * exfalso. unfold race_in_progress in H.
        destruct Hst as [Hs|Hs]; rewrite Hs in H; discriminate.
      * right. split; [done|]. f_equal. symmetry.
        now apply String.eqb_eq.
      * left. split; [done|]. apply All_set; [done|].
        apply (All_get _ _ _ _ Hall H).
      * left. split; [done|]. now apply All_del.
      * left.
        destruct (tick_room_race now rnd k roomCode room) as (_ & Hne & _).
        rewrite Hne by (destruct Hst; congruence).
        split; [done|]. rewrite tick_room_players.
        destruct (_ && _); [|done].
        apply All_expired; [|done].
        intros p. unfold expire_stun. now destruct (_ && _).
    + unfold room_at in *. congruence.
  - intros results Hin.
    destruct (race_finished_emitted now i w _ Hin eq_refl)
      as (sid & data & code & room0 & player & res & _ & Hsr & Hget & _
          & Hfin & _ & _ & [= <- _] & _).
    apply socket_room_at in Hsr. rewrite Hat in Hsr. injection Hsr as <-.
    eapply Hfinished; eauto.
Qed.

Lemma racer_left_reachable : reachable Cases.racer_left.
Proof.
  apply (run_reachable Cases.racer_left_inputs Examples.racing
           Cases.racer_left
           (outcome_emits (run Cases.racer_left_inputs Examples.racing)));
    [apply racing_reachable|vm_compute; reflexivity].
Qed.

Lemma race_of_finished_players_never_ends_witness :
  let i := Tick Examples.draws in
  let room := Examples.the_room Cases.racer_left in
  let room' := Examples.the_room (Examples.after 9200 i Cases.racer_left) in
  (((Room.raceState room' = RACING \/ Room.raceState room' = PAUSED)
    /\ Obj.All (fun p => Player.finished p = true) (Room.players room'))
   \/ (Room.raceState room' = WAITING
       /\ i = RestartGame (Room.creatorId room)))
  /\ forall results,
      mkEmit (ToRoom "ABCD") (EvRaceFinished results)
        ∉ outcome_emits (handle 9200 i Cases.racer_left).
Proof.
  apply (race_of_finished_players_never_ends 9200 (Tick Examples.draws)
           Cases.racer_left "ABCD").
  - apply racer_left_reachable.
  - vm_compute. reflexivity.
  - left. vm_compute. reflexivity.
  - vm_compute. repeat constructor.
  - vm_compute. reflexivity.
Defined.

(** * What a tick broadcasts *)

Lemma NoDup_elem_get {V} k (v : V) o :
  NoDup (Obj.keys o) -> (k, v) ∈ o -> Obj.get k o = Some v.
Proof.
  induction o as [|[k1 v1] o IH]; simpl; intros Hnd Hin; [inversion Hin|].
  apply NoDup_cons in Hnd as [Hnin Hnd].
  apply elem_of_cons in Hin as [[= -> ->]|Hin].
  - now rewrite String.eqb_refl.
  - destruct (String.eqb_spec k k1) as [->|]; [|auto].
    exfalso. apply Hnin. apply list_elem_of_fmap. now exists (k1, v).
Qed.

Lemma tick_rooms_broadcast now rnd rs : forall k,
  Forall (fun kv => Room.members (snd kv) <> []) rs ->
  NoDup (Obj.keys rs) ->
  let rs' := fst (fst (tick_rooms now rnd k rs)) in
  let out := snd (fst (tick_rooms now rnd k rs)) in
  map target (List.filter is_game_state out) = map ToRoom (Obj.keys rs)
  /\ Forall (fun e => is_tick_event e = true
                      /\ exists code,
                          target e = ToRoom code /\ code ∈ Obj.keys rs) out
  /\ forall code room',
      Obj.get code rs' = Some room' ->
      mkEmit (ToRoom code) (EvGameState (snapshot now room')) ∈ out.
Proof.
  induction rs as [|[code room] rs IH]; intros k Hm Hnd; cbv zeta; simpl.
  - split; [done|]. split; [constructor|]. intros ? ? H. inversion H.
  - apply Forall_cons in Hm as [Hm Hms]. simpl in Hm.
    apply NoDup_cons in Hnd as [Hnin Hnd].
    destruct (tick_room_emits now rnd k code room) as (out1 & Hout & Hall).
    destruct (tick_room now rnd k code room) as [[room' out] k1].
    specialize (IH k1 Hms Hnd). cbv zeta in IH.
    destruct (tick_rooms now rnd k1 rs) as [[rs' out'] k2].
    cbn [fst snd] in *.
    destruct IH as (IH1 & IH2 & IH3).
    destruct (Room.members room) as [|m ms]; [done|]. simpl in Hout.
    subst out.
    split; [|split].
    + rewrite !List.filter_app, !map_app, IH1. simpl. f_equal.
      replace (List.filter is_game_state out1) with (@nil Emit); [done|].
      symmetry. clear -Hall. induction Hall as [|e l (_ & He & _) _ IHl];
        [done|]. simpl. now rewrite He.
    + apply Forall_app. split; [apply Forall_app; split|].
      * eapply Forall_impl; [exact Hall|].
        intros e (? & _ & ?). split; [done|]. exists code. split; [done|left].
      * repeat constructor. exists code. split; [done|left].
      * eapply Forall_impl; [exact IH2|].
        intros e (? & c & ? & ?). split; [done|]. exists c.
        split; [done|now right].
    + intros c r'. simpl.
      destruct (String.eqb_spec c code) as [->|Hne].
      * intros [= <-]. apply elem_of_app. left. apply elem_of_app. right.
        left.
      * intros Hg. apply elem_of_app. right. now apply IH3.
Qed.

(** * The codes of the rooms table *)

(** What a listener or the tick does to the table: it keeps the codes, or
    deletes one, or creates one that is no property of [Object.prototype]. *)
Lemma handle_table now i w :
  let w' := outcome_world (handle now i w) in
  Obj.keys (rooms w') = Obj.keys (rooms w)
  \/ (exists code, rooms w' = Obj.del code (rooms w))
  \/ (exists code r,
         Obj.get code (rooms w) = None /\ inherited code = false
         /\ rooms w' = Obj.add code r (rooms w)).
Proof.
  cbv zeta.
  assert (Hput : forall sid code r r',
             socket_room sid w = Some (code, r) ->
             Obj.keys (rooms (put_room code r' w)) = Obj.keys (rooms w)).
  { intros sid code r r' Hsr. apply socket_room_at in Hsr.
    cbn [put_room rooms]. now apply keys_set_present with r. }
  destruct i; cbn [handle].
  - rewrite on_join_room_cases. cbv zeta.
    destruct (negb (truthy_str roomCode) || negb (truthy_str name));
      [now left|].
    destruct (Obj.get roomCode (rooms w)) as [r|] eqn:Hget.
    + destruct (race_in_progress r); cbn [outcome_world rooms];
        [now left|]. left. now apply keys_set_present with r.
    + destruct (inherited roomCode) eqn:Hinh; cbn [outcome_world rooms];
        [now left|]. right. right. eauto.
  - unfold on_set_race_distance.
    destruct (socket_room sid w) as [[code r]|] eqn:Hsr; [|now left].
    repeat match goal with
           | |- context [if ?c then _ else _] => destruct c
           end; unfold done; cbn [outcome_world fst]; left; eauto.
  - unfold on_start_race.
    destruct (socket_room sid w) as [[code r]|] eqn:Hsr; [|now left].
    repeat match goal with
           | |- context [if ?c then _ else _] => destruct c
           end; unfold done; cbn [outcome_world fst]; left; eauto.
  - unfold on_toggle_pause.
    destruct (socket_room sid w) as [[code r]|] eqn:Hsr; [|now left].
    repeat match goal with
           | |- context [if ?c then _ else _] => destruct c
           end; unfold done; cbn [outcome_world fst]; left; eauto.
  - unfold on_player_update.
    destruct (socket_room sid w) as [[code r]|] eqn:Hsr; [|now left].
    destruct (Obj.get sid (Room.players r)) as [player|]; [|now left].
    repeat match goal with
           | |- context [if ?c then _ else _] => destruct c
           | |- context [match ?x with Some _ => _ | None => _ end] =>
               destruct x
           end; cbn [outcome_world]; left; eauto.
  - unfold on_restart_game.
    destruct (socket_room sid w) as [[code r]|] eqn:Hsr; [|now left].
    repeat match goal with
           | |- context [if ?c then _ else _] => destruct c
           end; unfold done; cbn [outcome_world fst]; left; eauto.
  - unfold on_collision.
    destruct (socket_room sid w) as [[code r]|] eqn:Hsr; [|now left].
    destruct (Obj.get sid (Room.players r)) as [player|];
      unfold done; cbn [outcome_world fst]; left; eauto.
  - unfold on_disconnect.
    destruct (socks w !! sid) as [s|]; [|now left].
    destruct (Obj.get (Socket.roomCode s) (rooms w)) as [r|] eqn:Hget;
      [|now left].
    match goal with
    | |- context [if ?c then _ else _] => destruct c
    end; unfold done; cbn [outcome_world fst rooms].
    + right. left. eauto.
    + left. now apply keys_set_present with r.
  - unfold on_tick.
    pose proof (tick_rooms_keys now rnd (rooms w) 0%nat) as Hk.
    destruct (tick_rooms now rnd 0 (rooms w)) as [[rs out] k].
    unfold done; cbn [outcome_world fst rooms] in *. now left.
Qed.

Lemma before_other k k' : array_index k' = None -> before k k'.
Proof. unfold before. intros ->. now destruct (array_index k). Qed.

Lemma sorted_keys_add {V} k (v : V) o :
  StronglySorted before (Obj.keys o) ->
  StronglySorted before (Obj.keys (Obj.add k v o)).
Proof.
  intros Hs.
  destruct (keys_add_split k v o) as (l1 & l2 & H1 & H2 & Hp).
  rewrite H1 in Hs. rewrite H2. clear H1 H2.
  apply StronglySorted_app in Hs as (H12 & Hs1 & Hs2).
  unfold placed in Hp. destruct (array_index k) as [n|] eqn:Hk.
  - destruct Hp as [Hl1 Hl2].
    assert (Hk2 : Forall (before k) l2).
    { destruct l2 as [|k2 l2]; [constructor|].
      apply StronglySorted_cons in Hs2 as [Hall _].
      assert (Hb : before k k2).
      { unfold before. rewrite Hk. destruct (array_index k2); [lia|done]. }
      constructor; [done|].
      eapply Forall_impl; [exact Hall|]. intros y Hy. simpl in Hy.
      unfold before in *. rewrite Hk in *.
      destruct (array_index k2) as [m|], (array_index y) as [m'|];
        try done; lia. }
    apply StronglySorted_app_2; [|done|].
    + intros x1 x2 Hx1 Hx2. apply elem_of_cons in Hx2 as [->|Hx2]; [|auto].
      rewrite Forall_forall in Hl1. destruct (Hl1 x1 Hx1) as (m & Hm & Hle).
      unfold before. now rewrite Hm, Hk.
    + now constructor.
  - subst l2. apply StronglySorted_app_2; [|done|repeat constructor].
    intros x1 x2 _ Hx2. apply list_elem_of_singleton in Hx2 as ->.
    now apply before_other.
Qed.

Lemma sorted_keys_del {V} k (o : list (string * V)) :
  StronglySorted before (Obj.keys o) ->
  StronglySorted before (Obj.keys (Obj.del k o)).
Proof.
  induction o as [|[k1 v1] o IH]; simpl; [done|].
  intros Hs. apply StronglySorted_cons in Hs as [Hall Hs].
  destruct (String.eqb k k1); [done|]. simpl.
  apply StronglySorted_cons. split; [|auto].
  rewrite Forall_forall in *. intros x Hx. apply Hall.
  now apply (keys_del_subseteq k o).
Qed.

(** In every reachable world the rooms table lists its codes in the order
    of [for..in], and no code names a property of [Object.prototype]: a
    room is found under a code exactly when [rooms[code]] is truthy for
    a code stored on a socket. *)
Lemma reachable_table w :
  reachable w ->
  StronglySorted before (Obj.keys (rooms w))
  /\ Forall (fun code => inherited code = false) (Obj.keys (rooms w)).
Proof.
  induction 1 as [|w now i w' out Hw [IHs IHi] Hh].
  - split; constructor.
  - pose proof (handle_table now i w) as Ht. rewrite Hh in Ht.
    cbn [outcome_world] in Ht.
    destruct Ht as [->|[(code & ->)|(code & r & Hget & Hinh & ->)]].
    + done.
    + split; [now apply sorted_keys_del|].
      rewrite Forall_forall in *. intros x Hx. apply IHi.
      now apply (keys_del_subseteq code (rooms w)).
    + split; [now apply sorted_keys_add|].
      rewrite keys_add. now constructor.
Qed.

(** What a listener does to the attributes stored on the sockets: nothing,
    or the disconnect drops them, or a join-room that does not throw
    stores a code that is a room of the table or will be created. *)
Lemma handle_socks now i w w' out :
  handle now i w = Done w' out ->
  socks w' = socks w
  \/ (exists sid, socks w' = delete sid (socks w))
  \/ (exists sid code name,
         socks w' = <[sid := Socket.mk code name]> (socks w)
         /\ truthy_str code = true
         /\ (inherited code = true -> code ∈ Obj.keys (rooms w))).
Proof.
  destruct i; cbn [handle].
  - rewrite on_join_room_cases. cbv zeta.
    destruct (negb (truthy_str roomCode) || negb (truthy_str name)) eqn:Hc;
      [intros [= <- _]; now left|].
    apply orb_false_elim in Hc as [Hc _]. apply negb_false_iff in Hc.
    destruct (Obj.get roomCode (rooms w)) as [r|] eqn:Hget.
    + apply get_Some_keys in Hget.
      destruct (race_in_progress r); intros [= <- _]; right; right;
        exists sid, roomCode, name; auto.
    + destruct (inherited roomCode) eqn:Hinh; [discriminate|].
      intros [= <- _]. right. right. exists sid, roomCode, name.
      split; [done|]. split; [done|]. intros Hi. congruence.
  - unfold on_set_race_distance.
    destruct (socket_room sid w) as [[code r]|]; [|intros [= <- _]; now left].
    repeat match goal with
           | |- context [if ?c then _ else _] => destruct c
           end; intros [= <- _]; now left.
  - unfold on_start_race.
    destruct (socket_room sid w) as [[code r]|]; [|intros [= <- _]; now left].
    repeat match goal with
           | |- context [if ?c then _ else _] => destruct c
           end; intros [= <- _]; now left.
  - unfold on_toggle_pause.
    destruct (socket_room sid w) as [[code r]|]; [|intros [= <- _]; now left].
    repeat match goal with
           | |- context [if ?c then _ else _] => destruct c
           end; intros [= <- _]; now left.
  - unfold on_player_update.
    destruct (socket_room sid w) as [[code r]|]; [|intros [= <- _]; now left].
    destruct (Obj.get sid (Room.players r)) as [player|];
      [|intros [= <- _]; now left].
    repeat match goal with
           | |- context [if ?c then _ else _] => destruct c
           | |- context [match ?x with Some _ => _ | None => _ end] =>
               destruct x
           end; intros [= <- _]; now left.
  - unfold on_restart_game.
    destruct (socket_room sid w) as [[code r]|]; [|intros [= <- _]; now left].
    repeat match goal with
           | |- context [if ?c then _ else _] => destruct c
           end; intros [= <- _]; now left.
  - unfold on_collision.
    destruct (socket_room sid w) as [[code r]|]; [|intros [= <- _]; now left].
    destruct (Obj.get sid (Room.players r)) as [player|];
      intros [= <- _]; now left.
  - unfold on_disconnect.
    destruct (socks w !! sid) as [s|]; [|intros [= <- _]; now left].
    destruct (Obj.get (Socket.roomCode s) (rooms w)) as [r|];
      [|intros [= <- _]; right; left; now exists sid].
    match goal with
    | |- context [if ?c then _ else _] => destruct c
    end; intros [= <- _]; right; left; now exists sid.
  - unfold on_tick.
    destruct (tick_rooms now rnd 0 (rooms w)) as [[rs out'] k].
    intros [= <- _]. now left.
Qed.

(** Hence a socket never holds a code that only [Object.prototype] knows:
    the guard [!rooms[roomCode]] of the listeners is the lookup of a
    stored room. *)
Lemma reachable_socket_codes w sid s :
  reachable w ->
  socks w !! sid = Some s ->
  truthy_str (Socket.roomCode s) = true
  /\ inherited (Socket.roomCode s) = false.
Proof.
  intros Hw. revert sid s.
  induction Hw as [|w now i w' out Hw IH Hh]; intros sid s Hs.
  - done.
  - destruct (handle_socks now i w w' out Hh)
      as [Heq|[(sid' & Heq)|(sid' & code & name & Heq & Hc & Hinh)]];
      rewrite Heq in Hs.
    + eauto.
    + apply lookup_delete_Some in Hs as [_ Hs]. eauto.
    + apply lookup_insert_Some in Hs as [[_ <-]|[_ Hs]]; [|eauto].
      split; [done|]. simpl.
      destruct (inherited code) eqn:Hi; [|done].
      destruct (reachable_table w Hw) as [_ Hall].
      rewrite Forall_forall in Hall. rewrite <- Hi. apply Hall. auto.
Qed.


Lemma two_rooms_reachable : reachable Cases.two_rooms.
Proof.
  apply (reachable_step Examples.lobby 2000 (JoinRoom "c" "WXYZ" "Cyd")
           Cases.two_rooms
           (outcome_emits
              (handle 2000 (JoinRoom "c" "WXYZ" "Cyd") Examples.lobby)));
    [apply lobby_reachable|vm_compute; reflexivity].
Qed.

Lemma numbered_rooms_reachable : reachable Cases.numbered_rooms.
Proof.
  apply (run_reachable Cases.numbered_inputs empty_world Cases.numbered_rooms
           (outcome_emits (run Cases.numbered_inputs empty_world)));
    [constructor|].
  vm_compute. reflexivity.
Qed.


(** X17.  Outside countdown and racing a tick only broadcasts: the room
    is left exactly as it was, no random number is drawn, and the one
    event sent is a game-state that reports gameSpeed 0.  Its raceTime is
    still [now - raceStartTime] (0 when raceStartTime is null or 0): the
    clock shown to the clients keeps running while the race is paused and
    after it has finished. *)
Theorem idle_tick_only_broadcasts (now : Z) (rnd : nat -> Q) (k : nat)
    (roomCode : string) (room : Room.t) :
  Room.members room <> [] ->
  Room.raceState room = WAITING \/ Room.raceState room = PAUSED
  \/ Room.raceState room = FINISHED ->
  tick_room now rnd k roomCode room
  = (room, [mkEmit (ToRoom roomCode) (EvGameState (snapshot now room))], k)
  /\ GameState.gameSpeed (snapshot now room) = 0%Q
  /\ (forall S,
         Room.raceStartTime room = Some S -> S <> 0 ->
         GameState.raceTime (snapshot now room) = now - S)
  /\ (Room.raceStartTime room = None \/ Room.raceStartTime room = Some 0 ->
      GameState.raceTime (snapshot now room) = 0).
Proof.
  intros Hm Hst.
  assert (Hc : Room.raceState room <> COUNTDOWN)
    by (destruct Hst as [?|[?|?]]; congruence).
  assert (Hr : Room.raceState room <> RACING)
    by (destruct Hst as [?|[?|?]]; congruence).
  split; [|split; [|split]].
  - unfold tick_room. destruct (Room.members room) as [|m ms]; [done|].
    cbn [length Nat.ltb Nat.leb].
    unfold tick_countdown, tick_racing, tick_obstacles.
    rewrite !bool_decide_eq_false_2 by done.
    now destruct (world_bounds (Room.players room)) as [[mn mx] has].
  - unfold snapshot. simpl. now rewrite bool_decide_eq_false_2.
  - intros S HS Hnz. unfold snapshot, raceTime. simpl. rewrite HS.
    now destruct (Z.eqb_spec S 0).
  - intros [HS|HS]; unfold snapshot, raceTime; simpl; now rewrite HS.
Qed.

Lemma idle_tick_only_broadcasts_witness :
  let room := Examples.the_room Examples.paused in
  tick_room 15000 Examples.draws 0 "ABCD" room
  = (room, [mkEmit (ToRoom "ABCD") (EvGameState (snapshot 15000 room))], 0%nat)
  /\ GameState.gameSpeed (snapshot 15000 room) = 0%Q
  /\ (forall S,
         Room.raceStartTime room = Some S -> S <> 0 ->
         GameState.raceTime (snapshot 15000 room) = 15000 - S)
  /\ (Room.raceStartTime room = None \/ Room.raceStartTime room = Some 0 ->
      GameState.raceTime (snapshot 15000 room) = 0).
Proof.
  apply (idle_tick_only_broadcasts 15000 Examples.draws 0 "ABCD"
           (Examples.the_room Examples.paused)).
  - vm_compute. discriminate.
  - right. left. vm_compute. reflexivity.
Defined.

(** * Stuns *)

(** X18.  A tick of a racing room ends every stun whose deadline has
    passed and no other: afterwards a player is stunned exactly if it was
    stunned before and [now] is still before its [stunnedUntil].  The
    deadline itself and the car are left alone. *)
Theorem stun_ends_at_its_deadline (now : Z) (rnd : nat -> Q) (k : nat)
    (roomCode : string) (room : Room.t) (id : string) (p : Player.t) :
  Room.members room <> [] ->
  Room.raceState room = RACING ->
  Obj.get id (Room.players room) = Some p ->
  exists p',
    Obj.get id
      (Room.players (fst (fst (tick_room now rnd k roomCode room))))
    = Some p'
    /\ Player.stunned p' = Player.stunned p && (now <? Player.stunnedUntil p)
    /\ Player.stunnedUntil p' = Player.stunnedUntil p
    /\ same_car p p'.
Proof.
  intros Hm Hst Hget.
  destruct (tick_room_race now rnd k roomCode room) as (_ & Hne & _).
  rewrite tick_room_players, Hne, Hst by congruence.
  rewrite bool_decide_eq_true_2 by done.
  destruct (Room.members room) as [|m ms]; [done|]. simpl.
  rewrite expired_get, Hget. simpl.
  exists (expire_stun now p). split; [done|].
  split; [|split; [|apply same_car_expire]].
  - unfold expire_stun. rewrite Z.ltb_antisym.
    destruct (Player.stunned p) eqn:Hs;
      destruct (Player.stunnedUntil p <=? now); simpl; congruence.
  - unfold expire_stun. now destruct (_ && _).
Qed.

Lemma stun_ends_at_its_deadline_witness :
  let room :=
    Examples.the_room (Examples.after 5000 (Collision "a") Examples.racing) in
  let p := stun 5000 (default (new_player "" 0)
                        (Examples.the_player "a" Examples.racing)) in
  exists p',
    Obj.get "a"
      (Room.players
         (fst (fst (tick_room 7000 Examples.draws 0 "ABCD" room))))
    = Some p'
    /\ Player.stunned p' = Player.stunned p && (7000 <? Player.stunnedUntil p)
    /\ Player.stunnedUntil p' = Player.stunnedUntil p
    /\ same_car p p'.
Proof.
  apply (stun_ends_at_its_deadline 7000 Examples.draws 0 "ABCD"
           (Examples.the_room
              (Examples.after 5000 (Collision "a") Examples.racing)) "a").
  - vm_compute. discriminate.
  - vm_compute. reflexivity.
  - vm_compute. reflexivity.
Defined.

(** * The leaderboard *)

Lemma ranks_before_cases a b :
  ranks_before a b
  <-> (Standing.finished a = true /\ Standing.finished b = false)
      \/ (Standing.finished a = true /\ Standing.finished b = true
          /\ (pos_num (Standing.position a)
              <= pos_num (Standing.position b))%Q)
      \/ (Standing.finished a = false /\ Standing.finished b = false
          /\ (Standing.distance b <= Standing.distance a)%Q).
Proof.
  unfold ranks_before, compare_standing.
  destruct (Standing.finished a), (Standing.finished b); simpl;
    split; intros H;
    repeat match goal with
           | H : _ \/ _ |- _ => destruct H
           | H : _ /\ _ |- _ => destruct H
           end; try discriminate; try lra; auto.
Qed.

Lemma ranks_before_total a b : ~ ranks_before a b -> ranks_before b a.
Proof.
  unfold ranks_before, compare_standing.
  destruct (Standing.finished a), (Standing.finished b); simpl; lra.
Qed.

Lemma ranks_before_trans a b c :
  ranks_before a b -> ranks_before b c -> ranks_before a c.
Proof.
  unfold ranks_before, compare_standing.
  destruct (Standing.finished a), (Standing.finished b),
    (Standing.finished c); simpl; lra.
Qed.

Lemma insert_standing_perm a l : insert_standing a l ≡ₚ a :: l.
Proof.
  induction l as [|b l IH]; simpl; [done|].
  destruct (Qle_bool (compare_standing a b) 0); [done|].
  rewrite IH. apply perm_swap.
Qed.

Lemma insert_standing_sorted a l :
  StronglySorted ranks_before l ->
  StronglySorted ranks_before (insert_standing a l).
Proof.
  induction 1 as [|b l Hs IH Hb]; simpl.
  - repeat constructor.
  - destruct (Qle_bool (compare_standing a b) 0) eqn:Hab.
    + apply Qle_bool_iff in Hab.
      constructor; [now constructor|].
      constructor; [exact Hab|].
      eapply Forall_impl; [exact Hb|].
      intros c Hc. eapply ranks_before_trans; eauto.
    + assert (Hba : ranks_before b a).
      { apply ranks_before_total. unfold ranks_before.
        rewrite <- Qle_bool_iff. congruence. }
      constructor; [exact IH|].
      rewrite insert_standing_perm. now constructor.
Qed.

Lemma sort_standings_perm l : sort_standings l ≡ₚ l.
Proof.
  induction l as [|a l IH]; simpl; [done|].
  now rewrite insert_standing_perm, IH.
Qed.

Lemma sort_standings_sorted l : StronglySorted ranks_before (sort_standings l).
Proof.
  induction l as [|a l IH]; simpl; [constructor|].
  now apply insert_standing_sorted.
Qed.

(** X19.  The leaderboard of a snapshot holds the best five standings of
    the room, best first: it has five lines (all of them when the room
    has fewer players); together with the standings left out it is a
    rearrangement of the players' standings; every line stands before all
    later lines and before every standing left out.  Finished players
    stand before unfinished ones, finished ones in the order of their
    positions, the others by decreasing distance. *)
Theorem leaderboard_is_the_best_five (room : Room.t) :
  let all := map standing (Obj.values (Room.players room)) in
  length (leaderboard room) = Nat.min 5 (length all)
  /\ (exists rest,
         leaderboard room ++ rest ≡ₚ all
         /\ StronglySorted ranks_before (leaderboard room ++ rest))
  /\ (forall a b,
         ranks_before a b
         <-> (Standing.finished a = true /\ Standing.finished b = false)
             \/ (Standing.finished a = true /\ Standing.finished b = true
                 /\ (pos_num (Standing.position a)
                     <= pos_num (Standing.position b))%Q)
             \/ (Standing.finished a = false /\ Standing.finished b = false
                 /\ (Standing.distance b <= Standing.distance a)%Q)).
Proof.
  cbv zeta. unfold leaderboard.
  set (all := map standing (Obj.values (Room.players room))).
  split; [|split].
  - rewrite length_firstn.
    now rewrite (Permutation_length (sort_standings_perm all)).
  - exists (skipn 5 (sort_standings all)).
    rewrite firstn_skipn. split.
    + apply sort_standings_perm.
    + apply sort_standings_sorted.
  - apply ranks_before_cases.
Qed.

Lemma leaderboard_is_the_best_five_witness :
  let room := Examples.the_room Examples.finished in
  let all := map standing (Obj.values (Room.players room)) in
  length (leaderboard room) = Nat.min 5 (length all)
  /\ (exists rest,
         leaderboard room ++ rest ≡ₚ all
         /\ StronglySorted ranks_before (leaderboard room ++ rest))
  /\ (forall a b,
         ranks_before a b
         <-> (Standing.finished a = true /\ Standing.finished b = false)
             \/ (Standing.finished a = true /\ Standing.finished b = true
                 /\ (pos_num (Standing.position a)
                     <= pos_num (Standing.position b))%Q)
             \/ (Standing.finished a = false /\ Standing.finished b = false
                 /\ (Standing.distance b <= Standing.distance a)%Q)).
Proof.
  exact (leaderboard_is_the_best_five (Examples.the_room Examples.finished)).
Defined.

(** * Leader and trailer of a tick *)

(** X20.  The scan over the players that opens the obstacle phase: with
    no player it yields 0, 0 and [hasPlayers = false]; otherwise
    [minWorldY] (the leader) is the least and [maxWorldY] (the trailer)
    the greatest worldY among the players, each attained by a player. *)
Theorem leader_and_trailer_are_the_extremes
    (players : list (string * Player.t)) :
  (players = [] -> world_bounds players = (0%Q, 0%Q, false))
  /\ (players <> [] ->
      snd (world_bounds players) = true
      /\ Forall (fun p => (leaderWorldY players <= Player.worldY p
                           /\ Player.worldY p <= trailerWorldY players)%Q)
           (Obj.values players)
      /\ Exists (fun p => (leaderWorldY players == Player.worldY p)%Q)
           (Obj.values players)
      /\ Exists (fun p => (trailerWorldY players == Player.worldY p)%Q)
           (Obj.values players)).
Proof.
  split.
  - intros ->. reflexivity.
  - intros Hne. now apply world_bounds_spec.
Qed.

Lemma leader_and_trailer_are_the_extremes_witness :
  let players := Room.players (Examples.the_room Examples.racing) in
  snd (world_bounds players) = true
  /\ Forall (fun p => (leaderWorldY players <= Player.worldY p
                       /\ Player.worldY p <= trailerWorldY players)%Q)
       (Obj.values players)
  /\ Exists (fun p => (leaderWorldY players == Player.worldY p)%Q)
       (Obj.values players)
  /\ Exists (fun p => (trailerWorldY players == Player.worldY p)%Q)
       (Obj.values players).
Proof.
  apply (proj2 (leader_and_trailer_are_the_extremes
                  (Room.players (Examples.the_room Examples.racing)))).
  vm_compute. discriminate.
Defined.

(** * Obstacles *)

Lemma obstacleX_zones zoneRoll u :
  (0 <= u)%Q -> (u <= 1)%Q ->
  ((zoneRoll < 0.25)%Q ->
   (0.02 <= obstacleX zoneRoll u /\ obstacleX zoneRoll u <= 0.25)%Q)
  /\ ((0.25 <= zoneRoll)%Q -> (zoneRoll < 0.5)%Q ->
      (0.75 <= obstacleX zoneRoll u /\ obstacleX zoneRoll u <= 0.98)%Q)
  /\ ((0.5 <= zoneRoll)%Q ->
      (0.25 <= obstacleX zoneRoll u /\ obstacleX zoneRoll u <= 0.75)%Q).
Proof.
  intros H0 H1. unfold obstacleX.
  destruct (Qltb zoneRoll 0.25) eqn:E1;
    [apply Qltb_lt in E1|apply Qltb_ge in E1];
    (destruct (Qltb zoneRoll 0.5) eqn:E2;
     [apply Qltb_lt in E2|apply Qltb_ge in E2]);
    repeat split; intros; lra.
Qed.

Lemma obstacleX_on_the_road zoneRoll u :
  (0 <= u)%Q -> (u <= 1)%Q -> on_the_road (obstacleX zoneRoll u).
Proof.
  intros H0 H1. unfold on_the_road, obstacleX.
  destruct (Qltb zoneRoll 0.25); [|destruct (Qltb zoneRoll 0.5)]; lra.
Qed.

(** The closed bounds do not depend on arithmetic being exact. *)
Section RoundedPosition.
Variable round : Q -> Q.
Hypothesis round_mono : forall x y, (x <= y)%Q -> (round x <= round y)%Q.
Hypothesis round_fix : Forall (fun c => (round c == c)%Q) zone_constants.

Lemma rounded_affine (u a b lo hi : Q) :
  (0 <= u)%Q -> (u <= 1)%Q -> (0 <= a)%Q ->
  (round 0 == 0)%Q -> (round a == a)%Q ->
  (round lo == lo)%Q -> (round hi == hi)%Q ->
  (lo == b)%Q -> (hi == a + b)%Q ->
  (lo <= round (round (u * a) + b) /\ round (round (u * a) + b) <= hi)%Q.
Proof.
  intros H0 H1 Ha F0 Fa Flo Fhi Hlo Hhi.
  assert (0 <= round (u * a) /\ round (u * a) <= a)%Q as [L U].
  { split.
    - apply Qle_trans with (round 0); [lra|]. apply round_mono. nra.
    - apply Qle_trans with (round a); [|lra]. apply round_mono. nra. }
  split.
  - apply Qle_trans with (round lo); [lra|]. apply round_mono. lra.
  - apply Qle_trans with (round hi); [|lra]. apply round_mono. lra.
Qed.

Lemma rounded_obstacleX_zones zoneRoll u :
  (0 <= u)%Q -> (u <= 1)%Q ->
  ((zoneRoll < 0.25)%Q ->
   (0.02 <= rounded_obstacleX round zoneRoll u
    /\ rounded_obstacleX round zoneRoll u <= 0.25)%Q)
  /\ ((0.25 <= zoneRoll)%Q -> (zoneRoll < 0.5)%Q ->
      (0.75 <= rounded_obstacleX round zoneRoll u
       /\ rounded_obstacleX round zoneRoll u <= 0.98)%Q)
  /\ ((0.5 <= zoneRoll)%Q ->
      (0.25 <= rounded_obstacleX round zoneRoll u
       /\ rounded_obstacleX round zoneRoll u <= 0.75)%Q).
Proof.
  intros H0 H1.
  pose proof round_fix as Hfix. unfold zone_constants in Hfix.
  repeat match goal with
         | H : Forall _ (_ :: _) |- _ =>
             apply Forall_cons in H as [? H]
         end.
  unfold rounded_obstacleX.
  destruct (Qltb zoneRoll 0.25) eqn:E1;
    [apply Qltb_lt in E1|apply Qltb_ge in E1];
    (destruct (Qltb zoneRoll 0.5) eqn:E2;
     [apply Qltb_lt in E2|apply Qltb_ge in E2]);
    (split; [|split]); intros;
    first [exfalso; lra
          |apply rounded_affine; auto; try reflexivity; lra].
Qed.
End RoundedPosition.

Section Spawned.
Variable P : Obstacle.t -> Prop.
Variable rnd : nat -> Q.
Hypothesis P_new :
  forall id j y,
    P (Obstacle.mk id (obstacleX (rnd j) (rnd (S j))) y
         (Qabs y / PIXELS_PER_METER)%Q).

Lemma spawn_loop_Forall thr fuel : forall k room,
  Forall P (Room.obstacles room) ->
  Forall P (Room.obstacles (fst (spawn_loop fuel rnd thr k room))).
Proof.
  induction fuel as [|fuel IH]; intros k room Hall; simpl; [done|].
  destruct (Qltb thr (Room.lastSpawnWorldY room)); [|done].
  apply IH. simpl. apply Forall_app. split; [done|].
  repeat constructor. apply P_new.
Qed.

Lemma tick_obstacles_Forall k room :
  Forall P (Room.obstacles room) ->
  Forall P (Room.obstacles (fst (tick_obstacles rnd k room))).
Proof.
  intros Hall. unfold tick_obstacles.
  destruct (world_bounds (Room.players room)) as [[mn mx] has].
  destruct (bool_decide (Room.raceState room = RACING)); [|done].
  match goal with
  | |- context [spawn_loop ?f rnd ?t k ?r] =>
      pose proof (spawn_loop_Forall t f k r) as Hloop;
      destruct (spawn_loop f rnd t k r) as [room2 k']
  end.
  simpl in *. apply Forall_forall. intros o Ho.
  apply list_elem_of_In, filter_In in Ho as [Ho _].
  assert (Hall2 : Forall P (Room.obstacles room2)).
  { apply Hloop. now destruct (_ && _). }
  rewrite Forall_forall in Hall2. apply Hall2. now apply list_elem_of_In.
Qed.

Lemma tick_room_Forall now k roomCode room :
  Forall P (Room.obstacles room) ->
  Forall P (Room.obstacles (fst (fst (tick_room now rnd k roomCode room)))).
Proof.
  intros Hall. rewrite tick_room_room.
  destruct (0 <? length (Room.members room))%nat; [|done].
  apply tick_obstacles_Forall.
  destruct (tick_racing_frame now (fst (tick_countdown now roomCode room)))
    as (_ & _ & -> & _).
  now destruct (tick_countdown_frame now roomCode room) as (_ & _ & -> & _).
Qed.
End Spawned.



Lemma obstacles_ok_ext r r' :
  Room.obstacles r' = Room.obstacles r ->
  Room.nextObstacleId r' = Room.nextObstacleId r ->
  obstacles_ok r -> obstacles_ok r'.
Proof. unfold obstacles_ok. now intros -> ->. Qed.

Lemma spawn_one_ok rnd k room :
  obstacles_ok room -> obstacles_ok (spawn_one rnd k room).
Proof.
  intros (Hs & Hlt & Hd). unfold obstacles_ok. simpl.
  split; [|split].
  - rewrite map_app. simpl.
    apply StronglySorted_app_2; [|exact Hs|repeat constructor].
    intros a b Ha Hb. apply list_elem_of_singleton in Hb as ->.
    apply list_elem_of_fmap in Ha as (o & -> & Ho).
    rewrite Forall_forall in Hlt. now apply Hlt.
  - apply Forall_app. split; [|repeat constructor].
    eapply Forall_impl; [exact Hlt|]. intros o Ho. simpl in Ho. lia.
  - apply Forall_app. split; [done|]. repeat constructor.
Qed.

Lemma spawn_loop_ok rnd thr fuel : forall k room,
  obstacles_ok room -> obstacles_ok (fst (spawn_loop fuel rnd thr k room)).
Proof.
  induction fuel as [|fuel IH]; intros k room Hok; simpl; [done|].
  destruct (Qltb thr (Room.lastSpawnWorldY room)); [|done].
  apply IH. now apply spawn_one_ok.
Qed.

Lemma StronglySorted_map_filter {A} (f : A -> nat) (g : A -> bool) l :
  StronglySorted lt (map f l) -> StronglySorted lt (map f (List.filter g l)).
Proof.
  induction l as [|a l IH]; simpl; [done|].
  intros Hs. apply StronglySorted_inv in Hs as [Hs Ha].
  destruct (g a); simpl; [|auto].
  constructor; [auto|].
  apply Forall_forall. intros b Hb.
  apply list_elem_of_fmap in Hb as (x & -> & Hx).
  apply list_elem_of_In, filter_In in Hx as [Hx _].
  rewrite Forall_forall in Ha. apply Ha.
  apply list_elem_of_fmap. exists x. split; [done|now apply list_elem_of_In].
Qed.

Lemma Forall_filter_keep {A} (P : A -> Prop) (g : A -> bool) l :
  Forall P l -> Forall P (List.filter g l).
Proof.
  intros Hall. apply Forall_forall. intros x Hx.
  apply list_elem_of_In, filter_In in Hx as [Hx _].
  rewrite Forall_forall in Hall. apply Hall. now apply list_elem_of_In.
Qed.

Lemma despawn_ok maxWorldY room :
  obstacles_ok room -> obstacles_ok (despawn maxWorldY room).
Proof.
  intros (Hs & Hlt & Hd). unfold obstacles_ok, despawn. simpl.
  split; [now apply StronglySorted_map_filter|].
  split; now apply Forall_filter_keep.
Qed.

Lemma tick_obstacles_ok rnd k room :
  obstacles_ok room -> obstacles_ok (fst (tick_obstacles rnd k room)).
Proof.
  intros Hok. unfold tick_obstacles.
  destruct (world_bounds (Room.players room)) as [[mn mx] has].
  destruct (bool_decide (Room.raceState room = RACING)); [|done].
  match goal with
  | |- context [spawn_loop ?f rnd ?t k ?r] =>
      pose proof (spawn_loop_ok rnd t f k r) as Hloop;
      destruct (spawn_loop f rnd t k r) as [room2 k']
  end.
  simpl in *. apply despawn_ok, Hloop.
  destruct (_ && _); [|done].
  eapply obstacles_ok_ext; [| |exact Hok]; reflexivity.
Qed.

Lemma tick_room_ok now rnd k roomCode room :
  obstacles_ok room ->
  obstacles_ok (fst (fst (tick_room now rnd k roomCode room))).
Proof.
  intros Hok. rewrite tick_room_room.
  destruct (0 <? length (Room.members room))%nat; [|done].
  apply tick_obstacles_ok.
  set (room1 := fst (tick_countdown now roomCode room)).
  destruct (tick_racing_frame now room1) as (_ & _ & Ho2 & Hn2 & _).
  destruct (tick_countdown_frame now roomCode room)
    as (_ & _ & Ho1 & Hn1 & _).
  fold room1 in Ho1, Hn1.
  eapply obstacles_ok_ext; [| |exact Hok]; congruence.
Qed.

(** X22.  The obstacles of every room of every reachable world carry
    pairwise different ids, growing along the list and all below
    [nextObstacleId], and the [distance] of each is its [|worldY|] in
    metres. *)
Theorem obstacle_ids_are_unique (w : World) (roomCode : string)
    (room : Room.t) :
  reachable w -> room_at roomCode w = Some room ->
  NoDup (map Obstacle.id (Room.obstacles room))
  /\ StronglySorted lt (map Obstacle.id (Room.obstacles room))
  /\ Forall (fun o => (Obstacle.id o < Room.nextObstacleId room)%nat)
       (Room.obstacles room)
  /\ Forall (fun o => (Obstacle.distance o
                       == Qabs (Obstacle.worldY o) / PIXELS_PER_METER)%Q)
       (Room.obstacles room).
Proof.
  intros Hw Hat.
  assert (Hok : obstacles_ok room).
  { revert roomCode room Hat.
    apply (reachable_rooms obstacles_ok); [| |exact Hw].
    - intros now sid name. repeat constructor.
    - intros now roomCode room i room' fin Hok Hs.
      destruct Hs; subst;
        try (eapply obstacles_ok_ext; [| |exact Hok]; reflexivity).
      + repeat constructor.
      + now apply tick_room_ok. }
  destruct Hok as (Hs & Hlt & Hd). repeat split; try done.
  clear -Hs. induction Hs as [|a l Hs IH Ha]; constructor; [|done].
  intros Hin. rewrite Forall_forall in Ha. specialize (Ha a Hin). lia.
Qed.

Lemma obstacle_ids_are_unique_witness :
  let room := Examples.the_room Examples.racing in
  NoDup (map Obstacle.id (Room.obstacles room))
  /\ StronglySorted lt (map Obstacle.id (Room.obstacles room))
  /\ Forall (fun o => (Obstacle.id o < Room.nextObstacleId room)%nat)
       (Room.obstacles room)
  /\ Forall (fun o => (Obstacle.distance o
                       == Qabs (Obstacle.worldY o) / PIXELS_PER_METER)%Q)
       (Room.obstacles room).
Proof.
  apply (obstacle_ids_are_unique Examples.racing "ABCD");
    [apply racing_reachable|vm_compute; reflexivity].
Defined.

(** * Colours and grid slots *)

(** X23.  [getPlayerColor] always yields a colour of the palette (never
    [undefined]); the palette repeats every eight indices, and two
    indices get the same colour only if they differ by a multiple of
    eight. *)
Theorem player_colours_cycle (index : nat) :
  getPlayerColor index ∈ playerColors
  /\ getPlayerColor (index + 8) = getPlayerColor index
  /\ forall other,
      getPlayerColor index = getPlayerColor other ->
      (index mod 8 = other mod 8)%nat.
Proof.
  assert (Hlen : length playerColors = 8%nat) by reflexivity.
  assert (Hnd : List.NoDup playerColors).
  { apply NoDup_ListNoDup. vm_compute.
    repeat (apply NoDup_cons; split;
            [rewrite ?elem_of_cons, elem_of_nil; intros H;
             repeat (destruct H as [H|H]); discriminate || done|]).
    apply NoDup_nil_2. }
  unfold getPlayerColor. rewrite Hlen. split; [|split].
  - apply list_elem_of_In, nth_In. rewrite Hlen.
    apply Nat.mod_upper_bound. lia.
  - f_equal. rewrite <- (Nat.mul_1_l 8) at 1.
    now rewrite Nat.Div0.mod_add.
  - intros other Heq.
    apply (proj1 (List.NoDup_nth playerColors "") Hnd); [| |exact Heq];
      rewrite Hlen; apply Nat.mod_upper_bound; lia.
Qed.

Lemma player_colours_cycle_witness :
  getPlayerColor 9 ∈ playerColors
  /\ getPlayerColor (9 + 8) = getPlayerColor 9
  /\ forall other,
      getPlayerColor 9 = getPlayerColor other ->
      (9 mod 8 = other mod 8)%nat.
Proof. exact (player_colours_cycle 9). Defined.

Lemma grid_slot_injective i j :
  (startX i == startX j)%Q -> (startWorldY i == startWorldY j)%Q -> i = j.
Proof.
  unfold startX, startWorldY, gridCol, gridRow. intros Hx Hy.
  assert (Hrow : (i / 2 = j / 2)%nat).
  { assert (H : (inject_Z (Z.of_nat (i / 2)) == inject_Z (Z.of_nat (j / 2)))%Q)
      by lra.
    unfold Qeq in H. simpl in H. rewrite !Z.mul_1_r in H.
    now apply Nat2Z.inj in H. }
  assert (Hcol : (i mod 2 = j mod 2)%nat).
  { destruct (Nat.eqb_spec (i mod 2) 0) as [Hi|Hi];
      destruct (Nat.eqb_spec (j mod 2) 0) as [Hj|Hj]; try lia;
      try (exfalso; revert Hx; unfold Qeq; simpl; lia).
    pose proof (Nat.mod_upper_bound i 2). pose proof (Nat.mod_upper_bound j 2).
    lia. }
  rewrite (Nat.div_mod_eq i 2), (Nat.div_mod_eq j 2). lia.
Qed.

(** X24.  The starting grid has two cars per row, rows 60 px apart, at
    x 0.35 (even indices) and 0.65 (odd indices), and no two grid indices
    share a slot.  After a restart the n-th player in enumeration order
    stands on slot n, so no two players of the room start from the same
    place. *)
Theorem restart_puts_every_player_on_its_own_slot (now : Z) (room : Room.t)
    (i j : nat) (idi idj : string) (pi pj : Player.t) :
  Room.players (restart_room now room) !! i = Some (idi, pi) ->
  Room.players (restart_room now room) !! j = Some (idj, pj) ->
  ((i mod 2 = 0)%nat -> (Player.x pi == 0.35)%Q)
  /\ ((i mod 2 = 1)%nat -> (Player.x pi == 0.65)%Q)
  /\ (Player.worldY pi == inject_Z (Z.of_nat (i / 2)) * 60)%Q
  /\ Player.gridPosition pi = S i
  /\ ((Player.x pi == Player.x pj)%Q ->
      (Player.worldY pi == Player.worldY pj)%Q -> i = j).
Proof.
  simpl. rewrite !reset_players_lookup. simpl.
  destruct (Room.players room !! i) as [[ki qi]|]; [|done].
  destruct (Room.players room !! j) as [[kj qj]|]; [|done].
  simpl. intros [= <- <-] [= <- <-]. simpl.
  split; [|split; [|split; [reflexivity|split]]].
  - intros Hcol. change (i mod 2 = 0)%nat in Hcol.
    change (startX i == 0.35)%Q. unfold startX, gridCol. now rewrite Hcol.
  - intros Hcol. change (i mod 2 = 1)%nat in Hcol.
    change (startX i == 0.65)%Q. unfold startX, gridCol. now rewrite Hcol.
  - lia.
  - apply grid_slot_injective.
Qed.

Lemma restart_puts_every_player_on_its_own_slot_witness :
  let room := Examples.the_room Examples.racing in
  let pa := reset_player 0 (default (new_player "" 0)
                              (Examples.the_player "a" Examples.racing)) in
  let pb := reset_player 1 (default (new_player "" 0)
                              (Examples.the_player "b" Examples.racing)) in
  ((0 mod 2 = 0)%nat -> (Player.x pa == 0.35)%Q)
  /\ ((0 mod 2 = 1)%nat -> (Player.x pa == 0.65)%Q)
  /\ (Player.worldY pa == inject_Z (Z.of_nat (0 / 2)) * 60)%Q
  /\ Player.gridPosition pa = 1%nat
  /\ ((Player.x pa == Player.x pb)%Q ->
      (Player.worldY pa == Player.worldY pb)%Q -> 0%nat = 1%nat).
Proof.
  apply (restart_puts_every_player_on_its_own_slot 5000
           (Examples.the_room Examples.racing) 0 1 "a" "b").
  - vm_compute. reflexivity.
  - vm_compute. reflexivity.
Defined.

(** * Accepted joins *)

(** X25.  A join-room with a room code and a name.  When no room is
    stored under the code and the code names a property of
    [Object.prototype] ("constructor", "toString", "__proto__", ...), the
    listener throws after it has stored the code and the name on the
    socket: no room is created and nothing is sent.  Otherwise the first
    join to a room code creates the room, waiting, with the defaults, and
    makes the sender its creator; the new code is placed in the table
    where [for..in] enumerates it, after the array indices not above it
    if it is an array index and last if it is not.  A join to an existing
    room is accepted while the room is waiting or finished.  Either way
    the sender is appended to [members], gets a fresh unfinished player
    on the grid slot of its member index (replacing the player it had, if
    it joins again), every other player is kept, the race state is not
    touched, the sender's socket is attached to the room, and the player
    count announced to the sender and to the others is the number of
    players, with [canStart] telling whether it is at least two. *)
Theorem accepted_join_adds_the_sender (now : Z) (sid roomCode name : string)
    (w : World) :
  truthy_str roomCode = true -> truthy_str name = true ->
  (room_at roomCode w = None -> inherited roomCode = true ->
   handle now (JoinRoom sid roomCode name) w
   = Threw (mkWorld (rooms w) (<[sid := Socket.mk roomCode name]> (socks w)))
       [])
  /\ (let room :=
        match room_at roomCode w with
        | Some room => room
        | None => new_room now sid
        end in
      race_in_progress room = false ->
      (room_at roomCode w = None -> inherited roomCode = false) ->
      exists room' w',
        handle now (JoinRoom sid roomCode name) w
        = Done w'
            [mkEmit (ToSocket sid)
               (EvJoined roomCode name (Room.members room') sid
                  (getPlayerColor (length (Room.members room)))
                  (is_creator sid room) 0
                  (Room.raceState room) (Room.raceDistance room)
                  (2 <=? length (Obj.keys (Room.players room')))%nat 2
                  (length (Obj.keys (Room.players room'))));
             mkEmit (ToRoomExcept roomCode sid)
               (EvUserJoined name (Room.members room')
                  (length (Obj.keys (Room.players room')))
                  (2 <=? length (Obj.keys (Room.players room')))%nat)]
        /\ room_at roomCode w' = Some room'
        /\ socks w' = <[sid := Socket.mk roomCode name]> (socks w)
        /\ Room.members room' = Room.members room ++ [Member.mk sid name]
        /\ Obj.get sid (Room.players room')
           = Some (new_player name (length (Room.members room)))
        /\ (forall id, id <> sid ->
              Obj.get id (Room.players room')
              = Obj.get id (Room.players room))
        /\ Room.raceState room' = Room.raceState room
        /\ Room.creatorId room' = Room.creatorId room
        /\ (room_at roomCode w = None ->
            Room.creatorId room' = sid
            /\ Room.raceState room' = WAITING
            /\ Room.raceDistance room' = DEFAULT_RACE_DISTANCE
            /\ Room.members room' = [Member.mk sid name]
            /\ exists l1 l2,
                Obj.keys (rooms w) = l1 ++ l2
                /\ Obj.keys (rooms w') = l1 ++ roomCode :: l2
                /\ placed roomCode l1 l2)).
Proof.
  intros Hcode Hname.
  cbn [handle]. rewrite on_join_room_cases. rewrite Hcode, Hname.
  cbn [negb orb]. cbv zeta. unfold room_at.
  split.
  { intros -> ->. reflexivity. }
  intros Hprog Hinh.
  assert (Hidx : forall r,
             (length (Room.members r ++ [Member.mk sid name]) - 1
              = length (Room.members r))%nat)
    by (intros r; rewrite length_app; simpl; lia).
  destruct (Obj.get roomCode (rooms w)) as [r|] eqn:Hget.
  - rewrite Hprog. exists (joined_room sid name r). eexists. split.
    + unfold joined_emits, joined_room, is_creator. simpl.
      rewrite Hidx. reflexivity.
    + cbn [rooms socks]. rewrite get_set_eq.
      unfold joined_room. simpl. rewrite get_set_eq, Hidx.
      do 4 (split; [done|]).
      split; [intros id Hne; apply get_set_ne; congruence|].
      do 2 (split; [done|]). intros Hn. discriminate Hn.
  - rewrite (Hinh eq_refl).
    exists (joined_room sid name (new_room now sid)). eexists. split.
    + unfold joined_emits, joined_room, is_creator. simpl. reflexivity.
    + cbn [rooms socks]. rewrite get_add_eq by done.
      unfold joined_room. simpl. rewrite String.eqb_refl.
      do 4 (split; [done|]).
      split; [intros id Hne; now rewrite (proj2 (String.eqb_neq id sid) Hne)|].
      do 2 (split; [done|]). intros _. do 4 (split; [done|]).
      apply keys_add_split.
Qed.

Lemma accepted_join_adds_the_sender_witness :
  handle 2000 (JoinRoom "c" "constructor" "Cyd") Examples.lobby
  = Threw (mkWorld (rooms Examples.lobby)
             (<["c" := Socket.mk "constructor" "Cyd"]>
                (socks Examples.lobby))) []
  /\ exists room' w',
      handle 2000 (JoinRoom "c" "42" "Cyd") Examples.lobby
      = Done w'
          [mkEmit (ToSocket "c")
             (EvJoined "42" "Cyd" (Room.members room') "c"
                (getPlayerColor 0) true 0 WAITING DEFAULT_RACE_DISTANCE
                (2 <=? length (Obj.keys (Room.players room')))%nat 2
                (length (Obj.keys (Room.players room'))));
           mkEmit (ToRoomExcept "42" "c")
             (EvUserJoined "Cyd" (Room.members room')
                (length (Obj.keys (Room.players room')))
                (2 <=? length (Obj.keys (Room.players room')))%nat)]
      /\ room_at "42" w' = Some room'
      /\ socks w' = <["c" := Socket.mk "42" "Cyd"]> (socks Examples.lobby)
      /\ Room.members room' = [] ++ [Member.mk "c" "Cyd"]
      /\ Obj.get "c" (Room.players room') = Some (new_player "Cyd" 0)
      /\ (forall id, id <> "c" -> Obj.get id (Room.players room') = None)
      /\ Room.raceState room' = WAITING
      /\ Room.creatorId room' = "c"
      /\ (room_at "42" Examples.lobby = None ->
          Room.creatorId room' = "c"
          /\ Room.raceState room' = WAITING
          /\ Room.raceDistance room' = DEFAULT_RACE_DISTANCE
          /\ Room.members room' = [Member.mk "c" "Cyd"]
          /\ exists l1 l2,
              Obj.keys (rooms Examples.lobby) = l1 ++ l2
              /\ Obj.keys (rooms w') = l1 ++ "42" :: l2
              /\ placed "42" l1 l2).
Proof.
  split.
  - apply (proj1 (accepted_join_adds_the_sender 2000 "c" "constructor" "Cyd"
                    Examples.lobby eq_refl eq_refl)); reflexivity.
  - apply (proj2 (accepted_join_adds_the_sender 2000 "c" "42" "Cyd"
                    Examples.lobby eq_refl eq_refl)); reflexivity.
Defined.

(** * Leaving *)

(** X26.  The disconnect of a socket attached to an existing room.  The
    socket's entry in [members] (every copy of it) and its player are
    removed, all other members and players are kept, and the race state,
    the creator and [finishOrder] -- which may still list the leaver --
    are left as they were.  user-left, with the remaining members, is
    sent to the room; the attributes of the socket are dropped.  The room
    is deleted exactly when no member is left. *)
Theorem disconnect_removes_the_sender (now : Z) (sid : string)
    (s : Socket.t) (room : Room.t) (w : World) :
  reachable w ->
  socks w !! sid = Some s ->
  room_at (Socket.roomCode s) w = Some room ->
  let roomCode := Socket.roomCode s in
  let w' := outcome_world (handle now (Disconnect sid) w) in
  let rest := left_room sid room in
  outcome_emits (handle now (Disconnect sid) w)
  = [mkEmit (ToRoom roomCode)
       (EvUserLeft (Socket.userName s) (Room.members rest))]
  /\ socks w' = delete sid (socks w)
  /\ (sid ∉ member_ids rest)
  /\ Obj.get sid (Room.players rest) = None
  /\ (forall id, id <> sid ->
        (id ∈ member_ids rest <-> id ∈ member_ids room)
        /\ Obj.get id (Room.players rest) = Obj.get id (Room.players room))
  /\ Room.raceState rest = Room.raceState room
  /\ Room.creatorId rest = Room.creatorId room
  /\ Room.finishOrder rest = Room.finishOrder room
  /\ (Room.members rest = [] -> room_at roomCode w' = None)
  /\ (Room.members rest <> [] -> room_at roomCode w' = Some rest).
Proof.
  intros Hw Hs Hat. cbv zeta.
  pose proof (reachable_players_NoDup w _ room Hw Hat) as Hnd.
  pose proof (reachable_NoDup w Hw) as Hrooms.
  cbn [handle]. unfold on_disconnect, room_at in *. rewrite Hs, Hat.
  split; [now destruct (_ =? _)%nat|].
  split; [now destruct (_ =? _)%nat|].
  split; [rewrite member_ids_left; tauto|].
  split; [now apply get_del_eq|].
  split.
  { intros id Hne. split.
    - rewrite member_ids_left. tauto.
    - simpl. apply get_del_ne. congruence. }
  do 3 (split; [done|]).
  destruct (length (Room.members (left_room sid room)) =? 0)%nat eqn:Hlen;
    unfold done; cbn [outcome_world fst rooms].
  - split; [intros _; now apply get_del_eq|].
    intros Hne. apply Nat.eqb_eq in Hlen.
    now destruct (Room.members (left_room sid room)).
  - split; [|intros _; apply get_set_eq].
    intros Hnil. rewrite Hnil in Hlen. discriminate.
Qed.

Lemma disconnect_removes_the_sender_witness :
  let s := Socket.mk "ABCD" "Bob" in
  let room := Examples.the_room Examples.racing in
  let w' := outcome_world (handle 5000 (Disconnect "b") Examples.racing) in
  let rest := left_room "b" room in
  outcome_emits (handle 5000 (Disconnect "b") Examples.racing)
  = [mkEmit (ToRoom "ABCD") (EvUserLeft "Bob" (Room.members rest))]
  /\ socks w' = delete "b" (socks Examples.racing)
  /\ ("b" ∉ member_ids rest)
  /\ Obj.get "b" (Room.players rest) = None
  /\ (forall id, id <> "b" ->
        (id ∈ member_ids rest <-> id ∈ member_ids room)
        /\ Obj.get id (Room.players rest) = Obj.get id (Room.players room))
  /\ Room.raceState rest = Room.raceState room
  /\ Room.creatorId rest = Room.creatorId room
  /\ Room.finishOrder rest = Room.finishOrder room
  /\ (Room.members rest = [] -> room_at "ABCD" w' = None)
  /\ (Room.members rest <> [] -> room_at "ABCD" w' = Some rest).
Proof.
  apply (disconnect_removes_the_sender 5000 "b" (Socket.mk "ABCD" "Bob")
           (Examples.the_room Examples.racing) Examples.racing).
  - apply racing_reachable.
  - vm_compute. reflexivity.
  - vm_compute. reflexivity.
Defined.

(** * Join and leave *)

Section ObjRoundTrip.
Context {V : Type}.
Implicit Types (o : list (string * V)) (k : string) (v : V).

Lemma del_absent k o : k ∉ Obj.keys o -> Obj.del k o = o.
Proof.
  induction o as [|[k1 v1] o IH]; simpl; [done|].
  intros Hnin. apply not_elem_of_cons in Hnin as [Hne Hnin].
  rewrite (proj2 (String.eqb_neq k k1) Hne). now rewrite IH.
Qed.

Lemma del_set_absent k v o : k ∉ Obj.keys o -> Obj.del k (Obj.set k v o) = o.
Proof.
  induction o as [|[k1 v1] o IH]; simpl.
  - intros _. now rewrite String.eqb_refl.
  - intros Hnin. apply not_elem_of_cons in Hnin as [Hne Hnin].
    rewrite (proj2 (String.eqb_neq k k1) Hne). simpl.
    rewrite (proj2 (String.eqb_neq k k1) Hne). now rewrite IH.
Qed.

Lemma set_get_same k v o : Obj.get k o = Some v -> Obj.set k v o = o.
Proof.
  induction o as [|[k1 v1] o IH]; simpl; [done|].
  destruct (String.eqb_spec k k1) as [->|Hne].
  - now intros [= ->].
  - intros Hg. now rewrite IH.
Qed.

Lemma set_set k v v' o : Obj.set k v (Obj.set k v' o) = Obj.set k v o.
Proof.
  induction o as [|[k1 v1] o IH]; simpl.
  - now rewrite String.eqb_refl.
  - destruct (String.eqb_spec k k1) as [->|Hne]; simpl.
    + now rewrite String.eqb_refl.
    + rewrite (proj2 (String.eqb_neq k k1) Hne). now rewrite IH.
Qed.

Lemma get_None_not_key k o : Obj.get k o = None -> k ∉ Obj.keys o.
Proof.
  intros Hg Hin. apply keys_get in Hin as [v Hv]. congruence.
Qed.
End ObjRoundTrip.

Lemma left_room_stranger sid room :
  (sid ∉ member_ids room) -> (sid ∉ Obj.keys (Room.players room)) ->
  left_room sid room = room.
Proof.
  intros Hm Hp. unfold left_room. rewrite (del_absent _ _ Hp).
  destruct room as [members players ? ? ? ? ? ? ? ? ? ? ? ? ? ? ? ?].
  unfold Room.set_players, Room.set_members. simpl in *. f_equal.
  unfold member_ids in Hm. simpl in Hm. clear -Hm.
  induction members as [|m ms IH]; simpl; [done|].
  apply not_elem_of_cons in Hm as [Hne Hm]. simpl in *.
  rewrite (proj2 (String.eqb_neq (Member.id m) sid)) by congruence.
  simpl. now rewrite IH.
Qed.

Lemma left_room_joined sid name room :
  (sid ∉ member_ids room) -> (sid ∉ Obj.keys (Room.players room)) ->
  left_room sid (joined_room sid name room) = room.
Proof.
  intros Hm Hp. unfold left_room, joined_room.
  destruct room as [members players ? ? ? ? ? ? ? ? ? ? ? ? ? ? ? ?].
  unfold Room.set_players, Room.set_members. simpl in *.
  rewrite (del_set_absent _ _ _ Hp). f_equal.
  unfold member_ids in Hm. simpl in Hm. clear -Hm.
  induction members as [|m ms IH]; simpl.
  - now rewrite String.eqb_refl.
  - apply not_elem_of_cons in Hm as [Hne Hm]. simpl in *.
    rewrite (proj2 (String.eqb_neq (Member.id m) sid)) by congruence.
    simpl. now rewrite IH.
Qed.

(** X27.  Joining and leaving undo each other.  When a socket that is
    not yet known to the server sends a join-room that does not throw
    (the code is stored as a room or names no property of
    [Object.prototype]) and then disconnects, the server is back in the
    state it was in before the join: a room the join created is deleted
    again and the table has its codes back in the order they had, an
    existing room has its members and players back as they were, and a
    refused join leaves no trace either. *)
Theorem join_then_leave_restores_the_world (now now' : Z)
    (sid roomCode name : string) (w : World) :
  reachable w ->
  socks w !! sid = None ->
  (forall room, room_at roomCode w = Some room -> sid ∉ member_ids room) ->
  (room_at roomCode w = None -> inherited roomCode = false) ->
  exists w1 out1,
    handle now (JoinRoom sid roomCode name) w = Done w1 out1
    /\ outcome_world (handle now' (Disconnect sid) w1) = w.
Proof.
  intros Hw Hsock Hfresh Hinh.
  assert (Hsocks : delete sid (<[sid := Socket.mk roomCode name]> (socks w))
                   = socks w)
    by now apply delete_insert_id.
  destruct w as [rs ss]. cbn [socks rooms] in *.
  cbn [handle]. rewrite on_join_room_cases. cbv zeta. cbn [socks rooms].
  unfold room_at in Hinh. cbn [rooms] in Hinh.
  destruct (negb (truthy_str roomCode) || negb (truthy_str name)).
  { do 2 eexists. split; [reflexivity|]. cbn [handle]; unfold done, on_disconnect.
    cbn [socks]. rewrite Hsock. reflexivity. }
  destruct (Obj.get roomCode rs) as [room|] eqn:Hget.
  - pose proof (Hfresh room Hget) as Hm.
    destruct (reachable_member_keys (mkWorld rs ss) roomCode room Hw Hget)
      as [_ Hiff].
    assert (Hp : sid ∉ Obj.keys (Room.players room))
      by (intros Hin; now apply Hm, Hiff).
    pose proof (reachable_members (mkWorld rs ss) roomCode room Hw Hget)
      as Hne.
    destruct (race_in_progress room); do 2 eexists;
      (split; [reflexivity|]); cbn [handle]; unfold done, on_disconnect;
      cbn [socks rooms Socket.roomCode]; rewrite lookup_insert_eq;
      cbn [Socket.roomCode].
    + rewrite Hget, (left_room_stranger _ _ Hm Hp).
      destruct (Room.members room) as [|m ms]; [done|]. simpl.
      now rewrite (set_get_same _ _ _ Hget), Hsocks.
    + rewrite get_set_eq, (left_room_joined _ _ _ Hm Hp).
      destruct (Room.members room) as [|m ms]; [done|]. simpl.
      now rewrite set_set, (set_get_same _ _ _ Hget), Hsocks.
  - rewrite (Hinh eq_refl). do 2 eexists. split; [reflexivity|].
    cbn [handle]; unfold done, on_disconnect.
    cbn [socks rooms Socket.roomCode]. rewrite lookup_insert_eq.
    cbn [Socket.roomCode]. rewrite get_add_eq by done.
    rewrite left_room_joined by (simpl; apply not_elem_of_nil).
    simpl. rewrite del_add, Hsocks by done. reflexivity.
Qed.

Lemma join_then_leave_restores_the_world_witness :
  exists w1 out1,
    handle 2000 (JoinRoom "c" "42" "Cyd") Examples.lobby = Done w1 out1
    /\ outcome_world (handle 3000 (Disconnect "c") w1) = Examples.lobby.
Proof.
  apply (join_then_leave_restores_the_world 2000 3000 "c" "42" "Cyd"
           Examples.lobby).
  - apply lobby_reachable.
  - vm_compute. reflexivity.
  - intros room Hat. vm_compute in Hat. discriminate Hat.
  - reflexivity.
Defined.

(** * Codes that name inherited properties *)

(** X30.  As long as no listener has thrown, no room is stored under a
    code that names a property of [Object.prototype], and the code stored
    on a socket is not empty and names none either: the listeners other
    than join-room, which look up [rooms[socket.roomCode]], find a room
    of the table or nothing, never an inherited function. *)
Theorem stored_codes_name_no_inherited_property (w : World) :
  reachable w ->
  (forall code room, room_at code w = Some room -> inherited code = false)
  /\ (forall sid s,
         socks w !! sid = Some s ->
         truthy_str (Socket.roomCode s) = true
         /\ inherited (Socket.roomCode s) = false).
Proof.
  intros Hw. split.
  - intros code room Hat. destruct (reachable_table w Hw) as [_ Hall].
    rewrite Forall_forall in Hall. apply Hall.
    unfold room_at in Hat. eapply get_Some_keys, Hat.
  - intros sid s Hs. now apply (reachable_socket_codes w sid s Hw).
Qed.

Lemma stored_codes_name_no_inherited_property_witness :
  (forall code room,
      room_at code Cases.numbered_rooms = Some room -> inherited code = false)
  /\ (forall sid s,
         socks Cases.numbered_rooms !! sid = Some s ->
         truthy_str (Socket.roomCode s) = true
         /\ inherited (Socket.roomCode s) = false).
Proof.
  apply (stored_codes_name_no_inherited_property Cases.numbered_rooms).
  apply numbered_rooms_reachable.
Defined.

(** * What the client shows of a result *)

Lemma below_100 (P : Z -> bool) :
  forallb P (map Z.of_nat (seq 0 100)) = true ->
  forall v, 0 <= v < 100 -> P v = true.
Proof.
  intros Hall v Hv. rewrite forallb_forall in Hall. apply Hall.
  apply in_map_iff. exists (Z.to_nat v). split; [lia|].
  apply in_seq. lia.
Qed.

(** X28.  [getOrdinal] writes a finishing position as an English ordinal:
    for every position (an integer from 0 up to [Number.MAX_SAFE_INTEGER])
    it yields the decimal numeral followed by "st", "nd" or "rd" when the
    last digit is 1, 2 or 3 and the last two digits are not 11, 12 or 13,
    and by "th" otherwise. *)
Theorem getOrdinal_is_the_english_ordinal (n : Z) :
  0 <= n <= Client.MAX_SAFE_INTEGER ->
  Client.getOrdinal n = pretty n +:+ ordinal_suffix n.
Proof.
  intros [Hn _]. unfold Client.getOrdinal. cbv zeta. f_equal.
  rewrite (Z.rem_mod_nonneg n 100) by lia.
  assert (Hv : 0 <= n mod 100 < 100) by (apply Z.mod_pos_bound; lia).
  assert (H10 : n mod 10 = (n mod 100) mod 10)
    by (Z.div_mod_to_equations; lia).
  unfold ordinal_suffix. rewrite H10. clear H10.
  generalize dependent (n mod 100). clear. intros v Hv.
  apply String.eqb_eq.
  apply (below_100
           (fun v =>
              String.eqb
                (default ""
                   (Client.or_else
                      (Client.or_else
                         (Client.at_index ["th"; "st"; "nd"; "rd"]
                            (Z.rem (v - 20) 10))
                         (Client.at_index ["th"; "st"; "nd"; "rd"] v))
                      (Client.at_index ["th"; "st"; "nd"; "rd"] 0)))
                (if (v =? 11) || (v =? 12) || (v =? 13) then "th"
                 else if v mod 10 =? 1 then "st"
                 else if v mod 10 =? 2 then "nd"
                 else if v mod 10 =? 3 then "rd"
                 else "th"))); [|exact Hv].
  vm_compute. reflexivity.
Qed.

Lemma getOrdinal_is_the_english_ordinal_witness :
  Client.getOrdinal 22 = "22nd" /\ Client.getOrdinal 113 = "113th".
Proof.
  split.
  - rewrite (getOrdinal_is_the_english_ordinal 22); [reflexivity|].
    unfold Client.MAX_SAFE_INTEGER. lia.
  - rewrite (getOrdinal_is_the_english_ordinal 113); [reflexivity|].
    unfold Client.MAX_SAFE_INTEGER. lia.
Defined.

Lemma string_length_append s1 s2 :
  String.length (s1 +:+ s2) = (String.length s1 + String.length s2)%nat.
Proof. induction s1 as [|a s1 IH]; simpl; [done|]. now rewrite IH. Qed.

(** X29.  [formatTime] shows a time in milliseconds (an integer from 0
    up to [Number.MAX_SAFE_INTEGER]) as minutes, seconds and hundredths
    of a second (the field the code calls [millis]), cut off, not
    rounded: the three numbers are within their ranges and stand for a
    time at most 9 ms before the one given.  Each is padded to two
    digits, so seconds and hundredths always take two characters, and
    below 100 minutes the text has the shape mm:ss.cc. *)
Theorem formatTime_shows_minutes_seconds_hundredths (ms : Z) :
  0 <= ms <= Client.MAX_SAFE_INTEGER ->
  exists m s c,
    Client.formatTime ms
    = Client.padStart 2 "0" (pretty m) +:+ ":"
      +:+ Client.padStart 2 "0" (pretty s) +:+ "."
      +:+ Client.padStart 2 "0" (pretty c)
    /\ 0 <= m /\ 0 <= s < 60 /\ 0 <= c < 100
    /\ m * 60000 + s * 1000 + c * 10 <= ms
       < m * 60000 + s * 1000 + c * 10 + 10
    /\ String.length (Client.padStart 2 "0" (pretty s)) = 2%nat
    /\ String.length (Client.padStart 2 "0" (pretty c)) = 2%nat
    /\ (ms < 6000000 -> String.length (Client.formatTime ms) = 8%nat).
Proof.
  intros [Hms _].
  assert (Htwo : forall v, 0 <= v < 100 ->
            String.length (Client.padStart 2 "0" (pretty v)) = 2%nat).
  { intros v Hv. apply Nat.eqb_eq.
    apply (below_100
             (fun v =>
                (String.length (Client.padStart 2 "0" (pretty v)) =? 2)%nat));
      [|exact Hv].
    vm_compute. reflexivity. }
  unfold Client.formatTime. cbv zeta.
  rewrite (Z.rem_mod_nonneg (ms / 1000) 60), (Z.rem_mod_nonneg ms 1000)
    by (try apply Z.div_pos; lia).
  set (m := ms / 1000 / 60). set (s := (ms / 1000) mod 60).
  set (c := ms mod 1000 / 10).
  assert (Hm : 0 <= m) by (unfold m; Z.div_mod_to_equations; lia).
  assert (Hs : 0 <= s < 60) by (unfold s; Z.div_mod_to_equations; lia).
  assert (Hc : 0 <= c < 100) by (unfold c; Z.div_mod_to_equations; lia).
  exists m, s, c. split; [reflexivity|].
  split; [exact Hm|]. split; [exact Hs|]. split; [exact Hc|].
  split; [unfold m, s, c; Z.div_mod_to_equations; lia|].
  split; [apply Htwo; lia|]. split; [apply Htwo; exact Hc|].
  intros Hlt.
  assert (Hm' : 0 <= m < 100) by (unfold m; Z.div_mod_to_equations; lia).
  rewrite !string_length_append, !Htwo by lia. reflexivity.
Qed.

Lemma formatTime_shows_minutes_seconds_hundredths_witness :
  exists m s c,
    Client.formatTime 4997
    = Client.padStart 2 "0" (pretty m) +:+ ":"
      +:+ Client.padStart 2 "0" (pretty s) +:+ "."
      +:+ Client.padStart 2 "0" (pretty c)
    /\ 0 <= m /\ 0 <= s < 60 /\ 0 <= c < 100
    /\ m * 60000 + s * 1000 + c * 10 <= 4997
       < m * 60000 + s * 1000 + c * 10 + 10
    /\ String.length (Client.padStart 2 "0" (pretty s)) = 2%nat
    /\ String.length (Client.padStart 2 "0" (pretty c)) = 2%nat
    /\ (4997 < 6000000 -> String.length (Client.formatTime 4997) = 8%nat).
Proof.
  apply (formatTime_shows_minutes_seconds_hundredths 4997).
  unfold Client.MAX_SAFE_INTEGER. lia.
Defined.

Example formatTime_example :
  Client.formatTime 4997 = "00:04.99"
  /\ Client.formatTime 754321 = "12:34.32".
Proof. split; vm_compute; reflexivity. Qed.
